(** * TextLayoutCache: a byte-budgeted cache in front of bidi resolution and
      complex shaping

    Shallow embedding of [core/jni/android/graphics/TextLayoutCache.cpp].

    - Machine integers are [Z] with the wrap-around written out.  [size_t],
      [uint32_t], [hb_uint32] and pointers are 32 bits wide, as on the ILP32
      ABIs this code is built for; [unsigned short], [jchar] and [UChar] are
      16 bits wide.
    - [jfloat] is IEEE-754 binary32, carried by [spec_float] with precision 24
      and maximal exponent 128.
    - Buffers the shaper fills are lists; an access outside a buffer has no
      defined behaviour in C++ and is the error [OutOfBounds] here.
    - Arrays are allocated with [new T[n]] and released with [delete[]]: the
      free store counts the arrays that are live, and what a new array holds
      is not specified.
    - The bidi engine (ICU) and the complex shaper (HarfBuzz) are external;
      they enter as the classes [BidiEngine] and [Shaper].  The sizes of the
      key and value objects and the growth policy of [Vector] enter as the
      classes [ObjectSizes] and [Vector.Growth].
    - Wall-clock statistics ([systemTime], elapsed times, log output) are left
      out: they do not flow into sizes, store contents or returned values. *)

From Stdlib Require Import ZArith List Bool Lia SpecFloat.
Import ListNotations.
Local Open Scope Z_scope.

(** ** Machine integers *)

Definition u32 (z : Z) : Z := z mod 2 ^ 32.
Definition u16 (z : Z) : Z := z mod 2 ^ 16.

(** Conversion of a 32-bit pattern to [int]. *)
Definition s32 (z : Z) : Z :=
  let w := u32 z in if w <? 2 ^ 31 then w else w - 2 ^ 32.

Definition sizeof_UChar : Z := 2.
Definition sizeof_jchar : Z := 2.
Definition sizeof_unsigned_short : Z := 2.
Definition sizeof_jfloat : Z := 4.

(** ** binary32 *)

Definition jfloat : Type := spec_float.
Definition jfloat_prec : Z := 24.
Definition jfloat_emax : Z := 128.

Definition jfloat_zero : jfloat := S754_zero false.
Definition jfloat_add (x y : jfloat) : jfloat :=
  SFadd jfloat_prec jfloat_emax x y.
Definition jfloat_mul (x y : jfloat) : jfloat :=
  SFmul jfloat_prec jfloat_emax x y.
Definition jfloat_lt (x y : jfloat) : bool := SFltb x y.
Definition jfloat_eq (x y : jfloat) : bool := SFeqb x y.
Definition jfloat_of_int (z : Z) : jfloat :=
  binary_normalize jfloat_prec jfloat_emax z 0 false.

Definition jfloat_is_nan (x : jfloat) : bool :=
  match x with S754_nan => true | _ => false end.

(** Two floats that are the same value apart from the sign of a zero. *)
Definition same_float (x y : jfloat) : Prop :=
  x = y \/ (exists s t, x = S754_zero s /\ y = S754_zero t).

(** Modelled from the spec: [HBFixedToFloat] is declared in HarfbuzzSkia.h,
    which is not among the sources.  The shaper's advances are 26.6
    fixed-point values, so the conversion multiplies by 1/64 in binary32. *)
Definition HBFixedToFloat (v : Z) : jfloat :=
  jfloat_mul (jfloat_of_int v) (S754_finite false 8388608 (-29)).

(** ** Results of code that can leave defined behaviour *)

Inductive error : Type :=
| OutOfFuel     (* a loop was cut off by the fuel of the model *)
| OutOfBounds   (* an access outside a buffer *)
| BadAlloc.     (* [new T[n]] with a negative [n] *)

Inductive result (A : Type) : Type :=
| Ok (a : A)
| Err (e : error).
Arguments Ok {A} a.
Arguments Err {A} e.

Definition bind {A B : Type} (m : result A) (k : A -> result B) : result B :=
  match m with
  | Ok a => k a
  | Err e => Err e
  end.

Notation "x <- m ;; k" := (bind m (fun x => k))
  (at level 61, m at next level, right associativity).
Notation "' pat <- m ;; k" := (bind m (fun x => match x with pat => k end))
  (at level 61, pat pattern, m at next level, right associativity).

(** [p[i]] on a buffer of known extent. *)
Definition load {A : Type} (buf : list A) (i : Z) : result A :=
  if i <? 0 then Err OutOfBounds
  else match nth_error buf (Z.to_nat i) with
       | Some a => Ok a
       | None => Err OutOfBounds
       end.

(** [sp<T>]: a possibly null shared handle. *)
Definition sp (A : Type) : Type := option A.
Definition sp_NULL {A : Type} : sp A := None.

(** ** The free store *)

(** Arrays come from [new T[n]] and go with [delete[]].  Of the free store
    the model keeps the number of arrays that are live and the number of
    arrays allocated so far.  C++ does not say what a new array holds: here
    it is what [indeterminate] gives for the serial number of the allocation
    and the slot, and the statements hold whatever that is. *)
Module FreeStore.
Record t : Type := mk {
  live : Z;
  allocated : Z;
  indeterminate : Z -> Z -> Z
}.

(** [new T[n]] for a scalar [T]. *)
Definition new_array (h : t) (n : nat) : t * list Z :=
  ({| live := live h + 1; allocated := allocated h + 1;
      indeterminate := indeterminate h |},
   map (fun i => indeterminate h (allocated h) (Z.of_nat i)) (seq 0 n)).

(** [new HB_FixedPoint[n]]: two scalars to the slot. *)
Definition new_points (h : t) (n : nat) : t * list (Z * Z) :=
  ({| live := live h + 1; allocated := allocated h + 1;
      indeterminate := indeterminate h |},
   map (fun i => (indeterminate h (allocated h) (2 * Z.of_nat i),
                  indeterminate h (allocated h) (2 * Z.of_nat i + 1)))
       (seq 0 n)).

(** [delete[] p]; nothing happens for a null pointer. *)
Definition delete_array {A : Type} (h : t) (p : option (list A)) : t :=
  match p with
  | Some _ => {| live := live h - 1; allocated := allocated h;
                 indeterminate := indeterminate h |}
  | None => h
  end.
End FreeStore.

(** The free store as the shaping of a run finds it. *)
Class Allocator : Type := { free_store : FreeStore.t }.

(** ** Vector *)

(** Modelled from the spec: [Vector] (libutils) is not among the sources.  A
    vector is a sequence together with its capacity; [setCapacity] never
    shrinks, and appending beyond the capacity asks a growth policy for the
    new capacity.  The policy is a parameter: it is given the capacity there
    is and the size that is needed. *)
Module Vector.
Record t (A : Type) : Type := mk { items : list A; capacity : Z }.
Arguments mk {A} items capacity.
Arguments items {A} _.
Arguments capacity {A} _.

Class Growth : Type := { grow : Z -> Z -> Z }.

Definition empty {A : Type} : t A := mk [] 0.

Definition size {A : Type} (v : t A) : Z := Z.of_nat (length (items v)).

Definition reserve {growth : Growth} {A : Type} (its : list A) (cap : Z)
  : t A :=
  let n := Z.of_nat (length its) in
  mk its (if n <=? cap then cap else grow cap n).

Definition setCapacity {A : Type} (new_capacity : Z) (v : t A) : t A :=
  if new_capacity <=? size v then v else mk (items v) new_capacity.

Definition add {growth : Growth} {A : Type} (x : A) (v : t A) : t A :=
  reserve (items v ++ [x]) (capacity v).

(** [insertAt(item, index, numItems)]: [numItems] copies of [item] before
    the element at [index]. *)
Definition insertAt {growth : Growth} {A : Type} (item : A)
    (index numItems : Z) (v : t A) : t A :=
  reserve (firstn (Z.to_nat index) (items v)
           ++ repeat item (Z.to_nat numItems)
           ++ skipn (Z.to_nat index) (items v))
          (capacity v).
End Vector.

(** A vector after elements were appended to it: the elements it had are a
    front part of those it has, and it has the capacity it had when they all
    fit into it. *)
Definition appended {A : Type} (v v' : Vector.t A) : Prop :=
  (exists seg, Vector.items v' = Vector.items v ++ seg) /\
  (Vector.size v' <= Vector.capacity v ->
   Vector.capacity v' = Vector.capacity v).

(** ** Paint *)

Record SkPaint : Type := {
  getTypeface : Z;        (* SkTypeface*, an address *)
  getTextSize : jfloat;
  getTextSkewX : jfloat;
  getTextScaleX : jfloat;
  getFlags : Z;
  getHinting : Z
}.

(** Sizes of the two fixed-size objects, which the headers would give. *)
Class ObjectSizes : Type := {
  sizeof_TextLayoutCacheKey : Z;
  sizeof_TextLayoutCacheValue : Z
}.

(** ** TextLayoutCacheKey *)

Module TextLayoutCacheKey.

Record t : Type := mk {
  text : option (list Z);   (* const UChar* text, borrowed; [None] is NULL *)
  textCopy : list Z;        (* String16 textCopy *)
  count : Z;
  dirFlags : Z;
  typeface : Z;
  textSize : jfloat;
  textSkewX : jfloat;
  textScaleX : jfloat;
  flags : Z;
  hinting : Z
}.

(** [TextLayoutCacheKey(paint, text, count, dirFlags)] *)
Definition make (paint : SkPaint) (chars : list Z) (n : Z) (dir : Z) : t :=
  {| text := Some chars; textCopy := []; count := n; dirFlags := dir;
     typeface := getTypeface paint; textSize := getTextSize paint;
     textSkewX := getTextSkewX paint; textScaleX := getTextScaleX paint;
     flags := getFlags paint; hinting := getHinting paint |}.

Definition getText (k : t) : list Z :=
  match text k with
  | Some p => p
  | None => textCopy k
  end.

(** [textCopy.setTo(text, count); text = NULL] *)
Definition internalTextCopy (k : t) : t :=
  {| text := None;
     textCopy := match text k with
                 | Some p => firstn (Z.to_nat (count k)) p
                 | None => []
                 end;
     count := count k; dirFlags := dirFlags k; typeface := typeface k;
     textSize := textSize k; textSkewX := textSkewX k;
     textScaleX := textScaleX k; flags := flags k; hinting := hinting k |}.

Definition getSize {sizes : ObjectSizes} (k : t) : Z :=
  u32 (sizeof_TextLayoutCacheKey + u32 (sizeof_UChar * count k)).

(** The bytes of 16-bit units in memory, least significant byte first. *)
Definition bytes_of_units (us : list Z) : list Z :=
  flat_map (fun u => [u16 u mod 256; u16 u / 256]) us.

(** [memcmp(s1, s2, n)] as a sign.  Both buffers hold at least [n] bytes
    whenever the keys describe their text faithfully; where one ends before
    that, which C leaves undefined, the comparison stops with 0. *)
Fixpoint memcmp (s1 s2 : list Z) (n : nat) {struct n} : Z :=
  match n with
  | O => 0
  | S n' =>
      match s1, s2 with
      | b1 :: r1, b2 :: r2 =>
          if b1 <? b2 then -1
          else if b2 <? b1 then 1
          else memcmp r1 r2 n'
      | _, _ => 0
      end
  end.

Definition memcmp_text (k rhs : t) : Z :=
  memcmp (bytes_of_units (getText k)) (bytes_of_units (getText rhs))
         (Z.to_nat (u32 (count k * sizeof_UChar))).

(** Modelled from the spec: the macro [LTE_INT] comes from a header that is
    not among the sources.  It is a step of a lexicographic product:
    [if (a < rhs.a) return true; if (a == rhs.a)], followed by the statement
    it guards. *)
Definition LTE_INT (a rhs_a : Z) (body : option bool) : option bool :=
  if a <? rhs_a then Some true
  else if a =? rhs_a then body
  else None.

(** Modelled from the spec: the macro [LTE_FLOAT] comes from the same header;
    it is the same step on floats, with the comparisons of binary32. *)
Definition LTE_FLOAT (a rhs_a : jfloat) (body : option bool) : option bool :=
  if jfloat_lt a rhs_a then Some true
  else if jfloat_eq a rhs_a then body
  else None.

(** [operator<]: [None] from the nest of guards falls through to the final
    [return false]. *)
Definition lt (k rhs : t) : bool :=
  match
    LTE_INT (count k) (count rhs)
    (LTE_INT (typeface k) (typeface rhs)
    (LTE_FLOAT (textSize k) (textSize rhs)
    (LTE_FLOAT (textSkewX k) (textSkewX rhs)
    (LTE_FLOAT (textScaleX k) (textScaleX rhs)
    (LTE_INT (flags k) (flags rhs)
    (LTE_INT (hinting k) (hinting rhs)
    (LTE_INT (dirFlags k) (dirFlags rhs)
    (Some (memcmp_text k rhs <? 0)))))))))
  with
  | Some b => b
  | None => false
  end.

(** The equivalence a sorted container derives from [operator<]. *)
Definition equiv (a b : t) : bool := negb (lt a b) && negb (lt b a).

(** *** Lexicographic products over a list of fields *)

Inductive field : Type :=
| F_code_units | F_count | F_typeface | F_textSize | F_textSkewX
| F_textScaleX | F_flags | F_hinting | F_dirFlags.

Definition field_lt (f : field) (a b : t) : bool :=
  match f with
  | F_code_units => memcmp_text a b <? 0
  | F_count => count a <? count b
  | F_typeface => typeface a <? typeface b
  | F_textSize => jfloat_lt (textSize a) (textSize b)
  | F_textSkewX => jfloat_lt (textSkewX a) (textSkewX b)
  | F_textScaleX => jfloat_lt (textScaleX a) (textScaleX b)
  | F_flags => flags a <? flags b
  | F_hinting => hinting a <? hinting b
  | F_dirFlags => dirFlags a <? dirFlags b
  end.

Definition field_eq (f : field) (a b : t) : bool :=
  match f with
  | F_code_units => memcmp_text a b =? 0
  | F_count => count a =? count b
  | F_typeface => typeface a =? typeface b
  | F_textSize => jfloat_eq (textSize a) (textSize b)
  | F_textSkewX => jfloat_eq (textSkewX a) (textSkewX b)
  | F_textScaleX => jfloat_eq (textScaleX a) (textScaleX b)
  | F_flags => flags a =? flags b
  | F_hinting => hinting a =? hinting b
  | F_dirFlags => dirFlags a =? dirFlags b
  end.

(** [a] is before [b] in the lexicographic product over [fs]: at the first
    field where they are not equal, [a] is smaller. *)
Fixpoint lex_lt (fs : list field) (a b : t) : bool :=
  match fs with
  | [] => false
  | f :: rest => field_lt f a b || (field_eq f a b && lex_lt rest a b)
  end.

(** The order of the fields as the data model of the specification lists
    them, the code units first. *)
Definition spec_field_order : list field :=
  [F_code_units; F_typeface; F_textSize; F_textSkewX; F_textScaleX;
   F_flags; F_hinting; F_dirFlags].

(** The order in which [operator<] visits them: the length first, the code
    units last. *)
Definition code_field_order : list field :=
  [F_count; F_typeface; F_textSize; F_textSkewX; F_textScaleX;
   F_flags; F_hinting; F_dirFlags; F_code_units].

(** Equality in every field [operator<] looks at. *)
Definition fields_equal (a b : t) : bool :=
  forallb (fun f => field_eq f a b) code_field_order.

Definition no_nan (k : t) : Prop :=
  jfloat_is_nan (textSize k) = false /\
  jfloat_is_nan (textSkewX k) = false /\
  jfloat_is_nan (textScaleX k) = false.

End TextLayoutCacheKey.

(** ** The complex shaper (HarfBuzz) *)

Module HB.

Inductive Script : Type := Script_Common | Script_Arabic.

Record FontData : Type := {
  typeFace : Z;
  textSize : jfloat;
  textSkewX : jfloat;
  textScaleX : jfloat;
  flags : Z;
  hinting : Z
}.

Record FontRec : Type := {
  x_ppem : Z;
  y_ppem : Z;
  x_scale : Z;
  y_scale : Z;
  userData : option FontData
}.

(** [HB_ShaperItem].  A pointer to a buffer is the buffer, or [None] when
    the pointer is null or its storage has been released.  The face handle
    is opaque to this file and left out. *)
Record ShaperItem : Type := {
  string : list Z;
  stringLength : Z;
  item_pos : Z;
  item_length : Z;
  item_bidiLevel : Z;
  item_script : Script;
  font : FontRec;
  num_glyphs : Z;
  glyphs : option (list Z);
  attributes : option (list Z);
  advances : option (list Z);
  offsets : option (list (Z * Z));
  log_clusters : option (list Z);
  kerning_applied : bool
}.

(** The part of the item the caller hands to the shaper as its request; the
    rest is output storage and its capacity. *)
Definition request (it : ShaperItem)
  : list Z * Z * Z * Z * Z * Script * FontRec :=
  (string it, stringLength it, item_pos it, item_length it,
   item_bidiLevel it, item_script it, font it).

Definition buffer_length {A : Type} (p : option (list A)) : Z :=
  match p with
  | Some b => Z.of_nat (length b)
  | None => 0
  end.

Definition deref {A : Type} (p : option (list A)) (i : Z) : result A :=
  match p with
  | Some b => load b i
  | None => Err OutOfBounds
  end.

End HB.

(** [HB_ShapeItem]: the flag it returns and the item as it leaves it. *)
Class Shaper : Type := {
  HB_ShapeItem : HB.ShaperItem -> bool * HB.ShaperItem
}.

(** ** The bidi engine (ICU) *)

(** Constants of ICU's ubidi.h and utypes.h. *)
Definition UBIDI_DEFAULT_LTR : Z := 254.
Definition UBIDI_DEFAULT_RTL : Z := 255.
Definition UBIDI_LTR : Z := 0.
Definition UBIDI_RTL : Z := 1.
Definition U_ZERO_ERROR : Z := 0.
Definition U_SUCCESS (status : Z) : bool := status <=? U_ZERO_ERROR.

(** The paragraph a [UBiDi] object holds after [ubidi_setPara]. *)
Record UBiDi : Type := {
  para_text : list Z;
  para_length : Z;
  para_level : Z
}.

Class BidiEngine : Type := {
  (* whether [ubidi_open] returns an object *)
  ubidi_open : bool;
  (* the status [ubidi_setPara] leaves *)
  ubidi_setPara : UBiDi -> Z;
  ubidi_getParaLevel : UBiDi -> Z;
  (* the count and the status of [ubidi_countRuns] *)
  ubidi_countRuns : UBiDi -> Z * Z;
  (* direction, start and length of the visual run of an index *)
  ubidi_getVisualRun : UBiDi -> Z -> Z * Z * Z
}.

(** Modelled from the spec: the direction modes and [kDirection_Mask] are
    enumerators of TextLayout.h, which is not among the sources; the six
    modes are numbered in the order the specification lists them. *)
Definition kBidi_LTR : Z := 0.
Definition kBidi_RTL : Z := 1.
Definition kBidi_Default_LTR : Z := 2.
Definition kBidi_Default_RTL : Z := 3.
Definition kBidi_Force_LTR : Z := 4.
Definition kBidi_Force_RTL : Z := 5.
Definition kDirection_Mask : Z := 1.

(** The value of a C assignment expression [x = v] used as a condition. *)
Definition assigned_as_condition (v : Z) : bool := negb (v =? 0).

(** ** TextLayoutCacheValue *)

Module TextLayoutCacheValue.

Record t : Type := mk {
  mAdvances : Vector.t jfloat;
  mTotalAdvance : jfloat;
  mGlyphs : Vector.t Z;
  mLogClusters : Vector.t Z
}.

(** [TextLayoutCacheValue()] *)
Definition new : t :=
  {| mAdvances := Vector.empty; mTotalAdvance := jfloat_zero;
     mGlyphs := Vector.empty; mLogClusters := Vector.empty |}.

Definition getSize {sizes : ObjectSizes} (v : t) : Z :=
  u32 (sizeof_TextLayoutCacheValue
       + sizeof_jfloat * Vector.capacity (mAdvances v)
       + sizeof_jchar * Vector.capacity (mGlyphs v)
       + sizeof_unsigned_short * Vector.capacity (mLogClusters v)).

(** *** Glyph-side buffers of the shaper item *)

(** Four times [new T[size]] with an [int] size: the arrays hold what the
    free store gives, and the pointers the item had are overwritten. *)
Definition createGlyphArrays (h : FreeStore.t) (it : HB.ShaperItem)
    (size : Z) : result (FreeStore.t * HB.ShaperItem) :=
  if size <? 0 then Err BadAlloc
  else
    let n := Z.to_nat size in
    let (h1, g) := FreeStore.new_array h n in
    let (h2, a) := FreeStore.new_array h1 n in
    let (h3, d) := FreeStore.new_array h2 n in
    let (h4, o) := FreeStore.new_points h3 n in
    Ok (h4,
        {| HB.string := HB.string it; HB.stringLength := HB.stringLength it;
           HB.item_pos := HB.item_pos it;
           HB.item_length := HB.item_length it;
           HB.item_bidiLevel := HB.item_bidiLevel it;
           HB.item_script := HB.item_script it; HB.font := HB.font it;
           HB.num_glyphs := u32 size;
           HB.glyphs := Some g;
           HB.attributes := Some a;
           HB.advances := Some d;
           HB.offsets := Some o;
           HB.log_clusters := HB.log_clusters it;
           HB.kerning_applied := HB.kerning_applied it |}).

(** [memset(p, 0, size * sizeof(p[0]))] *)
Definition zero_fill {A : Type} (zero : A) (size : Z) (p : option (list A))
  : result (option (list A)) :=
  match p with
  | None => Err OutOfBounds
  | Some b =>
      if (0 <=? size) && (size <=? Z.of_nat (length b))
      then Ok (Some (repeat zero (Z.to_nat size) ++ skipn (Z.to_nat size) b))
      else Err OutOfBounds
  end.

Definition resetGlyphArrays (it : HB.ShaperItem) : result HB.ShaperItem :=
  let size := s32 (HB.num_glyphs it) in
  g <- zero_fill 0 size (HB.glyphs it) ;;
  a <- zero_fill 0 size (HB.attributes it) ;;
  d <- zero_fill 0 size (HB.advances it) ;;
  o <- zero_fill (0, 0) size (HB.offsets it) ;;
  Ok {| HB.string := HB.string it; HB.stringLength := HB.stringLength it;
        HB.item_pos := HB.item_pos it; HB.item_length := HB.item_length it;
        HB.item_bidiLevel := HB.item_bidiLevel it;
        HB.item_script := HB.item_script it; HB.font := HB.font it;
        HB.num_glyphs := HB.num_glyphs it;
        HB.glyphs := g; HB.attributes := a; HB.advances := d;
        HB.offsets := o;
        HB.log_clusters := HB.log_clusters it;
        HB.kerning_applied := HB.kerning_applied it |}.

(** [delete[]] of the four glyph-side buffers: their arrays leave the free
    store, and the pointers, which stay in the item, give access to nothing
    any more. *)
Definition deleteGlyphArrays (h : FreeStore.t) (it : HB.ShaperItem)
  : FreeStore.t * HB.ShaperItem :=
  let h1 := FreeStore.delete_array h (HB.glyphs it) in
  let h2 := FreeStore.delete_array h1 (HB.attributes it) in
  let h3 := FreeStore.delete_array h2 (HB.advances it) in
  let h4 := FreeStore.delete_array h3 (HB.offsets it) in
  (h4,
   {| HB.string := HB.string it; HB.stringLength := HB.stringLength it;
      HB.item_pos := HB.item_pos it; HB.item_length := HB.item_length it;
      HB.item_bidiLevel := HB.item_bidiLevel it;
      HB.item_script := HB.item_script it; HB.font := HB.font it;
      HB.num_glyphs := HB.num_glyphs it;
      HB.glyphs := None; HB.attributes := None; HB.advances := None;
      HB.offsets := None;
      HB.log_clusters := HB.log_clusters it;
      HB.kerning_applied := HB.kerning_applied it |}).

(** The item after [memset] to zero, with the font attached. *)
Definition zeroed_item (font : HB.FontRec) : HB.ShaperItem :=
  {| HB.string := []; HB.stringLength := 0;
     HB.item_pos := 0; HB.item_length := 0; HB.item_bidiLevel := 0;
     HB.item_script := HB.Script_Common; HB.font := font;
     HB.num_glyphs := 0;
     HB.glyphs := None; HB.attributes := None; HB.advances := None;
     HB.offsets := None; HB.log_clusters := None;
     HB.kerning_applied := false |}.

Definition fontData_of (paint : SkPaint) : HB.FontData :=
  {| HB.typeFace := getTypeface paint; HB.textSize := getTextSize paint;
     HB.textSkewX := getTextSkewX paint;
     HB.textScaleX := getTextScaleX paint;
     HB.flags := getFlags paint; HB.hinting := getHinting paint |}.

(** After the [memset] the log-cluster pointer is null, so the [delete] in
    front of [new unsigned short[contextCount]] releases nothing. *)
Definition setupShaperItem (h : FreeStore.t) (paint : SkPaint)
    (chars : list Z) (start count contextCount : Z) (isRTL : bool)
  : result (FreeStore.t * HB.ShaperItem) :=
  let font := {| HB.x_ppem := 1; HB.y_ppem := 1; HB.x_scale := 1;
                 HB.y_scale := 1;
                 HB.userData := Some (fontData_of paint) |} in
  '(h1, it) <- createGlyphArrays h (zeroed_item font)
                                 (s32 (u32 ((contextCount + 2) * 2))) ;;
  let (h2, log_clusters) :=
    FreeStore.new_array h1 (Z.to_nat contextCount) in
  Ok (h2,
      {| HB.string := chars; HB.stringLength := contextCount;
         HB.item_pos := start; HB.item_length := count;
         HB.item_bidiLevel := if isRTL then 1 else 0;
         HB.item_script := if isRTL then HB.Script_Arabic
                           else HB.Script_Common;
         HB.font := font;
         HB.num_glyphs := HB.num_glyphs it;
         HB.glyphs := HB.glyphs it; HB.attributes := HB.attributes it;
         HB.advances := HB.advances it; HB.offsets := HB.offsets it;
         HB.log_clusters := Some log_clusters;
         HB.kerning_applied := false |}).

(** One turn of the body of the retry loop:
    [deleteGlyphArrays; createGlyphArrays(num_glyphs << 1); resetGlyphArrays]. *)
Definition regrow (h : FreeStore.t) (it : HB.ShaperItem)
  : result (FreeStore.t * HB.ShaperItem) :=
  let (h0, it0) := deleteGlyphArrays h it in
  '(h1, it1) <- createGlyphArrays h0 it0
                                  (s32 (u32 (HB.num_glyphs it0 * 2))) ;;
  it2 <- resetGlyphArrays it1 ;;
  Ok (h1, it2).

(** How many of the four glyph-side pointers of an item hold an array. *)
Definition held {A : Type} (p : option (list A)) : Z :=
  match p with
  | Some _ => 1
  | None => 0
  end.

Definition live_glyph_arrays (it : HB.ShaperItem) : Z :=
  held (HB.glyphs it) + held (HB.attributes it)
  + held (HB.advances it) + held (HB.offsets it).

(** The four glyph-side buffers have [n] slots each, whatever they hold, and
    [num_glyphs] says so. *)
Definition sized_glyph_arrays (it : HB.ShaperItem) (n : Z) : Prop :=
  HB.num_glyphs it = n /\
  (exists g, HB.glyphs it = Some g /\ length g = Z.to_nat n) /\
  (exists a, HB.attributes it = Some a /\ length a = Z.to_nat n) /\
  (exists d, HB.advances it = Some d /\ length d = Z.to_nat n) /\
  (exists o, HB.offsets it = Some o /\ length o = Z.to_nat n).

(** The four glyph-side buffers have [n] slots each, all zero, and
    [num_glyphs] says so. *)
Definition fresh_glyph_arrays (it : HB.ShaperItem) (n : Z) : Prop :=
  HB.num_glyphs it = n /\
  HB.glyphs it = Some (repeat 0 (Z.to_nat n)) /\
  HB.attributes it = Some (repeat 0 (Z.to_nat n)) /\
  HB.advances it = Some (repeat 0 (Z.to_nat n)) /\
  HB.offsets it = Some (repeat (0, 0) (Z.to_nat n)).

(** The request [setupShaperItem] writes into the item. *)
Definition request_of (paint : SkPaint) (chars : list Z)
    (start count contextCount : Z) (isRTL : bool)
  : list Z * Z * Z * Z * Z * HB.Script * HB.FontRec :=
  (chars, contextCount, start, count, if isRTL then 1 else 0,
   if isRTL then HB.Script_Arabic else HB.Script_Common,
   {| HB.x_ppem := 1; HB.y_ppem := 1; HB.x_scale := 1; HB.y_scale := 1;
      HB.userData := Some (fontData_of paint) |}).

Section WithShaper.
Context {growth : Vector.Growth} {shaper : Shaper} {allocator : Allocator}.

(** What the retry loop needs of the shaper for one request: a call that
    fails leaves the request alone and reports, in [num_glyphs], a number of
    glyphs below [2 ^ 30] that is enough, in that a call with fresh buffers
    of at least that many slots succeeds. *)
Definition succeeds_with_enough_room
    (rq : list Z * Z * Z * Z * Z * HB.Script * HB.FontRec) : Prop :=
  forall it it',
    HB.request it = rq -> HB_ShapeItem it = (false, it') ->
    HB.request it' = rq /\
    0 <= HB.num_glyphs it' < 2 ^ 30 /\
    forall it2 m,
      HB.request it2 = rq -> fresh_glyph_arrays it2 m ->
      HB.num_glyphs it' <= m -> fst (HB_ShapeItem it2) = true.

(** [while (!HB_ShapeItem(shaperItem)) { ... }] *)
Fixpoint shape_loop (fuel : nat) (h : FreeStore.t) (it : HB.ShaperItem)
  : result (FreeStore.t * HB.ShaperItem) :=
  match fuel with
  | O => Err OutOfFuel
  | S fuel' =>
      let (ok, it') := HB_ShapeItem it in
      if ok then Ok (h, it')
      else '(h', it'') <- regrow h it' ;; shape_loop fuel' h' it''
  end.

Definition shapeWithHarfbuzz (h : FreeStore.t) (fuel : nat) (paint : SkPaint)
    (chars : list Z) (start count contextCount : Z) (isRTL : bool)
  : result (FreeStore.t * HB.ShaperItem) :=
  '(h1, it) <- setupShaperItem h paint chars start count contextCount
                               isRTL ;;
  it0 <- resetGlyphArrays it ;;
  shape_loop fuel h1 it0.

(** The shaper writes log clusters into the buffer it is given: the extent
    of the buffer is the same after a call. *)
Definition writes_in_place : Prop :=
  forall it,
    HB.buffer_length (HB.log_clusters (snd (HB_ShapeItem it)))
    = HB.buffer_length (HB.log_clusters it).

(** *** Projection of one shaped run *)

(** [for (size_t i = 1; i < count; i++)] of the advances, from position
    [i] for [n] more turns. *)
Fixpoint advances_loop (it : HB.ShaperItem) (i : Z) (n : nat)
    (totalAdvance : jfloat) (outAdvances : Vector.t jfloat)
  : result (jfloat * Vector.t jfloat) :=
  match n with
  | O => Ok (totalAdvance, outAdvances)
  | S n' =>
      clusterPrevious <- HB.deref (HB.log_clusters it) (i - 1) ;;
      cluster <- HB.deref (HB.log_clusters it) i ;;
      if cluster =? clusterPrevious then
        advances_loop it (i + 1) n' totalAdvance
                      (Vector.add jfloat_zero outAdvances)
      else
        a <- HB.deref (HB.advances it) cluster ;;
        let currentAdvance := HBFixedToFloat a in
        advances_loop it (i + 1) n'
                      (jfloat_add totalAdvance currentAdvance)
                      (Vector.add currentAdvance outAdvances)
  end.

(** [for (size_t i = 0; i < countGlyphs; i++)] of the glyphs. *)
Fixpoint glyphs_loop (it : HB.ShaperItem) (isRTL : bool)
    (countGlyphs : Z) (i : Z) (n : nat) (outGlyphs : Vector.t Z)
  : result (Vector.t Z) :=
  match n with
  | O => Ok outGlyphs
  | S n' =>
      g <- HB.deref (HB.glyphs it)
                    (if negb isRTL then i else countGlyphs - 1 - i) ;;
      glyphs_loop it isRTL countGlyphs (i + 1) n'
                  (Vector.add (u16 g) outGlyphs)
  end.

(** [for (size_t i = 0; i < countGlyphs; i++)] of the log clusters, with
    [countLogClusters] read before the loop. *)
Fixpoint logClusters_loop (it : HB.ShaperItem) (countLogClusters : Z)
    (i : Z) (n : nat) (outLogClusters : Vector.t Z)
  : result (Vector.t Z) :=
  match n with
  | O => Ok outLogClusters
  | S n' =>
      c <- HB.deref (HB.log_clusters it) i ;;
      let logCluster := u16 (c + countLogClusters) in
      logClusters_loop it countLogClusters (i + 1) n'
                       (Vector.add logCluster outLogClusters)
  end.

(** What a run leaves in the three vectors and in [*outTotalAdvance].
    [outGlyphs] and [outLogClusters] are addresses of members at the only
    call site, so their null guards pass. *)
Record run_output : Type := {
  outAdvances : Vector.t jfloat;
  outTotalAdvance : jfloat;
  outGlyphs : Vector.t Z;
  outLogClusters : Vector.t Z
}.

(** Lines 516 to 530: the advances of the run and their total. *)
Definition project_advances (it : HB.ShaperItem) (count : Z)
    (advs : Vector.t jfloat) : result (jfloat * Vector.t jfloat) :=
  c0 <- HB.deref (HB.log_clusters it) 0 ;;
  a0 <- HB.deref (HB.advances it) c0 ;;
  let currentAdvance := HBFixedToFloat a0 in
  advances_loop it 1 (Z.to_nat (count - 1)) currentAdvance
                (Vector.add currentAdvance advs).

(** Lines 540 to 549. *)
Definition project_glyphs (it : HB.ShaperItem) (isRTL : bool)
    (gls : Vector.t Z) : result (Vector.t Z) :=
  let countGlyphs := HB.num_glyphs it in
  glyphs_loop it isRTL countGlyphs 0 (Z.to_nat countGlyphs) gls.

(** Lines 552 to 563. *)
Definition project_logClusters (it : HB.ShaperItem) (lcs : Vector.t Z)
  : result (Vector.t Z) :=
  let countLogClusters := Vector.size lcs in
  let countGlyphs := HB.num_glyphs it in
  logClusters_loop it countLogClusters 0 (Z.to_nat countGlyphs) lcs.

(** [shaperItem.advances == NULL || shaperItem.num_glyphs == 0] *)
Definition shaped_nothing (it : HB.ShaperItem) : bool :=
  match HB.advances it with
  | None => true
  | Some _ => HB.num_glyphs it =? 0
  end.

(** The projection after shaping, lines 502 to 563. *)
Definition project_run (it : HB.ShaperItem) (count : Z) (isRTL : bool)
    (advs : Vector.t jfloat) (gls lcs : Vector.t Z) : result run_output :=
  if shaped_nothing it then
    Ok {| outAdvances :=
            Vector.insertAt jfloat_zero (Vector.size advs) count advs;
          outTotalAdvance := jfloat_zero;
          outGlyphs := gls; outLogClusters := lcs |}
  else
    '(totalAdvance, advs') <- project_advances it count advs ;;
    gls' <- project_glyphs it isRTL gls ;;
    lcs' <- project_logClusters it lcs ;;
    Ok {| outAdvances := advs'; outTotalAdvance := totalAdvance;
          outGlyphs := gls'; outLogClusters := lcs' |}.

(** The run is shaped in the free store as it is found; the cleaning at the
    end releases the glyph-side arrays, and what the free store is then is
    not part of what the run leaves to its caller. *)
Definition computeRunValuesWithHarfbuzz (fuel : nat) (paint : SkPaint)
    (chars : list Z) (start count contextCount : Z) (isRTL : bool)
    (advs : Vector.t jfloat) (gls lcs : Vector.t Z) : result run_output :=
  '(_, it) <- shapeWithHarfbuzz free_store fuel paint chars start count
                                contextCount isRTL ;;
  project_run it count isRTL advs gls lcs.

End WithShaper.

Section WithBidi.
Context {growth : Vector.Growth} {shaper : Shaper} {allocator : Allocator}
        {bidi_engine : BidiEngine}.

(** A single run over the whole context, written through
    [outTotalAdvance = &mTotalAdvance]. *)
Definition single_run (fuel : nat) (paint : SkPaint) (chars : list Z)
    (contextCount : Z) (isRTL : bool) (v : t) : result t :=
  r <- computeRunValuesWithHarfbuzz fuel paint chars 0 contextCount
         contextCount isRTL (mAdvances v) (mGlyphs v) (mLogClusters v) ;;
  Ok {| mAdvances := outAdvances r; mTotalAdvance := outTotalAdvance r;
        mGlyphs := outGlyphs r; mLogClusters := outLogClusters r |}.

(** [for (size_t i = 0; i < rc; ++i)] over the visual runs, from run [i]
    for [n] more turns. *)
Fixpoint runs_loop (fuel : nat) (paint : SkPaint) (chars : list Z)
    (contextCount : Z) (bidi : UBiDi) (i : Z) (n : nat) (v : t)
  : result t :=
  match n with
  | O => Ok v
  | S n' =>
      let '(runDir, startRun, lengthRun) := ubidi_getVisualRun bidi i in
      let isRTL := runDir =? UBIDI_RTL in
      r <- computeRunValuesWithHarfbuzz fuel paint chars (u32 startRun)
             (u32 lengthRun) contextCount isRTL
             (mAdvances v) (mGlyphs v) (mLogClusters v) ;;
      runs_loop fuel paint chars contextCount bidi (i + 1) n'
        {| mAdvances := outAdvances r;
           mTotalAdvance := jfloat_add (mTotalAdvance v)
                                       (outTotalAdvance r);
           mGlyphs := outGlyphs r; mLogClusters := outLogClusters r |}
  end.

(** The [switch (dirFlags)]: the requested level and the two force flags. *)
Definition bidiReq_of (dirFlags : Z) : Z :=
  if dirFlags =? kBidi_LTR then 0
  else if dirFlags =? kBidi_RTL then 1
  else if dirFlags =? kBidi_Default_LTR then UBIDI_DEFAULT_LTR
  else if dirFlags =? kBidi_Default_RTL then UBIDI_DEFAULT_RTL
  else 0.

Definition computeValuesWithHarfbuzz (fuel : nat) (paint : SkPaint)
    (chars : list Z) (contextCount : Z) (dirFlags : Z) (v : t)
  : result t :=
  let bidiReq := bidiReq_of dirFlags in
  let forceLTR := dirFlags =? kBidi_Force_LTR in
  let forceRTL := dirFlags =? kBidi_Force_RTL in
  if forceLTR || forceRTL then
    single_run fuel paint chars contextCount forceRTL v
  else if ubidi_open then
    let bidi := {| para_text := chars; para_length := contextCount;
                   para_level := bidiReq |} in
    let status := ubidi_setPara bidi in
    if U_SUCCESS status then
      let paraDir := Z.land (ubidi_getParaLevel bidi) kDirection_Mask in
      let (runs, status') := ubidi_countRuns bidi in
      let rc := u32 runs in
      if (rc =? 1) || negb (U_SUCCESS status') then
        single_run fuel paint chars contextCount (paraDir =? 1) v
      else
        runs_loop fuel paint chars contextCount bidi 0 (Z.to_nat rc) v
    else Ok v
  else
    (* bool isRTL = (bidiReq = 1) || (bidiReq = UBIDI_DEFAULT_RTL); *)
    let isRTL := assigned_as_condition 1
                 || assigned_as_condition UBIDI_DEFAULT_RTL in
    single_run fuel paint chars contextCount isRTL v.

Definition computeValues (fuel : nat) (paint : SkPaint) (chars : list Z)
    (contextCount : Z) (dirFlags : Z) (v : t) : result t :=
  computeValuesWithHarfbuzz fuel paint chars contextCount dirFlags
    {| mAdvances := Vector.setCapacity contextCount (mAdvances v);
       mTotalAdvance := mTotalAdvance v;
       mGlyphs := Vector.setCapacity contextCount (mGlyphs v);
       mLogClusters := Vector.setCapacity contextCount (mLogClusters v) |}.

(** Which of its branches [computeValuesWithHarfbuzz] takes: one run over the
    whole context with a direction, the visual runs of the paragraph, or
    nothing at all, when [ubidi_setPara] fails. *)
Inductive route : Type :=
| Route_single (isRTL : bool)
| Route_runs (bidi : UBiDi) (rc : Z)
| Route_none.

Definition route_of (chars : list Z) (contextCount : Z) (dirFlags : Z)
  : route :=
  if (dirFlags =? kBidi_Force_LTR) || (dirFlags =? kBidi_Force_RTL) then
    Route_single (dirFlags =? kBidi_Force_RTL)
  else if ubidi_open then
    let bidi := {| para_text := chars; para_length := contextCount;
                   para_level := bidiReq_of dirFlags |} in
    if U_SUCCESS (ubidi_setPara bidi) then
      let rc := u32 (fst (ubidi_countRuns bidi)) in
      if (rc =? 1) || negb (U_SUCCESS (snd (ubidi_countRuns bidi))) then
        Route_single
          (Z.land (ubidi_getParaLevel bidi) kDirection_Mask =? 1)
      else Route_runs bidi rc
    else Route_none
  else Route_single true.

(** The lengths, as [size_t], of the first [n] visual runs. *)
Definition run_lengths (bidi : UBiDi) (n : nat) : list Z :=
  map (fun i => u32 (snd (ubidi_getVisualRun bidi (Z.of_nat i)))) (seq 0 n).

(** The visual runs are not empty and their lengths add up to the context. *)
Definition runs_cover (bidi : UBiDi) (rc contextCount : Z) : Prop :=
  Forall (fun len => 0 < len) (run_lengths bidi (Z.to_nat rc)) /\
  fold_right Z.add 0 (run_lengths bidi (Z.to_nat rc)) = contextCount.

End WithBidi.

(** *** Accessors *)

(** [for (size_t i = start; i < start + count; i++)] of [getTotalAdvance],
    adding [mAdvances[i]] to [outTotalAdvance]. *)
Fixpoint totalAdvance_loop (advs : list jfloat) (i : Z) (n : nat)
    (outTotal : jfloat) : result jfloat :=
  match n with
  | O => Ok outTotal
  | S n' =>
      a <- load advs i ;;
      totalAdvance_loop advs (i + 1) n' (jfloat_add outTotal a)
  end.

Definition getTotalAdvance (v : t) (start count : Z) : result jfloat :=
  totalAdvance_loop (Vector.items (mAdvances v)) start
                    (Z.to_nat (u32 (start + count) - start)) jfloat_zero.

(** [for (size_t i = 0; i < mGlyphs.size(); i++)] of
    [getGlyphsIndexAndCount], carrying [*outStartIndex] and [endIndex]. *)
Fixpoint index_loop (logClusters : list Z) (start count : Z) (i : Z)
    (n : nat) (outStartIndex endIndex : Z) : result (Z * Z) :=
  match n with
  | O => Ok (outStartIndex, endIndex)
  | S n' =>
      c <- load logClusters i ;;
      if c <=? start then
        index_loop logClusters start count (i + 1) n' i i
      else if c <=? u32 (start + count) then
        index_loop logClusters start count (i + 1) n' outStartIndex i
      else
        index_loop logClusters start count (i + 1) n' outStartIndex endIndex
  end.

(** The start index and the end index the loop settles on. *)
Definition glyph_indexes (v : t) (start count : Z) : result (Z * Z) :=
  index_loop (Vector.items (mLogClusters v)) start count 0
             (length (Vector.items (mGlyphs v))) 0 0.

(** [getGlyphsIndexAndCount]: [( *outStartIndex, *outGlyphsCount )]. *)
Definition getGlyphsIndexAndCount (v : t) (start count : Z)
  : result (Z * Z) :=
  if count =? 0 then Ok (0, 0)
  else
    '(outStartIndex, endIndex) <- glyph_indexes v start count ;;
    Ok (outStartIndex, u32 (endIndex - outStartIndex + 1)).

(** [getAdvances]: what [memcpy] leaves in [outAdvances].  It copies
    [count * sizeof(jfloat)] bytes, a [size_t], from [mAdvances.array() +
    start]; the bytes have to come from the elements of the vector. *)
Definition getAdvances (v : t) (start count : Z) : result (list jfloat) :=
  let advs := Vector.items (mAdvances v) in
  let n := u32 (count * sizeof_jfloat) / sizeof_jfloat in
  if (0 <=? start) && (start + n <=? Z.of_nat (length advs))
  then Ok (firstn (Z.to_nat n) (skipn (Z.to_nat start) advs))
  else Err OutOfBounds.

(** [getGlyphs]: the pointer [mGlyphs.array() + startIndex], as the glyphs
    that can be read through it; [count] only reaches the log. *)
Definition getGlyphs (v : t) (startIndex count : Z) : result (list Z) :=
  let glyphs := Vector.items (mGlyphs v) in
  if (0 <=? startIndex) && (startIndex <=? Z.of_nat (length glyphs))
  then Ok (skipn (Z.to_nat startIndex) glyphs)
  else Err OutOfBounds.

(** The sum of a sequence of advances, added in order from zero, as
    [getTotalAdvance] adds them. *)
Definition in_order_sum (advs : list jfloat) : jfloat :=
  fold_left jfloat_add advs jfloat_zero.

(** *** The run total in the words of the specification *)

(** The total of a run after its first position: going through the log
    clusters of the further positions and the advances emitted for them, an
    advance is added when the cluster differs from the one before it. *)
Fixpoint add_new_clusters (previous : Z) (clusters : list Z)
    (emitted : list jfloat) (total : jfloat) : jfloat :=
  match clusters, emitted with
  | c :: clusters', x :: emitted' =>
      add_new_clusters c clusters' emitted'
        (if c =? previous then total else jfloat_add total x)
  | _, _ => total
  end.

(** *** The glyph range in the words of the specification *)

(** The log cluster of glyph [j] is at most [bound], or is above it. *)
Definition cluster_le (logClusters : list Z) (j bound : Z) : Prop :=
  exists c, load logClusters j = Ok c /\ c <= bound.

Definition cluster_gt (logClusters : list Z) (j bound : Z) : Prop :=
  exists c, load logClusters j = Ok c /\ bound < c.

(** [r] is the largest glyph index in [lo, hi) whose log cluster is at most
    [bound]. *)
Definition largest_index_le (logClusters : list Z) (lo hi bound r : Z) : Prop :=
  lo <= r < hi /\ cluster_le logClusters r bound /\
  forall j, r < j < hi -> cluster_gt logClusters j bound.

(** No glyph index in [lo, hi) has a log cluster that is at most [bound]. *)
Definition no_index_le (logClusters : list Z) (lo hi bound : Z) : Prop :=
  forall j, lo <= j < hi -> cluster_gt logClusters j bound.

(** *** Code-unit positions in the full input *)



(** What the loop of [getGlyphsIndexAndCount] leaves in one of its two
    indexes after visiting [lo, hi): the largest index found there, or the
    value the index had before. *)
Definition settles (logClusters : list Z) (lo hi bound before r : Z) : Prop :=
  largest_index_le logClusters lo hi bound r \/
  (r = before /\ no_index_le logClusters lo hi bound).

(** The glyphs and the log clusters of an artifact go in pairs. *)
Definition paired (v : t) : Prop :=
  length (Vector.items (mGlyphs v)) = length (Vector.items (mLogClusters v)).

End TextLayoutCacheValue.

(** ** The store *)

(** Modelled from the spec: [GenerationCache] (libutils) is not among the
    sources.  It is a mapping without a bound on the number of entries, kept
    in insertion order: [put] makes an entry the most recent, [get] does not
    change the order, [removeOldest] deletes the least recent entry and calls
    the removal listener with its key and value, and [clear] removes every
    entry, the listener being called for each.  The entries are listed oldest
    first; keys are matched with the equivalence of the key order. *)
Module GenerationCache.
Section Store.
Context {K X : Type}.
Variable key_equiv : K -> K -> bool.

Definition t : Type := list (K * sp X).

Definition empty : t := [].

Definition size (c : t) : Z := Z.of_nat (length c).

(** The value of the entry of an equivalent key, NULL without one. *)
Definition get (key : K) (c : t) : sp X :=
  match find (fun e => key_equiv key (fst e)) c with
  | Some e => snd e
  | None => sp_NULL
  end.

Definition put (key : K) (value : sp X) (c : t) : t := c ++ [(key, value)].

(** The listener works on the state of its owner. *)
Definition removeOldest {State : Type}
    (listener : K -> sp X -> State -> State) (c : t) (s : State)
  : t * State :=
  match c with
  | [] => ([], s)
  | (key, value) :: rest => (rest, listener key value s)
  end.

Definition clear {State : Type}
    (listener : K -> sp X -> State -> State) (c : t) (s : State)
  : t * State :=
  ([], fold_left (fun s' e => listener (fst e) (snd e) s') c s).
End Store.
End GenerationCache.

(** ** TextLayoutCache *)

Module TextLayoutCache.

Record t : Type := mk {
  mCache : GenerationCache.t (K := TextLayoutCacheKey.t)
                             (X := TextLayoutCacheValue.t);
  mSize : Z;
  mMaxSize : Z;
  mDebugEnabled : bool;
  mCacheHitCount : Z
}.

(** Modelled from the spec: [MB(DEFAULT_TEXT_LAYOUT_CACHE_SIZE_IN_MB)] comes
    from headers that are not among the sources; the default budget is
    0.25 MiB. *)
Definition DEFAULT_MAX_SIZE : Z := 262144.

(** [TextLayoutCache()], with the debug level the process was given. *)
Definition new (debugEnabled : bool) : t :=
  {| mCache := GenerationCache.empty; mSize := 0;
     mMaxSize := DEFAULT_MAX_SIZE; mDebugEnabled := debugEnabled;
     mCacheHitCount := 0 |}.

Definition getSize (c : t) : Z := mSize c.
Definition getMaxSize (c : t) : Z := mMaxSize c.

Section WithSizes.
Context {sizes : ObjectSizes}.

(** [operator()], the removal listener, on [mSize]. *)
Definition entry_removed (text : TextLayoutCacheKey.t)
    (desc : sp TextLayoutCacheValue.t) (size : Z) : Z :=
  match desc with
  | Some d =>
      let totalSizeToDelete :=
        u32 (TextLayoutCacheKey.getSize text
             + TextLayoutCacheValue.getSize d) in
      u32 (size - totalSizeToDelete)
  | None => size
  end.

(** [mCache.removeOldest()] *)
Definition removeOldest (c : t) : t :=
  let (store, size) :=
    GenerationCache.removeOldest entry_removed (mCache c) (mSize c) in
  {| mCache := store; mSize := size; mMaxSize := mMaxSize c;
     mDebugEnabled := mDebugEnabled c;
     mCacheHitCount := mCacheHitCount c |}.

(** [while (mSize > mMaxSize) mCache.removeOldest();] *)
Fixpoint removeOldests (fuel : nat) (c : t) : result t :=
  if mMaxSize c <? mSize c then
    match fuel with
    | O => Err OutOfFuel
    | S fuel' => removeOldests fuel' (removeOldest c)
    end
  else Ok c.

Definition setMaxSize (fuel : nat) (maxSize : Z) (c : t) : result t :=
  removeOldests fuel
    {| mCache := mCache c; mSize := mSize c; mMaxSize := maxSize;
       mDebugEnabled := mDebugEnabled c;
       mCacheHitCount := mCacheHitCount c |}.

Definition clear (c : t) : t :=
  let (store, size) :=
    GenerationCache.clear entry_removed (mCache c) (mSize c) in
  {| mCache := store; mSize := size; mMaxSize := mMaxSize c;
     mDebugEnabled := mDebugEnabled c;
     mCacheHitCount := mCacheHitCount c |}.

(** [while (mSize + size > mMaxSize) mCache.removeOldest();] *)
Fixpoint make_room (fuel : nat) (size : Z) (c : t) : result t :=
  if mMaxSize c <? u32 (mSize c + size) then
    match fuel with
    | O => Err OutOfFuel
    | S fuel' => make_room fuel' size (removeOldest c)
    end
  else Ok c.

Section WithEngines.
Context {growth : Vector.Growth} {shaper : Shaper} {allocator : Allocator}
        {bidi_engine : BidiEngine}.

(** [getValue]: the handle returned and the cache afterwards. *)
Definition getValue (fuel : nat) (paint : SkPaint) (text : list Z)
    (count : Z) (dirFlags : Z) (c : t)
  : result (sp TextLayoutCacheValue.t * t) :=
  let key := TextLayoutCacheKey.make paint text (u32 count) dirFlags in
  match GenerationCache.get TextLayoutCacheKey.equiv key (mCache c) with
  | None =>
      value <- TextLayoutCacheValue.computeValues fuel paint text
                 (u32 count) dirFlags TextLayoutCacheValue.new ;;
      let size := u32 (TextLayoutCacheKey.getSize key
                       + TextLayoutCacheValue.getSize value) in
      if size <=? mMaxSize c then
        c1 <- make_room fuel size c ;;
        let key' := TextLayoutCacheKey.internalTextCopy key in
        Ok (Some value,
            {| mCache := GenerationCache.put key' (Some value)
                                             (mCache c1);
               mSize := u32 (mSize c1 + size);
               mMaxSize := mMaxSize c1;
               mDebugEnabled := mDebugEnabled c1;
               mCacheHitCount := mCacheHitCount c1 |})
      else
        (* value.clear() *)
        Ok (sp_NULL, c)
  | Some value =>
      Ok (Some value,
          if mDebugEnabled c then
            {| mCache := mCache c; mSize := mSize c;
               mMaxSize := mMaxSize c;
               mDebugEnabled := mDebugEnabled c;
               mCacheHitCount := mCacheHitCount c + 1 |}
          else c)
  end.
End WithEngines.

(** *** The byte budget *)

(** What [operator()] will take off [mSize] when the entry goes. *)
Definition entry_bytes
    (e : TextLayoutCacheKey.t * sp TextLayoutCacheValue.t) : Z :=
  match snd e with
  | Some d => u32 (TextLayoutCacheKey.getSize (fst e)
                   + TextLayoutCacheValue.getSize d)
  | None => 0
  end.

Definition accounted_bytes
    (store : list (TextLayoutCacheKey.t * sp TextLayoutCacheValue.t)) : Z :=
  fold_right (fun e acc => entry_bytes e + acc) 0 store.

(** The size-budget invariant. *)
Definition within_budget (c : t) : Prop :=
  mSize c = accounted_bytes (mCache c) /\ mSize c <= mMaxSize c.

End WithSizes.

(** *** What the store holds *)

(** An entry as [getValue] puts it: the key owns its text, [text] being
    NULL, and the handle is not null. *)
Definition held_entry
    (e : TextLayoutCacheKey.t * sp TextLayoutCacheValue.t) : Prop :=
  TextLayoutCacheKey.text (fst e) = None /\ snd e <> sp_NULL.

Definition holds_entries (c : t) : Prop := Forall held_entry (mCache c).

End TextLayoutCache.

(** ** Concrete collaborators, for running the model *)

Module Stub.

Definition sizes : ObjectSizes :=
  {| sizeof_TextLayoutCacheKey := 40; sizeof_TextLayoutCacheValue := 80 |}.

(** Half as much again as the size that is needed, and at least 4. *)
Definition growth : Vector.Growth :=
  {| Vector.grow := fun _ new_size => Z.max 4 ((new_size * 3 + 1) / 2) |}.

(** A free store with nothing live, whose new arrays are not zero. *)
Definition store : FreeStore.t :=
  {| FreeStore.live := 0; FreeStore.allocated := 0;
     FreeStore.indeterminate := fun serial slot => 43690 + serial + slot |}.

Definition allocator : Allocator := {| free_store := store |}.

Definition paint : SkPaint :=
  {| getTypeface := 4096; getTextSize := HBFixedToFloat 1024;
     getTextSkewX := jfloat_zero; getTextScaleX := HBFixedToFloat 64;
     getFlags := 0; getHinting := 1 |}.

(** Writing [new] over the front of a buffer, within its extent. *)
Definition write_prefix {A : Type} (new : list A) (p : option (list A))
  : option (list A) :=
  match p with
  | Some b => Some (firstn (length b) (new ++ skipn (length new) b))
  | None => None
  end.

(** What a table-driven shaper produces for the run at a position and of a
    length: glyphs, advances in 26.6 fixed point, and log clusters. *)
Definition shaping_table : Type := Z -> Z -> list Z * list Z * list Z.

(** A shaper that reads its answer from a table.  It needs room for every
    glyph of the answer, reports that number when the room is short, and
    otherwise writes the answer into the buffers of the item. *)
Definition table_shape (table : shaping_table) (it : HB.ShaperItem)
  : bool * HB.ShaperItem :=
  let '(gs, adv, lcs) := table (HB.item_pos it) (HB.item_length it) in
  let needed := Z.of_nat (length gs) in
  if HB.num_glyphs it <? needed then
    (false,
     {| HB.string := HB.string it; HB.stringLength := HB.stringLength it;
        HB.item_pos := HB.item_pos it; HB.item_length := HB.item_length it;
        HB.item_bidiLevel := HB.item_bidiLevel it;
        HB.item_script := HB.item_script it; HB.font := HB.font it;
        HB.num_glyphs := needed;
        HB.glyphs := HB.glyphs it; HB.attributes := HB.attributes it;
        HB.advances := HB.advances it; HB.offsets := HB.offsets it;
        HB.log_clusters := HB.log_clusters it;
        HB.kerning_applied := HB.kerning_applied it |})
  else
    (true,
     {| HB.string := HB.string it; HB.stringLength := HB.stringLength it;
        HB.item_pos := HB.item_pos it; HB.item_length := HB.item_length it;
        HB.item_bidiLevel := HB.item_bidiLevel it;
        HB.item_script := HB.item_script it; HB.font := HB.font it;
        HB.num_glyphs := needed;
        HB.glyphs := write_prefix gs (HB.glyphs it);
        HB.attributes := HB.attributes it;
        HB.advances := write_prefix adv (HB.advances it);
        HB.offsets := HB.offsets it;
        HB.log_clusters := write_prefix lcs (HB.log_clusters it);
        HB.kerning_applied := HB.kerning_applied it |}).

Definition table_shaper (table : shaping_table) : Shaper :=
  {| HB_ShapeItem := table_shape table |}.

(** One glyph for each code unit, ten pixels wide, numbered from 100. *)
Definition one_to_one : shaping_table :=
  fun pos len =>
    let n := Z.to_nat len in
    (map (fun i => 100 + pos + Z.of_nat i) (seq 0 n),
     repeat 640 n,
     map Z.of_nat (seq 0 n)).

(** Three glyphs for each code unit: more than the first guess holds for
    runs of more than four code units. *)
Definition threefold : shaping_table :=
  fun pos len =>
    let n := Z.to_nat (3 * len) in
    (repeat 7 n, repeat 64 n,
     map (fun i => 3 * Z.of_nat i) (seq 0 (Z.to_nat len))).

(** Every run becomes one ligature glyph, twelve pixels wide. *)
Definition ligature : shaping_table :=
  fun pos len => ([500 + pos], [768], repeat 0 (Z.to_nat len)).

(** No glyph at all, whatever the run. *)
Definition silent : shaping_table := fun pos len => ([], [], []).

Definition plain_shaper : Shaper := table_shaper one_to_one.
Definition prolific_shaper : Shaper := table_shaper threefold.
Definition ligature_shaper : Shaper := table_shaper ligature.
Definition silent_shaper : Shaper := table_shaper silent.

(** A bidi engine with fixed answers. *)
Definition fixed_bidi (opens : bool) (setPara_status paraLevel : Z)
    (runs : list (Z * Z * Z)) : BidiEngine :=
  {| ubidi_open := opens;
     ubidi_setPara := fun _ => setPara_status;
     ubidi_getParaLevel := fun _ => paraLevel;
     ubidi_countRuns := fun _ => (Z.of_nat (length runs), U_ZERO_ERROR);
     ubidi_getVisualRun := fun _ i => nth (Z.to_nat i) runs (0, 0, 0) |}.

(** One left-to-right run over whatever the paragraph is. *)
Definition ltr_bidi : BidiEngine :=
  {| ubidi_open := true;
     ubidi_setPara := fun _ => U_ZERO_ERROR;
     ubidi_getParaLevel := fun _ => 0;
     ubidi_countRuns := fun _ => (1, U_ZERO_ERROR);
     ubidi_getVisualRun := fun b _ => (UBIDI_LTR, 0, para_length b) |}.

(** A paragraph of five code units laid out right to left: the visual runs
    are the last three code units, left to right, then the first two, right
    to left. *)
Definition mixed_bidi : BidiEngine :=
  fixed_bidi true U_ZERO_ERROR 1 [(UBIDI_LTR, 2, 3); (UBIDI_RTL, 0, 2)].

(** No bidi object can be opened. *)
Definition no_bidi : BidiEngine := fixed_bidi false U_ZERO_ERROR 0 [].

(** [ubidi_setPara] fails with [U_MEMORY_ALLOCATION_ERROR]. *)
Definition failing_bidi : BidiEngine := fixed_bidi true 7 0 [].

(** [ubidi_setPara] succeeds and [ubidi_countRuns] fails with the same
    error. *)
Definition failing_countRuns_bidi : BidiEngine :=
  {| ubidi_open := true;
     ubidi_setPara := fun _ => U_ZERO_ERROR;
     ubidi_getParaLevel := fun _ => 0;
     ubidi_countRuns := fun _ => (0, 7);
     ubidi_getVisualRun := fun _ _ => (UBIDI_LTR, 0, 0) |}.

(** A cache with a budget of [maxSize] bytes and nothing in it. *)
Definition empty_cache (maxSize : Z) : TextLayoutCache.t :=
  {| TextLayoutCache.mCache := GenerationCache.empty;
     TextLayoutCache.mSize := 0;
     TextLayoutCache.mMaxSize := maxSize;
     TextLayoutCache.mDebugEnabled := true;
     TextLayoutCache.mCacheHitCount := 0 |}.

(** The cache after [getValue], or the cache itself when the call fails. *)
Definition after_getValue (text : list Z) (c : TextLayoutCache.t)
  : TextLayoutCache.t :=
  match TextLayoutCache.getValue (sizes := sizes) (growth := growth)
          (shaper := plain_shaper)
            (allocator := allocator) (bidi_engine := ltr_bidi)
          4 paint text (Z.of_nat (length text)) kBidi_LTR c with
  | Ok (_, c') => c'
  | Err _ => c
  end.

(** What [getValue] returns for a text, and the cache afterwards, with a
    bidi engine that works. *)
Definition lookup (text : list Z) (c : TextLayoutCache.t)
  : sp TextLayoutCacheValue.t * TextLayoutCache.t :=
  match TextLayoutCache.getValue (sizes := sizes) (growth := growth)
          (shaper := plain_shaper) (allocator := allocator)
          (bidi_engine := ltr_bidi)
          4 paint text (Z.of_nat (length text)) kBidi_LTR c with
  | Ok r => r
  | Err _ => (sp_NULL, c)
  end.

(** An item as a shaper leaves it for three code units of which the last two
    share a cluster: two glyphs, of ten and of five pixels. *)
Definition shaped_item : HB.ShaperItem :=
  {| HB.string := [102; 102; 105]; HB.stringLength := 3;
     HB.item_pos := 0; HB.item_length := 3; HB.item_bidiLevel := 0;
     HB.item_script := HB.Script_Common;
     HB.font := {| HB.x_ppem := 1; HB.y_ppem := 1; HB.x_scale := 1;
                   HB.y_scale := 1; HB.userData := None |};
     HB.num_glyphs := 2;
     HB.glyphs := Some [71; 72; 0; 0];
     HB.attributes := Some [0; 0; 0; 0];
     HB.advances := Some [640; 320; 0; 0];
     HB.offsets := Some [(0, 0); (0, 0); (0, 0); (0, 0)];
     HB.log_clusters := Some [0; 1; 1];
     HB.kerning_applied := false |}.

(** An artifact of three glyphs for four code units. *)
Definition artifact : TextLayoutCacheValue.t :=
  {| TextLayoutCacheValue.mAdvances :=
       Vector.mk [HBFixedToFloat 640; HBFixedToFloat 640; jfloat_zero;
                  HBFixedToFloat 640] 4;
     TextLayoutCacheValue.mTotalAdvance := HBFixedToFloat 1920;
     TextLayoutCacheValue.mGlyphs := Vector.mk [100; 101; 103] 4;
     TextLayoutCacheValue.mLogClusters := Vector.mk [0; 1; 3] 4 |}.

(** Two keys of one code unit each: [key_a] has the smaller code unit and the
    larger typeface address. *)
Definition key_a : TextLayoutCacheKey.t :=
  {| TextLayoutCacheKey.text := Some [1]; TextLayoutCacheKey.textCopy := [];
     TextLayoutCacheKey.count := 1; TextLayoutCacheKey.dirFlags := kBidi_LTR;
     TextLayoutCacheKey.typeface := 2;
     TextLayoutCacheKey.textSize := HBFixedToFloat 1024;
     TextLayoutCacheKey.textSkewX := jfloat_zero;
     TextLayoutCacheKey.textScaleX := HBFixedToFloat 64;
     TextLayoutCacheKey.flags := 0; TextLayoutCacheKey.hinting := 1 |}.

Definition key_b : TextLayoutCacheKey.t :=
  {| TextLayoutCacheKey.text := Some [2]; TextLayoutCacheKey.textCopy := [];
     TextLayoutCacheKey.count := 1; TextLayoutCacheKey.dirFlags := kBidi_LTR;
     TextLayoutCacheKey.typeface := 1;
     TextLayoutCacheKey.textSize := HBFixedToFloat 1024;
     TextLayoutCacheKey.textSkewX := jfloat_zero;
     TextLayoutCacheKey.textScaleX := HBFixedToFloat 64;
     TextLayoutCacheKey.flags := 0; TextLayoutCacheKey.hinting := 1 |}.

End Stub.

(** ** Tactics *)

(** One guard of a nest of [if]s: split on it and close the branch that is
    already decided. *)
Ltac lex_step :=
  match goal with
  | |- context [if ?c then _ else _] =>
      destruct c; simpl; try reflexivity
  end.

(** * Facts about the key order *)

Module KeyFacts.
Import TextLayoutCacheKey.

Lemma SFcompare_antisym (x y : spec_float) :
  SFcompare y x = option_map CompOpp (SFcompare x y).
Proof.
  destruct x as [sx| sx | |sx mx ex], y as [sy|sy| |sy my ey]; simpl;
    try reflexivity;
    try (destruct sx; reflexivity); try (destruct sy; reflexivity);
    try (destruct sx, sy; reflexivity).
  pose proof (Pos.compare_cont_antisym mx my Eq) as Hm. simpl in Hm.
  destruct sx, sy; simpl; try reflexivity;
    rewrite (Z.compare_antisym ey ex);
    destruct (ey ?= ex)%Z; simpl; try reflexivity;
    change PosDef.Pos.compare_cont with Pos.compare_cont;
    rewrite <- Hm; try rewrite CompOpp_involutive; reflexivity.
Qed.

Lemma jfloat_eq_sym (x y : jfloat) : jfloat_eq x y = jfloat_eq y x.
Proof.
  unfold jfloat_eq, SFeqb. rewrite (SFcompare_antisym x y).
  destruct (SFcompare x y) as [[| |]|]; reflexivity.
Qed.

Lemma jfloat_eq_not_lt (x y : jfloat) :
  jfloat_eq x y = true -> jfloat_lt x y = false /\ jfloat_lt y x = false.
Proof.
  unfold jfloat_eq, jfloat_lt, SFeqb, SFltb. rewrite (SFcompare_antisym x y).
  destruct (SFcompare x y) as [[| |]|]; simpl; intros; try discriminate; auto.
Qed.

Lemma jfloat_trichotomy (x y : jfloat) :
  jfloat_is_nan x = false -> jfloat_is_nan y = false ->
  jfloat_lt x y = false -> jfloat_lt y x = false -> jfloat_eq x y = true.
Proof.
  unfold jfloat_eq, jfloat_lt, SFeqb, SFltb. rewrite (SFcompare_antisym x y).
  intros Hx Hy.
  destruct (SFcompare x y) as [[| |]|] eqn:E; simpl; intros; try discriminate; auto.
  destruct x, y; simpl in *; try discriminate;
    repeat match goal with s : bool |- _ => destruct s end; discriminate.
Qed.

Lemma jfloat_lt_irrefl (x : jfloat) : jfloat_lt x x = false.
Proof.
  unfold jfloat_lt, SFltb.
  generalize (SFcompare_antisym x x).
  destruct (SFcompare x x) as [[| |]|]; simpl; intros; try discriminate; auto.
Qed.

Lemma memcmp_antisym (n : nat) : forall s1 s2, memcmp s2 s1 n = - memcmp s1 s2 n.
Proof.
  induction n as [|n IH]; intros s1 s2; simpl; [reflexivity|].
  destruct s1 as [|b1 r1], s2 as [|b2 r2]; try reflexivity.
  destruct (b1 <? b2) eqn:E1, (b2 <? b1) eqn:E2; try reflexivity.
  - apply Z.ltb_lt in E1, E2. lia.
  - apply IH.
Qed.

Lemma memcmp_refl (n : nat) : forall s, memcmp s s n = 0.
Proof.
  induction n as [|n IH]; intros [|b r]; simpl; try reflexivity.
  rewrite Z.ltb_irrefl. apply IH.
Qed.


Lemma memcmp_text_antisym (a b : t) :
  count a = count b -> memcmp_text b a = - memcmp_text a b.
Proof.
  intros Hc. unfold memcmp_text. rewrite Hc. apply memcmp_antisym.
Qed.

Lemma field_lt_irrefl (f : field) (a : t) : field_lt f a a = false.
Proof.
  destruct f; simpl;
    try apply Z.ltb_irrefl; try apply jfloat_lt_irrefl.
  unfold memcmp_text. rewrite memcmp_refl. reflexivity.
Qed.

Lemma field_eq_not_lt (f : field) (a b : t) :
  count a = count b -> field_eq f a b = true ->
  field_lt f a b = false /\ field_lt f b a = false.
Proof.
  intros Hc.
  destruct f; simpl; intros He;
    try (apply jfloat_eq_not_lt; assumption);
    try (apply Z.eqb_eq in He; rewrite He; split; apply Z.ltb_irrefl).
  apply Z.eqb_eq in He. rewrite (memcmp_text_antisym a b Hc), He.
  split; reflexivity.
Qed.

Lemma field_trichotomy (f : field) (a b : t) :
  count a = count b -> no_nan a -> no_nan b ->
  field_lt f a b = false -> field_lt f b a = false -> field_eq f a b = true.
Proof.
  intros Hc (Ha1 & Ha2 & Ha3) (Hb1 & Hb2 & Hb3).
  destruct f; simpl; intros H1 H2;
    try (apply jfloat_trichotomy; assumption);
    try (apply Z.ltb_ge in H1, H2; apply Z.eqb_eq; lia).
  rewrite (memcmp_text_antisym a b Hc) in H2.
  apply Z.ltb_ge in H1, H2. apply Z.eqb_eq. lia.
Qed.

Lemma lex_lt_irrefl (fs : list field) (a : t) : lex_lt fs a a = false.
Proof.
  induction fs as [|f fs IH]; simpl; [reflexivity|].
  rewrite field_lt_irrefl, IH, andb_false_r. reflexivity.
Qed.

Lemma lex_lt_all_eq (fs : list field) (a b : t) :
  count a = count b ->
  forallb (fun f => field_eq f a b) fs = true ->
  lex_lt fs a b = false /\ lex_lt fs b a = false.
Proof.
  intros Hc. induction fs as [|f fs IH]; simpl; [auto|].
  intros H. apply andb_true_iff in H as [Hf Hr].
  destruct (field_eq_not_lt f a b Hc Hf) as [L1 L2].
  destruct (IH Hr) as [R1 R2].
  rewrite L1, L2, R1, R2, !andb_false_r. auto.
Qed.

Lemma lex_lt_neither (fs : list field) (a b : t) :
  count a = count b -> no_nan a -> no_nan b ->
  lex_lt fs a b = false -> lex_lt fs b a = false ->
  forallb (fun f => field_eq f a b) fs = true.
Proof.
  intros Hc Ha Hb. induction fs as [|f fs IH]; simpl; [auto|].
  intros H1 H2.
  apply orb_false_iff in H1 as [L1 R1], H2 as [L2 R2].
  pose proof (field_trichotomy f a b Hc Ha Hb L1 L2) as He.
  assert (He' : field_eq f b a = true).
  { destruct (field_eq_not_lt f a b Hc He) as [_ _].
    destruct f; simpl in *;
      try (rewrite jfloat_eq_sym; assumption);
      try (rewrite Z.eqb_sym; assumption).
    apply Z.eqb_eq in He. rewrite (memcmp_text_antisym a b Hc), He.
    reflexivity. }
  rewrite He in R1. rewrite He' in R2. simpl in R1, R2.
  rewrite He. simpl. apply IH; assumption.
Qed.

Lemma lt_unfold (a b : t) : lt a b = lex_lt code_field_order a b.
Proof.
  unfold lt, LTE_INT, LTE_FLOAT, code_field_order, lex_lt, field_lt, field_eq.
  repeat lex_step.
  rewrite andb_false_r, orb_false_r. reflexivity.
Qed.

(** C5, as amended.  [operator<] is the lexicographic product over the length,
    the typeface, the text size, the skew, the scale, the flags, the hinting
    and the direction mode, in this order, with the code units compared last
    by [memcmp]; it is irreflexive; keys equal in every field are equivalent
    for it, and equivalent keys without NaN are equal in every field. *)
Theorem lt_is_lexicographic_length_first (a b : t) :
  lt a b = lex_lt code_field_order a b /\
  lt a a = false /\
  (fields_equal a b = true -> equiv a b = true) /\
  (no_nan a -> no_nan b -> equiv a b = true -> fields_equal a b = true).
Proof.
  split; [apply lt_unfold|].
  split; [rewrite lt_unfold; apply lex_lt_irrefl|].
  split.
  - intros He. unfold equiv. rewrite !lt_unfold.
    assert (Hc : count a = count b).
    { unfold fields_equal in He. simpl in He.
      apply andb_true_iff in He as [He _]. apply Z.eqb_eq. exact He. }
    destruct (lex_lt_all_eq code_field_order a b Hc He) as [H1 H2].
    rewrite H1, H2. reflexivity.
  - intros Ha Hb He. unfold equiv in He. rewrite !lt_unfold in He.
    apply andb_true_iff in He as [H1 H2].
    apply negb_true_iff in H1, H2.
    assert (Hc : count a = count b).
    { simpl in H1, H2.
      apply orb_false_iff in H1 as [H1 _], H2 as [H2 _].
      apply Z.ltb_ge in H1, H2. lia. }
    apply lex_lt_neither; assumption.
Qed.

(** C5 as stated fails: with the code units compared first, [Stub.key_a] is
    before [Stub.key_b]; [operator<] looks at the typeface before the code
    units and says it is not. *)
Lemma lt_is_not_code_units_first :
  lex_lt spec_field_order Stub.key_a Stub.key_b = true /\
  lt Stub.key_a Stub.key_b = false.
Proof. split; vm_compute; reflexivity. Qed.

(** A key that borrows its text and the same key after [internalTextCopy]
    are equivalent. *)
Lemma lt_is_lexicographic_length_first_witness :
  fields_equal Stub.key_a (internalTextCopy Stub.key_a) = true /\
  equiv Stub.key_a (internalTextCopy Stub.key_a) = true.
Proof.
  assert (H : fields_equal Stub.key_a (internalTextCopy Stub.key_a) = true)
    by (vm_compute; reflexivity).
  split; [exact H|].
  exact (proj1 (proj2 (proj2
           (lt_is_lexicographic_length_first
              Stub.key_a (internalTextCopy Stub.key_a)))) H).
Defined.

End KeyFacts.

(** * Facts about buffers *)

Module BufferFacts.

Lemma load_in_range {A : Type} (buf : list A) (i : Z) :
  0 <= i < Z.of_nat (length buf) -> exists a, load buf i = Ok a.
Proof.
  intros Hi. unfold load.
  destruct (i <? 0) eqn:E; [apply Z.ltb_lt in E; lia|].
  destruct (nth_error buf (Z.to_nat i)) as [a|] eqn:N; [eauto|].
  apply nth_error_None in N. lia.
Qed.

Lemma load_Ok_range {A : Type} (buf : list A) (i : Z) (a : A) :
  load buf i = Ok a -> 0 <= i < Z.of_nat (length buf).
Proof.
  unfold load. destruct (i <? 0) eqn:E; [discriminate|].
  apply Z.ltb_ge in E.
  destruct (nth_error buf (Z.to_nat i)) eqn:N; [|discriminate].
  intros _. assert (Z.to_nat i < length buf)%nat by (apply nth_error_Some; congruence).
  lia.
Qed.

Lemma load_nth {A : Type} (buf : list A) (i : nat) (a : A) :
  nth_error buf i = Some a -> load buf (Z.of_nat i) = Ok a.
Proof.
  intros N. unfold load.
  destruct (Z.of_nat i <? 0) eqn:E; [apply Z.ltb_lt in E; lia|].
  rewrite Nat2Z.id, N. reflexivity.
Qed.

Lemma load_to_nth {A : Type} (buf : list A) (i : Z) (a : A) :
  load buf i = Ok a -> nth_error buf (Z.to_nat i) = Some a.
Proof.
  unfold load. destruct (i <? 0); [discriminate|].
  destruct (nth_error buf (Z.to_nat i)); [|discriminate].
  intros E. inversion E. reflexivity.
Qed.

Lemma skipn_nth_error {A : Type} (l : list A) (i : nat) (a : A) :
  nth_error l i = Some a -> skipn i l = a :: skipn (S i) l.
Proof.
  revert l. induction i as [|i IH]; intros [|x l] N; simpl in *;
    try discriminate.
  - inversion N. reflexivity.
  - apply IH. exact N.
Qed.

Lemma u32_small (z : Z) : 0 <= z < 2 ^ 32 -> u32 z = z.
Proof. intros. unfold u32. apply Z.mod_small. assumption. Qed.

Lemma u32_range (z : Z) : 0 <= u32 z < 2 ^ 32.
Proof. unfold u32. apply Z.mod_pos_bound. lia. Qed.

Lemma s32_small (z : Z) : 0 <= z < 2 ^ 31 -> s32 z = z.
Proof.
  intros. unfold s32. rewrite u32_small by lia.
  destruct (z <? 2 ^ 31) eqn:E; [reflexivity|]. apply Z.ltb_ge in E. lia.
Qed.

End BufferFacts.

(** * Facts about the accessors *)

Module AccessorFacts.
Import TextLayoutCacheValue BufferFacts.

Lemma index_loop_settles (logClusters : list Z) (start count : Z) :
  start <= u32 (start + count) ->
  forall (n : nat) (i s e : Z),
    0 <= i -> i + Z.of_nat n <= Z.of_nat (length logClusters) ->
    exists s' e',
      index_loop logClusters start count i n s e = Ok (s', e') /\
      settles logClusters i (i + Z.of_nat n) start s s' /\
      settles logClusters i (i + Z.of_nat n) (u32 (start + count)) e e'.
Proof.
  intros Hb. induction n as [|n IH]; intros i s e Hi Hn.
  - exists s, e. split; [reflexivity|].
    split; right; (split; [reflexivity|]); intros j Hj; lia.
  - destruct (load_in_range logClusters i) as [c Hc]; [lia|].
    assert (Hhi : i + Z.of_nat (S n) = (i + 1) + Z.of_nat n) by lia.
    cbn [index_loop]. rewrite Hc. cbn [bind].
    assert (step : forall bound before d r,
               (d = if c <=? bound then i else before) ->
               settles logClusters (i + 1) (i + 1 + Z.of_nat n) bound d r ->
               settles logClusters i (i + Z.of_nat (S n)) bound before r).
    { intros bound before d r Hd [(Hr & Hle & Hgt) | (Hr & Hno)].
      - left. rewrite Hhi. split; [lia|]. split; assumption.
      - destruct (c <=? bound) eqn:E.
        + left. subst. apply Z.leb_le in E. split; [lia|]. split.
          * exists c. auto.
          * intros j Hj. apply Hno. lia.
        + right. subst. split; [reflexivity|]. apply Z.leb_gt in E.
          intros j Hj. destruct (Z.eq_dec j i) as [->|Hne].
          * exists c. auto.
          * apply Hno. lia. }
    destruct (c <=? start) eqn:E1.
    + destruct (IH (i + 1) i i) as (s' & e' & Hr & Hs & He); [lia|lia|].
      exists s', e'. split; [exact Hr|]. split.
      * apply (step start s i); [rewrite E1; reflexivity | exact Hs].
      * apply (step _ e i); [|exact He].
        apply Z.leb_le in E1.
        destruct (c <=? u32 (start + count)) eqn:E2; [reflexivity|].
        apply Z.leb_gt in E2. lia.
    + destruct (c <=? u32 (start + count)) eqn:E2.
      * destruct (IH (i + 1) s i) as (s' & e' & Hr & Hs & He); [lia|lia|].
        exists s', e'. split; [exact Hr|]. split.
        -- apply (step start s s); [rewrite E1; reflexivity | exact Hs].
        -- apply (step _ e i); [rewrite E2; reflexivity | exact He].
      * destruct (IH (i + 1) s e) as (s' & e' & Hr & Hs & He); [lia|lia|].
        exists s', e'. split; [exact Hr|]. split.
        -- apply (step start s s); [rewrite E1; reflexivity | exact Hs].
        -- apply (step _ e e); [rewrite E2; reflexivity | exact He].
Qed.

(** The two indexes of a well-formed artifact, and their order. *)
Lemma glyph_indexes_settle (v : t) (start count : Z) :
  (length (Vector.items (mGlyphs v))
   <= length (Vector.items (mLogClusters v)))%nat ->
  0 <= start -> 0 <= count -> start + count < 2 ^ 32 ->
  exists s e,
    glyph_indexes v start count = Ok (s, e) /\
    settles (Vector.items (mLogClusters v)) 0
            (Vector.size (mGlyphs v)) start 0 s /\
    settles (Vector.items (mLogClusters v)) 0
            (Vector.size (mGlyphs v)) (start + count) 0 e /\
    0 <= s <= e /\ e + 1 <= Z.max 1 (Vector.size (mGlyphs v)).
Proof.
  intros Hlen Hs Hc Hsum.
  assert (Hu : u32 (start + count) = start + count) by (apply u32_small; lia).
  destruct (index_loop_settles (Vector.items (mLogClusters v)) start count
              ltac:(lia) (length (Vector.items (mGlyphs v))) 0 0 0)
    as (s & e & Hr & Hst & Hen); [lia|lia|].
  rewrite Hu in Hen. simpl in Hst, Hen.
  exists s, e. unfold glyph_indexes, Vector.size.
  split; [exact Hr|]. split; [exact Hst|]. split; [exact Hen|].
  destruct Hst as [(Hs1 & (cs & Hcs & Hcs') & Hs3) | (-> & Hsno)];
    destruct Hen as [(He1 & (ce & Hce & Hce') & He3) | (-> & Heno)]; try lia.
  - split; [|lia]. split; [lia|].
    destruct (Z_lt_le_dec e s) as [Hlt|]; [|lia].
    destruct (He3 s ltac:(lia)) as (c' & Hc1 & Hc2).
    rewrite Hcs in Hc1. inversion Hc1. subst. lia.
  - destruct (Heno s ltac:(lia)) as (c' & Hc1 & Hc2).
    rewrite Hcs in Hc1. inversion Hc1. subst. lia.
Qed.

(** C8.  For a well-formed artifact and a sub-range that is representable,
    [getGlyphsIndexAndCount] answers [(0, 0)] when [count] is 0; otherwise its
    start index is the largest glyph index whose log cluster is at most
    [start], its end index the largest glyph index whose log cluster is at
    most [start + count], each being 0 when there is no such glyph, and the
    glyph count is [end - start + 1]. *)
Theorem getGlyphsIndexAndCount_range (v : t) (start count : Z) :
  (length (Vector.items (mGlyphs v))
   <= length (Vector.items (mLogClusters v)))%nat ->
  Vector.size (mGlyphs v) < 2 ^ 32 ->
  0 <= start -> 0 <= count -> start + count < 2 ^ 32 ->
  (count = 0 -> getGlyphsIndexAndCount v start count = Ok (0, 0)) /\
  (count <> 0 ->
   exists outStartIndex endIndex,
     getGlyphsIndexAndCount v start count
       = Ok (outStartIndex, endIndex - outStartIndex + 1) /\
     (largest_index_le (Vector.items (mLogClusters v)) 0
                       (Vector.size (mGlyphs v)) start outStartIndex \/
      (outStartIndex = 0 /\
       no_index_le (Vector.items (mLogClusters v)) 0
                   (Vector.size (mGlyphs v)) start)) /\
     (largest_index_le (Vector.items (mLogClusters v)) 0
                       (Vector.size (mGlyphs v)) (start + count) endIndex \/
      (endIndex = 0 /\
       no_index_le (Vector.items (mLogClusters v)) 0
                   (Vector.size (mGlyphs v)) (start + count)))).
Proof.
  intros Hlen Hn Hs Hc Hsum. split.
  - intros ->. reflexivity.
  - intros Hne.
    destruct (glyph_indexes_settle v start count Hlen Hs Hc Hsum)
      as (s & e & Hr & Hst & Hen & Hord & Hmax).
    exists s, e. unfold getGlyphsIndexAndCount.
    destruct (count =? 0) eqn:E; [apply Z.eqb_eq in E; contradiction|].
    rewrite Hr. cbn [bind]. rewrite u32_small by lia.
    split; [reflexivity|]. split; assumption.
Qed.

(** C10.  For a request with [count > 0] on a well-formed artifact the glyph
    count reported is at least 1; when no glyph has a log cluster that is at
    most [start + count], and so when there is no glyph at all, the answer is
    the range [(0, 1)]. *)
Theorem getGlyphsIndexAndCount_at_least_one (v : t) (start count : Z) :
  (length (Vector.items (mGlyphs v))
   <= length (Vector.items (mLogClusters v)))%nat ->
  Vector.size (mGlyphs v) < 2 ^ 32 ->
  0 <= start -> 0 < count -> start + count < 2 ^ 32 ->
  exists outStartIndex outGlyphsCount,
    getGlyphsIndexAndCount v start count = Ok (outStartIndex, outGlyphsCount) /\
    1 <= outGlyphsCount /\
    (no_index_le (Vector.items (mLogClusters v)) 0
                 (Vector.size (mGlyphs v)) (start + count) ->
     (outStartIndex, outGlyphsCount) = (0, 1)) /\
    (Vector.items (mGlyphs v) = [] ->
     (outStartIndex, outGlyphsCount) = (0, 1)).
Proof.
  intros Hlen Hn Hs Hc Hsum.
  destruct (glyph_indexes_settle v start count Hlen Hs ltac:(lia) Hsum)
    as (s & e & Hr & Hst & Hen & Hord & Hmax).
  exists s, (e - s + 1). unfold getGlyphsIndexAndCount.
  destruct (count =? 0) eqn:E; [apply Z.eqb_eq in E; lia|].
  rewrite Hr. cbn [bind]. rewrite u32_small by lia.
  split; [reflexivity|]. split; [lia|].
  assert (Hnone : no_index_le (Vector.items (mLogClusters v)) 0
                    (Vector.size (mGlyphs v)) (start + count) ->
                  (s, e - s + 1) = (0, 1)).
  { intros Hno.
    assert (He0 : e = 0).
    { destruct Hen as [(He1 & (ce & Hce & Hce') & _) | (-> & _)]; [|reflexivity].
      destruct (Hno e He1) as (c' & Hc1 & Hc2).
      rewrite Hce in Hc1. inversion Hc1. subst. lia. }
    assert (s = 0) by lia. subst. reflexivity. }
  split; [exact Hnone|].
  intros Hnil. apply Hnone. intros j Hj.
  unfold Vector.size in Hj. rewrite Hnil in Hj. simpl in Hj. lia.
Qed.

Lemma totalAdvance_loop_sum (advs : list jfloat) :
  forall (n i : nat) (acc : jfloat),
    (i + n <= length advs)%nat ->
    totalAdvance_loop advs (Z.of_nat i) n acc
    = Ok (fold_left jfloat_add (firstn n (skipn i advs)) acc).
Proof.
  induction n as [|n IH]; intros i acc Hn; [reflexivity|].
  destruct (nth_error advs i) as [a|] eqn:Na;
    [|apply nth_error_None in Na; lia].
  cbn [totalAdvance_loop]. rewrite (load_nth advs i a Na). cbn [bind].
  replace (Z.of_nat i + 1) with (Z.of_nat (S i)) by lia.
  rewrite IH by lia. rewrite (skipn_nth_error advs i a Na). reflexivity.
Qed.

(** [getTotalAdvance] over the whole artifact is the in-order sum. *)
Lemma getTotalAdvance_in_order (v : t) :
  Vector.size (mAdvances v) < 2 ^ 32 ->
  getTotalAdvance v 0 (Vector.size (mAdvances v))
  = Ok (in_order_sum (Vector.items (mAdvances v))).
Proof.
  intros Hn. unfold getTotalAdvance, in_order_sum, Vector.size in *.
  rewrite u32_small by lia.
  replace (Z.to_nat (0 + Z.of_nat (length (Vector.items (mAdvances v))) - 0))
    with (length (Vector.items (mAdvances v))) by lia.
  change 0 with (Z.of_nat 0) at 1.
  rewrite totalAdvance_loop_sum by lia.
  simpl skipn. rewrite firstn_all. reflexivity.
Qed.

End AccessorFacts.

(** * Facts about the projection of a shaped run *)

Module ProjectionFacts.
Import TextLayoutCacheValue BufferFacts.

Lemma items_add {growth : Vector.Growth} {A : Type} (x : A)
    (v : Vector.t A) :
  Vector.items (Vector.add x v) = Vector.items v ++ [x].
Proof. reflexivity. Qed.

Lemma items_insertAt_end {growth : Vector.Growth} {A : Type} (x : A)
    (n : Z) (v : Vector.t A) :
  Vector.items (Vector.insertAt x (Vector.size v) n v)
  = Vector.items v ++ repeat x (Z.to_nat n).
Proof.
  unfold Vector.insertAt, Vector.size. cbn [Vector.reserve Vector.items].
  rewrite Nat2Z.id, firstn_all, skipn_all, app_nil_r. reflexivity.
Qed.

Section OneItem.
Context {growth : Vector.Growth}.
Variable it : HB.ShaperItem.
Variables lc adv : list Z.
Hypothesis Hlc : HB.log_clusters it = Some lc.
Hypothesis Hadv : HB.advances it = Some adv.

Lemma advances_loop_positions :
  forall (n i : nat) (tot : jfloat) (out : Vector.t jfloat),
    (1 <= i)%nat -> (i + n <= length lc)%nat ->
    (forall j c, (i <= j < i + n)%nat -> nth_error lc j = Some c ->
                 0 <= c < Z.of_nat (length adv)) ->
    exists tot' out' seg,
      advances_loop it (Z.of_nat i) n tot out = Ok (tot', out') /\
      Vector.items out' = Vector.items out ++ seg /\
      length seg = n /\
      (forall k p c, (k < n)%nat ->
         nth_error lc (i + k - 1) = Some p -> nth_error lc (i + k) = Some c ->
         (c = p -> nth_error seg k = Some jfloat_zero) /\
         (c <> p -> forall a, load adv c = Ok a ->
                    nth_error seg k = Some (HBFixedToFloat a))) /\
      (forall p, nth_error lc (i - 1) = Some p ->
                 tot' = add_new_clusters p (firstn n (skipn i lc)) seg tot).
Proof.
  induction n as [|n IH]; intros i tot out Hi Hn Hrange.
  - exists tot, out, []. simpl. rewrite app_nil_r.
    repeat split; try reflexivity; intros; lia.
  - destruct (nth_error lc (i - 1)) as [p|] eqn:Np;
      [|apply nth_error_None in Np; lia].
    destruct (nth_error lc i) as [c|] eqn:Nc;
      [|apply nth_error_None in Nc; lia].
    assert (Lp : load lc (Z.of_nat i - 1) = Ok p).
    { replace (Z.of_nat i - 1) with (Z.of_nat (i - 1)) by lia.
      apply load_nth. exact Np. }
    assert (Lc : load lc (Z.of_nat i) = Ok c) by (apply load_nth; exact Nc).
    assert (Hnext : Z.of_nat i + 1 = Z.of_nat (S i)) by lia.
    assert (Hpc : nth_error lc (S i - 1) = Some c).
    { replace (S i - 1)%nat with i by lia. exact Nc. }
    cbn [advances_loop]. unfold HB.deref. rewrite Hlc, Hadv, Lp, Lc.
    cbn [bind]. rewrite Hnext. rewrite (skipn_nth_error lc i c Nc).
    cbn [firstn].
    destruct (c =? p) eqn:E.
    + apply Z.eqb_eq in E.
      destruct (IH (S i) tot (Vector.add jfloat_zero out))
        as (tot' & out' & seg & Hr & Hit & Hlen & Hpos & Htot);
        [lia|lia|intros j c' Hj; apply Hrange; lia|].
      exists tot', out', (jfloat_zero :: seg).
      split; [exact Hr|]. split.
      { rewrite Hit, items_add, <- app_assoc. reflexivity. }
      split; [simpl; lia|]. split.
      * intros [|k] p' c' Hk Hp' Hc'.
        -- rewrite Nat.add_0_r in Hp', Hc'.
           rewrite Np in Hp'. rewrite Nc in Hc'.
           inversion Hp'; inversion Hc'; subst.
           split; [reflexivity|]. intros Hne. contradiction.
        -- simpl. apply (Hpos k p' c'); [lia| |].
           ++ replace (S i + k - 1)%nat with (i + S k - 1)%nat by lia. exact Hp'.
           ++ replace (S i + k)%nat with (i + S k)%nat by lia. exact Hc'.
      * intros p' Hp'. assert (p' = p) by congruence. subst p'.
        cbn [add_new_clusters].
        replace (c =? p) with true by (symmetry; apply Z.eqb_eq; exact E).
        apply Htot. exact Hpc.
    + apply Z.eqb_neq in E.
      destruct (load_in_range adv c) as [a La]; [apply (Hrange i); [lia|exact Nc]|].
      rewrite La. cbn [bind].
      destruct (IH (S i) (jfloat_add tot (HBFixedToFloat a))
                   (Vector.add (HBFixedToFloat a) out))
        as (tot' & out' & seg & Hr & Hit & Hlen & Hpos & Htot);
        [lia|lia|intros j c' Hj; apply Hrange; lia|].
      exists tot', out', (HBFixedToFloat a :: seg).
      split; [exact Hr|]. split.
      { rewrite Hit, items_add, <- app_assoc. reflexivity. }
      split; [simpl; lia|]. split.
      * intros [|k] p' c' Hk Hp' Hc'.
        -- rewrite Nat.add_0_r in Hp', Hc'.
           rewrite Np in Hp'. rewrite Nc in Hc'.
           inversion Hp'; inversion Hc'; subst.
           split; [intros; contradiction|].
           intros _ a' La'. rewrite La in La'. inversion La'. reflexivity.
        -- simpl. apply (Hpos k p' c'); [lia| |].
           ++ replace (S i + k - 1)%nat with (i + S k - 1)%nat by lia. exact Hp'.
           ++ replace (S i + k)%nat with (i + S k)%nat by lia. exact Hc'.
      * intros p' Hp'. assert (p' = p) by congruence. subst p'.
        cbn [add_new_clusters].
        replace (c =? p) with false by (symmetry; apply Z.eqb_neq; exact E).
        apply Htot. exact Hpc.
Qed.


(** C6.  When the reads of the projection stay inside the buffers the shaper
    filled, the advances of a run are emitted position by position: position
    0 gets the conversion of [advances[log_clusters[0]]]; a position [i] in
    [1, count) gets exactly 0 when [log_clusters[i]] equals
    [log_clusters[i-1]], and otherwise the conversion of
    [advances[log_clusters[i]]]; the run total is the first advance plus, in
    order, the advances of the positions of the second kind. *)
Theorem project_advances_by_cluster (count : Z) (advs : Vector.t jfloat) :
  Z.max 1 count <= Z.of_nat (length lc) ->
  (forall i c, 0 <= i < Z.max 1 count -> load lc i = Ok c ->
               0 <= c < Z.of_nat (length adv)) ->
  exists totalAdvance advs' emitted,
    project_advances it count advs = Ok (totalAdvance, advs') /\
    Vector.items advs' = Vector.items advs ++ emitted /\
    Z.of_nat (length emitted) = Z.max 1 count /\
    (forall c0 a0, load lc 0 = Ok c0 -> load adv c0 = Ok a0 ->
                   load emitted 0 = Ok (HBFixedToFloat a0)) /\
    (forall i p c, 1 <= i < count ->
       load lc (i - 1) = Ok p -> load lc i = Ok c ->
       (c = p -> load emitted i = Ok jfloat_zero) /\
       (c <> p -> forall a, load adv c = Ok a ->
                  load emitted i = Ok (HBFixedToFloat a))) /\
    (forall c0, load lc 0 = Ok c0 ->
       totalAdvance
       = add_new_clusters c0 (firstn (Z.to_nat (count - 1)) (skipn 1 lc))
                          (skipn 1 emitted) (hd jfloat_zero emitted)) /\
    (forall isRTL gls lcs r,
       shaped_nothing it = false ->
       project_run it count isRTL advs gls lcs = Ok r ->
       outAdvances r = advs' /\ outTotalAdvance r = totalAdvance).
Proof.
  intros Hlen Hrange.
  destruct (load_in_range lc 0) as [c0 L0]; [lia|].
  destruct (load_in_range adv c0) as [a0 La0]; [apply (Hrange 0); [lia|exact L0]|].
  destruct (advances_loop_positions (Z.to_nat (count - 1)) 1
              (HBFixedToFloat a0) (Vector.add (HBFixedToFloat a0) advs))
    as (tot' & out' & seg & Hr & Hit & Hseg & Hpos & Htot); [lia|lia| |].
  { intros j c Hj Nj. apply (Hrange (Z.of_nat j)); [lia|].
    apply load_nth. exact Nj. }
  assert (Hrun : project_advances it count advs = Ok (tot', out')).
  { unfold project_advances, HB.deref. rewrite Hlc, Hadv, L0. cbn [bind].
    rewrite La0. cbn [bind]. exact Hr. }
  exists tot', out', (HBFixedToFloat a0 :: seg).
  split; [exact Hrun|]. split.
  { rewrite Hit, items_add, <- app_assoc. reflexivity. }
  split; [simpl length; lia|]. split.
  { intros c0' a0' L0' La0'. rewrite L0 in L0'. inversion L0'. subst c0'.
    rewrite La0 in La0'. inversion La0'. reflexivity. }
  split.
  { intros i p c Hi Lp Lc.
    destruct (Hpos (Z.to_nat (i - 1)) p c) as [Hsame Hnew]; [lia| | |].
    - replace (1 + Z.to_nat (i - 1) - 1)%nat with (Z.to_nat (i - 1)) by lia.
      apply load_to_nth. exact Lp.
    - replace (1 + Z.to_nat (i - 1))%nat with (Z.to_nat i) by lia.
      apply load_to_nth. exact Lc.
    - assert (Hshift : forall x, nth_error seg (Z.to_nat (i - 1)) = Some x ->
                load (HBFixedToFloat a0 :: seg) i = Ok x).
      { intros x Nx. replace i with (Z.of_nat (S (Z.to_nat (i - 1)))) by lia.
        apply load_nth. exact Nx. }
      split.
      + intros E. apply Hshift, Hsame, E.
      + intros E a La. apply Hshift. apply (Hnew E a La). }
  split.
  { intros c0' L0'. rewrite L0 in L0'. inversion L0'. subst c0'.
    apply Htot. apply load_to_nth in L0. exact L0. }
  intros isRTL gls lcs r Hnot Hproj.
  unfold project_run in Hproj. rewrite Hnot, Hrun in Hproj. cbn [bind] in Hproj.
  destruct (project_glyphs it isRTL gls); [|discriminate].
  destruct (project_logClusters it lcs); [|discriminate].
  cbn [bind] in Hproj. inversion Hproj. split; reflexivity.
Qed.


Lemma glyphs_loop_length (isRTL : bool) (countGlyphs : Z) :
  forall (n : nat) (i : Z) (out out' : Vector.t Z),
    glyphs_loop it isRTL countGlyphs i n out = Ok out' ->
    exists seg, Vector.items out' = Vector.items out ++ seg /\ length seg = n.
Proof.
  induction n as [|n IH]; intros i out out' Hr.
  - inversion Hr. exists []. rewrite app_nil_r. split; reflexivity.
  - cbn [glyphs_loop] in Hr.
    destruct (HB.deref (HB.glyphs it)
                (if negb isRTL then i else countGlyphs - 1 - i)) as [g|];
      [|discriminate].
    cbn [bind] in Hr. destruct (IH _ _ _ Hr) as (seg & Hit & Hlen).
    exists (u16 g :: seg). split; [|simpl; lia].
    rewrite Hit, items_add, <- app_assoc. reflexivity.
Qed.


End OneItem.
End ProjectionFacts.

(** * Facts about the shaper adapter *)

Module ShaperFacts.
Import TextLayoutCacheValue BufferFacts.

(** A [memset] over the whole of a buffer leaves zeros, whatever it held. *)
Lemma zero_fill_whole {A : Type} (zero : A) (n : Z) (b : list A) :
  0 <= n -> length b = Z.to_nat n ->
  zero_fill zero n (Some b) = Ok (Some (repeat zero (Z.to_nat n))).
Proof.
  intros Hn Hb. unfold zero_fill.
  replace ((0 <=? n) && (n <=? Z.of_nat (length b))) with true.
  - rewrite skipn_all2 by lia. rewrite app_nil_r. reflexivity.
  - symmetry. apply andb_true_iff. split; apply Z.leb_le; lia.
Qed.

Lemma new_array_length (h : FreeStore.t) (n : nat) :
  length (snd (FreeStore.new_array h n)) = n /\
  FreeStore.live (fst (FreeStore.new_array h n)) = FreeStore.live h + 1.
Proof.
  unfold FreeStore.new_array. cbn [fst snd FreeStore.live].
  rewrite length_map, length_seq. split; reflexivity.
Qed.

Lemma new_points_length (h : FreeStore.t) (n : nat) :
  length (snd (FreeStore.new_points h n)) = n /\
  FreeStore.live (fst (FreeStore.new_points h n)) = FreeStore.live h + 1.
Proof.
  unfold FreeStore.new_points. cbn [fst snd FreeStore.live].
  rewrite length_map, length_seq. split; reflexivity.
Qed.

(** Four new arrays of [n] slots, of whatever content. *)
Lemma createGlyphArrays_sized (h : FreeStore.t) (it : HB.ShaperItem)
    (n : Z) :
  0 <= n < 2 ^ 31 ->
  exists h1 it1,
    createGlyphArrays h it n = Ok (h1, it1) /\
    sized_glyph_arrays it1 n /\
    HB.request it1 = HB.request it /\
    HB.log_clusters it1 = HB.log_clusters it /\
    FreeStore.live h1 = FreeStore.live h + 4.
Proof.
  intros Hn. unfold createGlyphArrays.
  destruct (n <? 0) eqn:E; [apply Z.ltb_lt in E; lia|].
  destruct (FreeStore.new_array h (Z.to_nat n)) as [h1 g] eqn:E1.
  destruct (FreeStore.new_array h1 (Z.to_nat n)) as [h2 a] eqn:E2.
  destruct (FreeStore.new_array h2 (Z.to_nat n)) as [h3 d] eqn:E3.
  destruct (FreeStore.new_points h3 (Z.to_nat n)) as [h4 o] eqn:E4.
  pose proof (new_array_length h (Z.to_nat n)) as [L1 C1].
  pose proof (new_array_length h1 (Z.to_nat n)) as [L2 C2].
  pose proof (new_array_length h2 (Z.to_nat n)) as [L3 C3].
  pose proof (new_points_length h3 (Z.to_nat n)) as [L4 C4].
  rewrite E1 in L1, C1. rewrite E2 in L2, C2. rewrite E3 in L3, C3.
  rewrite E4 in L4, C4. cbn [fst snd] in *.
  eexists. eexists. split; [reflexivity|].
  split.
  { unfold sized_glyph_arrays; simpl. rewrite u32_small by lia.
    split; [reflexivity|]. repeat split; eexists; split; eauto. }
  split; [reflexivity|]. split; [reflexivity|]. lia.
Qed.

(** The zero-fill: whatever the arrays held, they hold zeros afterwards. *)
Lemma resetGlyphArrays_zeroes (it : HB.ShaperItem) (n : Z) :
  0 <= n < 2 ^ 31 -> sized_glyph_arrays it n ->
  exists it1,
    resetGlyphArrays it = Ok it1 /\
    fresh_glyph_arrays it1 n /\
    HB.request it1 = HB.request it /\
    HB.log_clusters it1 = HB.log_clusters it.
Proof.
  intros Hn (Hng & (g & Hg & Lg) & (a & Ha & La) & (d & Hd & Ld)
             & (o & Ho & Lo)).
  unfold resetGlyphArrays.
  rewrite Hng, Hg, Ha, Hd, Ho, s32_small by lia.
  rewrite !zero_fill_whole by (assumption || lia). cbn [bind].
  eexists. split; [reflexivity|].
  split; [|split; reflexivity].
  unfold fresh_glyph_arrays; simpl. repeat split; assumption || reflexivity.
Qed.

(** The free: each array the item holds leaves the free store, and the item
    holds none afterwards. *)
Lemma deleteGlyphArrays_releases (h : FreeStore.t) (it : HB.ShaperItem) :
  FreeStore.live (fst (deleteGlyphArrays h it))
  = FreeStore.live h - live_glyph_arrays it /\
  live_glyph_arrays (snd (deleteGlyphArrays h it)) = 0 /\
  HB.request (snd (deleteGlyphArrays h it)) = HB.request it /\
  HB.log_clusters (snd (deleteGlyphArrays h it)) = HB.log_clusters it /\
  HB.num_glyphs (snd (deleteGlyphArrays h it)) = HB.num_glyphs it.
Proof.
  unfold deleteGlyphArrays, live_glyph_arrays, held, FreeStore.delete_array.
  cbn [fst snd]. split; [|repeat split].
  destruct (HB.glyphs it), (HB.attributes it), (HB.advances it),
    (HB.offsets it); cbn [FreeStore.live]; lia.
Qed.

(** One turn of the retry: free, four new arrays of twice the reported
    number of slots, zero-fill. *)
Lemma regrow_steps (h : FreeStore.t) (it : HB.ShaperItem) :
  0 <= HB.num_glyphs it < 2 ^ 30 ->
  exists h1 it1 it2,
    createGlyphArrays (fst (deleteGlyphArrays h it))
      (snd (deleteGlyphArrays h it)) (2 * HB.num_glyphs it) = Ok (h1, it1) /\
    sized_glyph_arrays it1 (2 * HB.num_glyphs it) /\
    resetGlyphArrays it1 = Ok it2 /\
    regrow h it = Ok (h1, it2) /\
    fresh_glyph_arrays it2 (2 * HB.num_glyphs it) /\
    HB.request it2 = HB.request it /\
    HB.log_clusters it2 = HB.log_clusters it /\
    FreeStore.live h1 = FreeStore.live h - live_glyph_arrays it + 4.
Proof.
  intros Hn.
  destruct (deleteGlyphArrays_releases h it) as (Hlive & _ & Hrq0 & Hl0 & Hn0).
  destruct (createGlyphArrays_sized (fst (deleteGlyphArrays h it))
              (snd (deleteGlyphArrays h it)) (2 * HB.num_glyphs it))
    as (h1 & it1 & Hc & Hs & Hrq & Hl & Hlive1); [lia|].
  destruct (resetGlyphArrays_zeroes it1 (2 * HB.num_glyphs it))
    as (it2 & Hr & Hf & Hrq2 & Hl2); [lia|exact Hs|].
  exists h1, it1, it2. split; [exact Hc|]. split; [exact Hs|].
  split; [exact Hr|]. split.
  { unfold regrow.
    destruct (deleteGlyphArrays h it) as [h0 it0] eqn:Ed. cbn [fst snd] in *.
    assert (Hsize : s32 (u32 (HB.num_glyphs it0 * 2))
                    = 2 * HB.num_glyphs it).
    { rewrite Hn0. rewrite u32_small by lia. rewrite s32_small by lia. lia. }
    rewrite Hsize, Hc. cbn [bind]. rewrite Hr. reflexivity. }
  split; [exact Hf|].
  split; [rewrite Hrq2, Hrq, Hrq0; reflexivity|].
  split; [rewrite Hl2, Hl, Hl0; reflexivity|]. lia.
Qed.

(** The buffers of the first attempt. *)
Lemma setup_steps (h : FreeStore.t) (paint : SkPaint) (chars : list Z)
    (start count contextCount : Z) (isRTL : bool) :
  0 <= contextCount < 2 ^ 30 - 2 ->
  exists hs its it,
    setupShaperItem h paint chars start count contextCount isRTL
    = Ok (hs, its) /\
    sized_glyph_arrays its (2 * (contextCount + 2)) /\
    FreeStore.live hs = FreeStore.live h + 5 /\
    resetGlyphArrays its = Ok it /\
    fresh_glyph_arrays it (2 * (contextCount + 2)) /\
    HB.request it = request_of paint chars start count contextCount isRTL /\
    HB.buffer_length (HB.log_clusters it) = contextCount.
Proof.
  intros Hc. unfold setupShaperItem.
  assert (Hsize : s32 (u32 ((contextCount + 2) * 2)) = 2 * (contextCount + 2)).
  { rewrite u32_small by lia. rewrite s32_small by lia. lia. }
  rewrite Hsize.
  destruct (createGlyphArrays_sized h
              (zeroed_item {| HB.x_ppem := 1; HB.y_ppem := 1; HB.x_scale := 1;
                              HB.y_scale := 1;
                              HB.userData := Some (fontData_of paint) |})
              (2 * (contextCount + 2)))
    as (h1 & it1 & Hcr & (Hng & Hg & Ha & Hd & Ho) & _ & _ & Hlive); [lia|].
  rewrite Hcr. cbn [bind].
  destruct (FreeStore.new_array h1 (Z.to_nat contextCount)) as [h2 lc] eqn:El.
  pose proof (new_array_length h1 (Z.to_nat contextCount)) as [Ll Cl].
  rewrite El in Ll, Cl. cbn [fst snd] in Ll, Cl.
  match goal with
  | |- exists hs its it, Ok (_, ?x) = Ok (hs, its) /\ _ => set (its0 := x)
  end.
  assert (Hs0 : sized_glyph_arrays its0 (2 * (contextCount + 2))).
  { unfold sized_glyph_arrays, its0; simpl. repeat split; assumption. }
  destruct (resetGlyphArrays_zeroes its0 (2 * (contextCount + 2)))
    as (it & Hr & Hf & Hrq & Hl); [lia|exact Hs0|].
  exists h2, its0, it. split; [reflexivity|]. split; [exact Hs0|].
  split; [lia|]. split; [exact Hr|]. split; [exact Hf|].
  split; [rewrite Hrq; reflexivity|].
  rewrite Hl. unfold its0; simpl. rewrite Ll. lia.
Qed.

Section WithShaper.
Context {shaper : Shaper}.

(** C9.  For a context of fewer than [2 ^ 30 - 2] code units, in whatever
    free store.  The set-up allocates four glyph-side arrays of
    [2 * (contextCount + 2)] slots and a log-cluster array of
    [contextCount] slots, five arrays in all, of unspecified content, and
    the zero-fill before the first attempt leaves zeros in the four.
    Whenever the shaper fails, the retry releases the glyph-side arrays the
    item holds, allocates four of twice the number of glyphs the shaper
    reported, of unspecified content, and fills them with zeros; the
    log-cluster buffer and the request are as they were, and as many arrays
    are live as before but for those released and the four that are new.
    When the shaper succeeds with enough room, the loop ends, at the first
    attempt or at the first retry, whose buffers hold at least the reported
    number. *)
Theorem shapeWithHarfbuzz_grows_until_shaped (h : FreeStore.t) (fuel : nat)
    (paint : SkPaint) (chars : list Z) (start count contextCount : Z)
    (isRTL : bool) :
  0 <= contextCount < 2 ^ 30 - 2 ->
  (2 <= fuel)%nat ->
  succeeds_with_enough_room
    (request_of paint chars start count contextCount isRTL) ->
  exists hs its it0 h_final it_final,
    setupShaperItem h paint chars start count contextCount isRTL
    = Ok (hs, its) /\
    sized_glyph_arrays its (2 * (contextCount + 2)) /\
    FreeStore.live hs = FreeStore.live h + 5 /\
    resetGlyphArrays its = Ok it0 /\
    fresh_glyph_arrays it0 (2 * (contextCount + 2)) /\
    HB.buffer_length (HB.log_clusters it0) = contextCount /\
    (forall h' it it',
       HB.request it = request_of paint chars start count contextCount isRTL ->
       HB_ShapeItem it = (false, it') ->
       FreeStore.live (fst (deleteGlyphArrays h' it'))
       = FreeStore.live h' - live_glyph_arrays it' /\
       live_glyph_arrays (snd (deleteGlyphArrays h' it')) = 0 /\
       exists h2 it1 it2,
         createGlyphArrays (fst (deleteGlyphArrays h' it'))
           (snd (deleteGlyphArrays h' it')) (2 * HB.num_glyphs it')
         = Ok (h2, it1) /\
         sized_glyph_arrays it1 (2 * HB.num_glyphs it') /\
         resetGlyphArrays it1 = Ok it2 /\
         regrow h' it' = Ok (h2, it2) /\
         fresh_glyph_arrays it2 (2 * HB.num_glyphs it') /\
         FreeStore.live h2
         = FreeStore.live h' - live_glyph_arrays it' + 4 /\
         HB.log_clusters it2 = HB.log_clusters it' /\
         HB.request it2 = HB.request it') /\
    shapeWithHarfbuzz h fuel paint chars start count contextCount isRTL
    = Ok (h_final, it_final) /\
    ((HB_ShapeItem it0 = (true, it_final) /\ h_final = hs) \/
     exists it' it2,
       HB_ShapeItem it0 = (false, it') /\
       regrow hs it' = Ok (h_final, it2) /\
       HB.num_glyphs it' <= HB.num_glyphs it2 /\
       HB.log_clusters it2 = HB.log_clusters it' /\
       HB_ShapeItem it2 = (true, it_final)).
Proof.
  intros Hc Hfuel Hshaper.
  destruct (setup_steps h paint chars start count contextCount isRTL Hc)
    as (hs & its & it0 & Hs & Hsized & Hlive & Hr & Hf & Hrq & Hlen).
  assert (Hregrow : forall h' it it',
             HB.request it
             = request_of paint chars start count contextCount isRTL ->
             HB_ShapeItem it = (false, it') ->
             FreeStore.live (fst (deleteGlyphArrays h' it'))
             = FreeStore.live h' - live_glyph_arrays it' /\
             live_glyph_arrays (snd (deleteGlyphArrays h' it')) = 0 /\
             exists h2 it1 it2,
               createGlyphArrays (fst (deleteGlyphArrays h' it'))
                 (snd (deleteGlyphArrays h' it')) (2 * HB.num_glyphs it')
               = Ok (h2, it1) /\
               sized_glyph_arrays it1 (2 * HB.num_glyphs it') /\
               resetGlyphArrays it1 = Ok it2 /\
               regrow h' it' = Ok (h2, it2) /\
               fresh_glyph_arrays it2 (2 * HB.num_glyphs it') /\
               FreeStore.live h2
               = FreeStore.live h' - live_glyph_arrays it' + 4 /\
               HB.log_clusters it2 = HB.log_clusters it' /\
               HB.request it2 = HB.request it').
  { intros h' it it' Hit Hfail.
    destruct (Hshaper it it' Hit Hfail) as (_ & Hn & _).
    destruct (deleteGlyphArrays_releases h' it') as (D1 & D2 & _).
    split; [exact D1|]. split; [exact D2|].
    destruct (regrow_steps h' it' Hn)
      as (h2 & it1 & it2 & H1 & H2 & H3 & H4 & H5 & H6 & H7 & H8).
    exists h2, it1, it2.
    split; [exact H1|]. split; [exact H2|]. split; [exact H3|].
    split; [exact H4|]. split; [exact H5|]. split; [exact H8|].
    split; [exact H7|exact H6]. }
  destruct fuel as [|[|fuel]]; [lia|lia|].
  assert (Hrun : shapeWithHarfbuzz h (S (S fuel)) paint chars start count
                   contextCount isRTL = shape_loop (S (S fuel)) hs it0).
  { unfold shapeWithHarfbuzz. rewrite Hs. cbn [bind]. rewrite Hr.
    reflexivity. }
  destruct (HB_ShapeItem it0) as [ok it'] eqn:E0.
  destruct ok.
  - exists hs, its, it0, hs, it'.
    split; [exact Hs|]. split; [exact Hsized|]. split; [exact Hlive|].
    split; [exact Hr|]. split; [exact Hf|].
    split; [exact Hlen|]. split; [exact Hregrow|].
    split; [|left; split; [exact E0|reflexivity]].
    rewrite Hrun. cbn [shape_loop]. rewrite E0. reflexivity.
  - destruct (Hshaper it0 it' Hrq E0) as (Hrq' & Hn & Hroom).
    destruct (Hregrow hs it0 it' Hrq E0)
      as (_ & _ & h2 & it1 & it2 & _ & _ & _ & Hg & Hf2 & _ & Hl2 & Hrq2).
    assert (Hok : fst (HB_ShapeItem it2) = true).
    { apply (Hroom it2 (2 * HB.num_glyphs it')); [congruence|exact Hf2|lia]. }
    destruct (HB_ShapeItem it2) as [ok2 it3] eqn:E2. simpl in Hok. subst ok2.
    exists hs, its, it0, h2, it3.
    split; [exact Hs|]. split; [exact Hsized|]. split; [exact Hlive|].
    split; [exact Hr|]. split; [exact Hf|].
    split; [exact Hlen|]. split; [exact Hregrow|].
    split.
    + rewrite Hrun. cbn [shape_loop]. rewrite E0, Hg. cbn [bind].
      cbn [shape_loop]. rewrite E2. reflexivity.
    + right. exists it', it2.
      split; [exact E0|]. split; [exact Hg|].
      split; [destruct Hf2 as (Hng & _); rewrite Hng; lia|].
      split; [exact Hl2|exact E2].
Qed.

End WithShaper.
End ShaperFacts.

(** * Facts about binary32 sums *)

Module FloatFacts.

Lemma same_float_refl (x : jfloat) : same_float x x.
Proof. left. reflexivity. Qed.

Lemma same_float_sym (x y : jfloat) : same_float x y -> same_float y x.
Proof.
  intros [->|(s & t & -> & ->)]; [left; reflexivity|right; eauto].
Qed.

Lemma same_float_trans (x y z : jfloat) :
  same_float x y -> same_float y z -> same_float x z.
Proof.
  intros [->|(s & t & -> & ->)] [E|(s' & t' & E1 & E2)]; subst.
  - left. reflexivity.
  - right. eauto.
  - right. eauto.
  - right. eauto.
Qed.

Lemma zero_same (s t : bool) : same_float (S754_zero s) (S754_zero t).
Proof. right. eauto. Qed.

Lemma jfloat_add_same (x x' y y' : jfloat) :
  same_float x x' -> same_float y y' ->
  same_float (jfloat_add x y) (jfloat_add x' y').
Proof.
  intros [->|(s & t & -> & ->)] [->|(s' & t' & -> & ->)].
  - apply same_float_refl.
  - destruct x' as [sx|sx| |sx mx ex]; simpl;
      try apply same_float_refl;
      destruct sx, s', t'; apply zero_same.
  - destruct y' as [sy|sy| |sy my ey]; simpl;
      try apply same_float_refl;
      destruct s, t, sy; apply zero_same.
  - destruct s, t, s', t'; apply zero_same.
Qed.

Lemma jfloat_add_zero_r (x : jfloat) : same_float (jfloat_add x jfloat_zero) x.
Proof.
  destruct x as [s|s| |s m e]; simpl; try apply same_float_refl.
  destruct s; apply zero_same.
Qed.

Lemma jfloat_add_zero_l (x : jfloat) : same_float (jfloat_add jfloat_zero x) x.
Proof.
  destruct x as [s|s| |s m e]; simpl; try apply same_float_refl.
  destruct s; apply zero_same.
Qed.

Lemma fold_add_same (l : list jfloat) :
  forall x y, same_float x y ->
              same_float (fold_left jfloat_add l x) (fold_left jfloat_add l y).
Proof.
  induction l as [|a l IH]; intros x y Hxy; simpl; [exact Hxy|].
  apply IH. apply jfloat_add_same; [exact Hxy|apply same_float_refl].
Qed.

Lemma fold_add_zeros (n : nat) :
  fold_left jfloat_add (repeat jfloat_zero n) jfloat_zero = jfloat_zero.
Proof. induction n as [|n IH]; simpl; [reflexivity|exact IH]. Qed.

End FloatFacts.

(** * Facts about the bidi driver *)

Module DriverFacts.
Import TextLayoutCacheValue BufferFacts ProjectionFacts FloatFacts.

Section WithShaper.
Context {growth : Vector.Growth} {shaper : Shaper} {allocator : Allocator}.

Lemma advances_loop_sum (it : HB.ShaperItem) :
  forall (n : nat) (i : Z) (tot tot' : jfloat) (out out' : Vector.t jfloat),
    advances_loop it i n tot out = Ok (tot', out') ->
    exists seg,
      Vector.items out' = Vector.items out ++ seg /\
      length seg = n /\
      forall acc, same_float acc tot ->
                  same_float (fold_left jfloat_add seg acc) tot'.
Proof.
  induction n as [|n IH]; intros i tot tot' out out' Hr.
  - inversion Hr. subst. exists []. rewrite app_nil_r.
    split; [reflexivity|]. split; [reflexivity|]. intros acc Ha. exact Ha.
  - cbn [advances_loop] in Hr.
    destruct (HB.deref (HB.log_clusters it) (i - 1)) as [p|]; [|discriminate].
    destruct (HB.deref (HB.log_clusters it) i) as [c|]; [|discriminate].
    cbn [bind] in Hr. destruct (c =? p).
    + destruct (IH _ _ _ _ _ Hr) as (seg & Hit & Hlen & Hsum).
      exists (jfloat_zero :: seg). split.
      { rewrite Hit, items_add, <- app_assoc. reflexivity. }
      split; [simpl; lia|]. intros acc Ha. simpl. apply Hsum.
      apply (same_float_trans _ acc); [apply jfloat_add_zero_r|exact Ha].
    + destruct (HB.deref (HB.advances it) c) as [a|]; [|discriminate].
      cbn [bind] in Hr.
      destruct (IH _ _ _ _ _ Hr) as (seg & Hit & Hlen & Hsum).
      exists (HBFixedToFloat a :: seg). split.
      { rewrite Hit, items_add, <- app_assoc. reflexivity. }
      split; [simpl; lia|]. intros acc Ha. simpl. apply Hsum.
      apply jfloat_add_same; [exact Ha|apply same_float_refl].
Qed.

(** The advances a run appends and their total, whatever the shaper left. *)
Lemma project_run_advances (it : HB.ShaperItem) (count : Z) (isRTL : bool)
    (advs : Vector.t jfloat) (gls lcs : Vector.t Z) (r : run_output) :
  project_run it count isRTL advs gls lcs = Ok r ->
  exists seg,
    Vector.items (outAdvances r) = Vector.items advs ++ seg /\
    same_float (outTotalAdvance r) (in_order_sum seg) /\
    (length seg = Z.to_nat count \/
     (count <= 0 /\ length seg = 1%nat /\
      1 <= HB.buffer_length (HB.log_clusters it))).
Proof.
  unfold project_run. destruct (shaped_nothing it).
  - intros Hr. inversion Hr. cbn [outAdvances outTotalAdvance].
    exists (repeat jfloat_zero (Z.to_nat count)).
    split; [apply items_insertAt_end|].
    split; [unfold in_order_sum; rewrite fold_add_zeros; apply same_float_refl|].
    left. apply repeat_length.
  - unfold project_advances.
    destruct (HB.deref (HB.log_clusters it) 0) as [c0|] eqn:L0;
      [|discriminate].
    cbn [bind].
    destruct (HB.deref (HB.advances it) c0) as [a0|]; [|discriminate].
    cbn [bind].
    destruct (advances_loop it 1 (Z.to_nat (count - 1)) (HBFixedToFloat a0)
                (Vector.add (HBFixedToFloat a0) advs))
      as [[tot advs']|] eqn:Hloop; [|discriminate].
    cbn [bind].
    destruct (project_glyphs it isRTL gls); [|discriminate].
    destruct (project_logClusters it lcs); [|discriminate].
    cbn [bind]. intros Hr. inversion Hr. cbn [outAdvances outTotalAdvance].
    destruct (advances_loop_sum _ _ _ _ _ _ _ Hloop) as (seg & Hit & Hlen & Hsum).
    exists (HBFixedToFloat a0 :: seg). split.
    { rewrite Hit, items_add, <- app_assoc. reflexivity. }
    split.
    { apply same_float_sym. unfold in_order_sum. simpl. apply Hsum.
      apply jfloat_add_zero_l. }
    destruct (Z_lt_le_dec 0 count) as [Hpos|Hle].
    + left. simpl. lia.
    + right. split; [exact Hle|]. split; [simpl; lia|].
      unfold HB.deref in L0. destruct (HB.log_clusters it) as [b|];
        [|discriminate].
      apply load_Ok_range in L0. simpl. lia.
Qed.

Lemma regrow_keeps_log_clusters (h h2 : FreeStore.t)
    (it it2 : HB.ShaperItem) :
  regrow h it = Ok (h2, it2) -> HB.log_clusters it2 = HB.log_clusters it.
Proof.
  unfold regrow, deleteGlyphArrays, createGlyphArrays.
  cbn [HB.num_glyphs].
  destruct (s32 (u32 (HB.num_glyphs it * 2)) <? 0); [discriminate|].
  cbn [bind FreeStore.new_array FreeStore.new_points]. unfold resetGlyphArrays.
  repeat match goal with
         | |- context [bind (zero_fill ?z ?n ?p) _] =>
             destruct (zero_fill z n p); [|discriminate]; cbn [bind]
         end.
  intros E. inversion E. reflexivity.
Qed.

Lemma resetGlyphArrays_keeps_log_clusters (it it2 : HB.ShaperItem) :
  resetGlyphArrays it = Ok it2 -> HB.log_clusters it2 = HB.log_clusters it.
Proof.
  unfold resetGlyphArrays.
  repeat match goal with
         | |- context [bind (zero_fill ?z ?n ?p) _] =>
             destruct (zero_fill z n p); [|discriminate]; cbn [bind]
         end.
  intros E. inversion E. reflexivity.
Qed.

Lemma shape_loop_extent :
  writes_in_place ->
  forall (fuel : nat) (h h' : FreeStore.t) (it it' : HB.ShaperItem),
    shape_loop fuel h it = Ok (h', it') ->
    HB.buffer_length (HB.log_clusters it')
    = HB.buffer_length (HB.log_clusters it).
Proof.
  intros Hplace. induction fuel as [|fuel IH]; intros h h' it it' Hr;
    [discriminate|].
  cbn [shape_loop] in Hr. pose proof (Hplace it) as Hp.
  destruct (HB_ShapeItem it) as [ok it1]. simpl in Hp. destruct ok.
  - inversion Hr. subst. exact Hp.
  - destruct (regrow h it1) as [[h2 it2]|] eqn:Hg; [|discriminate].
    cbn [bind] in Hr. rewrite (IH _ _ _ _ Hr).
    rewrite (regrow_keeps_log_clusters _ _ _ _ Hg). exact Hp.
Qed.

Lemma shapeWithHarfbuzz_extent (h h' : FreeStore.t) (fuel : nat)
    (paint : SkPaint) (chars : list Z) (start count contextCount : Z)
    (isRTL : bool) (it : HB.ShaperItem) :
  writes_in_place ->
  shapeWithHarfbuzz h fuel paint chars start count contextCount isRTL
  = Ok (h', it) ->
  HB.buffer_length (HB.log_clusters it) = Z.of_nat (Z.to_nat contextCount).
Proof.
  intros Hplace. unfold shapeWithHarfbuzz, setupShaperItem, createGlyphArrays.
  destruct (s32 (u32 ((contextCount + 2) * 2)) <? 0); [discriminate|].
  cbn [bind FreeStore.new_array FreeStore.new_points].
  match goal with
  | |- context [resetGlyphArrays ?x] =>
      destruct (resetGlyphArrays x) as [it0|] eqn:Hr; [|discriminate]
  end.
  cbn [bind]. intros Hl.
  rewrite (shape_loop_extent Hplace _ _ _ _ _ Hl).
  rewrite (resetGlyphArrays_keeps_log_clusters _ _ Hr). simpl.
  rewrite length_map, length_seq. reflexivity.
Qed.

(** One run: what it appends to the advances and what it reports as total. *)
Lemma computeRun_advances (fuel : nat) (paint : SkPaint) (chars : list Z)
    (start count contextCount : Z) (isRTL : bool)
    (advs : Vector.t jfloat) (gls lcs : Vector.t Z) (r : run_output) :
  0 < count \/ (count = 0 /\ contextCount = 0 /\ writes_in_place) ->
  computeRunValuesWithHarfbuzz fuel paint chars start count contextCount
    isRTL advs gls lcs = Ok r ->
  exists seg,
    Vector.items (outAdvances r) = Vector.items advs ++ seg /\
    Z.of_nat (length seg) = count /\
    same_float (outTotalAdvance r) (in_order_sum seg).
Proof.
  intros Hcount. unfold computeRunValuesWithHarfbuzz.
  destruct (shapeWithHarfbuzz free_store fuel paint chars start count
              contextCount isRTL) as [[h it]|] eqn:Hs; [|discriminate].
  cbn [bind]. intros Hp.
  destruct (project_run_advances _ _ _ _ _ _ _ Hp)
    as (seg & Hit & Hsum & [Hlen | (Hle & Hlen & Hbuf)]).
  - exists seg. split; [exact Hit|]. split; [lia|exact Hsum].
  - exfalso. destruct Hcount as [Hpos | (_ & Hzero & Hplace)]; [lia|].
    rewrite (shapeWithHarfbuzz_extent _ _ _ _ _ _ _ _ _ _ Hplace Hs) in Hbuf.
    lia.
Qed.


Section WithBidi.
Context {bidi_engine : BidiEngine}.

Lemma computeValuesWithHarfbuzz_route (fuel : nat) (paint : SkPaint)
    (chars : list Z) (contextCount dirFlags : Z) (v : t) :
  computeValuesWithHarfbuzz fuel paint chars contextCount dirFlags v
  = match route_of chars contextCount dirFlags with
    | Route_single isRTL => single_run fuel paint chars contextCount isRTL v
    | Route_runs bidi rc =>
        runs_loop fuel paint chars contextCount bidi 0 (Z.to_nat rc) v
    | Route_none => Ok v
    end.
Proof.
  unfold computeValuesWithHarfbuzz, route_of.
  destruct ((dirFlags =? kBidi_Force_LTR) || (dirFlags =? kBidi_Force_RTL));
    [reflexivity|].
  destruct ubidi_open; [|reflexivity].
  destruct (U_SUCCESS (ubidi_setPara _)); [|reflexivity].
  destruct (ubidi_countRuns _) as [runs status']. cbn [fst snd].
  destruct ((u32 runs =? 1) || negb (U_SUCCESS status')); reflexivity.
Qed.

(** Without a bidi object, and with no direction forced, the single run is
    right to left whatever the direction mode: the condition of line 458 is
    made of two assignments. *)
Lemma route_without_bidi (chars : list Z) (contextCount dirFlags : Z) :
  ubidi_open = false ->
  dirFlags <> kBidi_Force_LTR -> dirFlags <> kBidi_Force_RTL ->
  route_of chars contextCount dirFlags = Route_single true.
Proof.
  intros Hopen Hl Hr. unfold route_of.
  apply Z.eqb_neq in Hl, Hr. rewrite Hl, Hr, Hopen. reflexivity.
Qed.

Lemma single_run_advances (fuel : nat) (paint : SkPaint) (chars : list Z)
    (contextCount : Z) (isRTL : bool) (v v' : t) :
  0 <= contextCount -> (contextCount = 0 -> writes_in_place) ->
  single_run fuel paint chars contextCount isRTL v = Ok v' ->
  exists seg,
    Vector.items (mAdvances v') = Vector.items (mAdvances v) ++ seg /\
    Z.of_nat (length seg) = contextCount /\
    same_float (mTotalAdvance v') (in_order_sum seg).
Proof.
  intros Hc Hplace. unfold single_run.
  destruct (computeRunValuesWithHarfbuzz fuel paint chars 0 contextCount
              contextCount isRTL (mAdvances v) (mGlyphs v) (mLogClusters v))
    as [r|] eqn:Hr; [|discriminate].
  cbn [bind]. intros E. inversion E. cbn [mAdvances mTotalAdvance].
  apply computeRun_advances in Hr; [exact Hr|].
  destruct (Z.eq_dec contextCount 0) as [Hz|Hnz]; [right; auto|left; lia].
Qed.

Lemma runs_loop_advances (fuel : nat) (paint : SkPaint) (chars : list Z)
    (contextCount : Z) (bidi : UBiDi) :
  forall (n i : nat) (v v' : t),
    runs_loop fuel paint chars contextCount bidi (Z.of_nat i) n v = Ok v' ->
    Forall (fun len => 0 < len)
           (map (fun k => u32 (snd (ubidi_getVisualRun bidi (Z.of_nat k))))
                (seq i n)) ->
    exists segments totals,
      Vector.items (mAdvances v')
      = Vector.items (mAdvances v) ++ concat segments /\
      map (fun seg => Z.of_nat (length seg)) segments
      = map (fun k => u32 (snd (ubidi_getVisualRun bidi (Z.of_nat k))))
            (seq i n) /\
      Forall2 (fun seg tot => same_float tot (in_order_sum seg))
              segments totals /\
      mTotalAdvance v' = fold_left jfloat_add totals (mTotalAdvance v).
Proof.
  induction n as [|n IH]; intros i v v' Hr Hpos.
  - inversion Hr. subst. exists [], []. simpl. rewrite app_nil_r.
    repeat split; constructor.
  - cbn [runs_loop] in Hr. cbn [seq map] in Hpos |- *.
    inversion Hpos as [|len lens Hlen Hrest]. subst.
    destruct (ubidi_getVisualRun bidi (Z.of_nat i))
      as [[runDir startRun] lengthRun]. cbn [snd] in *.
    destruct (computeRunValuesWithHarfbuzz fuel paint chars (u32 startRun)
                (u32 lengthRun) contextCount (runDir =? UBIDI_RTL)
                (mAdvances v) (mGlyphs v) (mLogClusters v))
      as [r|] eqn:Hrun; [|discriminate].
    cbn [bind] in Hr.
    apply computeRun_advances in Hrun; [|left; lia].
    destruct Hrun as (seg & Hit & Hlenseg & Hsum).
    replace (Z.of_nat i + 1) with (Z.of_nat (S i)) in Hr by lia.
    destruct (IH _ _ _ Hr Hrest) as (segments & totals & Hits & Hlens & Hall & Htot).
    cbn [mAdvances mTotalAdvance] in Hits, Htot.
    exists (seg :: segments), (outTotalAdvance r :: totals).
    split.
    { rewrite Hits, Hit, <- app_assoc. reflexivity. }
    split; [cbn [map]; rewrite Hlenseg, Hlens; reflexivity|].
    split; [constructor; assumption|].
    exact Htot.
Qed.

Lemma length_concat_sum {A : Type} (segments : list (list A)) :
  Z.of_nat (length (concat segments))
  = fold_right Z.add 0 (map (fun seg => Z.of_nat (length seg)) segments).
Proof.
  induction segments as [|seg segments IH]; simpl; [reflexivity|].
  rewrite length_app. lia.
Qed.

Lemma items_setCapacity {A : Type} (n : Z) (v : Vector.t A) :
  Vector.items (Vector.setCapacity n v) = Vector.items v.
Proof. unfold Vector.setCapacity. destruct (n <=? Vector.size v); reflexivity. Qed.

(** Where a run is shaped.  Take an artifact that [computeValues] produces on
    a route other than the failure of [ubidi_setPara], the visual runs being
    non-empty and adding up to the context when there are several, and the
    shaper writing log clusters in place when the context is empty.  Its
    advances have one entry for each code unit.  With a single run the total
    advance is the sum of the advances added in order in binary32, up to the
    sign of a zero; with several runs it is the sum, added in order from
    zero, of the totals of the runs, each of which is such a sum of the
    advances of its run. *)
Theorem computeValues_advances_and_total (fuel : nat) (paint : SkPaint)
    (chars : list Z) (contextCount dirFlags : Z) (v : t) :
  0 <= contextCount ->
  (contextCount = 0 -> writes_in_place) ->
  route_of chars contextCount dirFlags <> Route_none ->
  (forall bidi rc, route_of chars contextCount dirFlags = Route_runs bidi rc ->
                   runs_cover bidi rc contextCount) ->
  computeValues fuel paint chars contextCount dirFlags new = Ok v ->
  Vector.size (mAdvances v) = contextCount /\
  (forall isRTL,
     route_of chars contextCount dirFlags = Route_single isRTL ->
     same_float (mTotalAdvance v) (in_order_sum (Vector.items (mAdvances v)))) /\
  (forall bidi rc,
     route_of chars contextCount dirFlags = Route_runs bidi rc ->
     exists segments totals,
       Vector.items (mAdvances v) = concat segments /\
       map (fun seg => Z.of_nat (length seg)) segments
       = run_lengths bidi (Z.to_nat rc) /\
       Forall2 (fun seg tot => same_float tot (in_order_sum seg))
               segments totals /\
       mTotalAdvance v = fold_left jfloat_add totals jfloat_zero).
Proof.
  intros Hc Hplace Hroute Hcover. unfold computeValues.
  rewrite computeValuesWithHarfbuzz_route.
  destruct (route_of chars contextCount dirFlags) as [isRTL|bidi rc|] eqn:R;
    [| |contradiction].
  - intros Hr.
    destruct (single_run_advances _ _ _ _ _ _ _ Hc Hplace Hr)
      as (seg & Hit & Hlen & Hsum).
    cbn [mAdvances] in Hit. rewrite items_setCapacity in Hit. simpl in Hit.
    split; [unfold Vector.size; rewrite Hit; exact Hlen|].
    split; [|intros bidi rc E; discriminate].
    intros b _. rewrite Hit. exact Hsum.
  - intros Hr. destruct (Hcover bidi rc eq_refl) as [Hpos Hsum].
    destruct (runs_loop_advances fuel paint chars contextCount bidi
                (Z.to_nat rc) 0 _ _ Hr Hpos)
      as (segments & totals & Hit & Hlens & Hall & Htot).
    cbn [mAdvances mTotalAdvance] in Hit, Htot.
    rewrite items_setCapacity in Hit. simpl in Hit.
    split.
    { unfold Vector.size. rewrite Hit, length_concat_sum, Hlens. exact Hsum. }
    split; [intros b E; discriminate|].
    intros bidi' rc' E. inversion E. subst bidi' rc'.
    exists segments, totals. auto.
Qed.

(** C3.  When [ubidi_setPara] fails nothing is shaped.  The body that shapes
    the runs is guarded by [U_SUCCESS(status)] and the guard has no [else]:
    for a direction mode that is not forced and a bidi object that opens,
    [computeValues] returns with an artifact that has no advance, no glyph,
    no log cluster and a total of zero, whatever the code units.  For an
    input that is not empty the number of advances is not the number of code
    units, and [getTotalAdvance] over the input reads past the advances.
    The two other failures of the bidi engine shape one run over the whole
    context: a failure of [ubidi_countRuns], and a bidi object that cannot
    be opened. *)
Theorem computeValues_shapes_nothing_when_setPara_fails (fuel : nat)
    (paint : SkPaint) (chars : list Z) (contextCount dirFlags : Z) :
  dirFlags <> kBidi_Force_LTR -> dirFlags <> kBidi_Force_RTL ->
  ubidi_open = true ->
  U_SUCCESS (ubidi_setPara {| para_text := chars;
                              para_length := contextCount;
                              para_level := bidiReq_of dirFlags |}) = false ->
  exists v,
    computeValues fuel paint chars contextCount dirFlags new = Ok v /\
    route_of chars contextCount dirFlags = Route_none /\
    Vector.items (mAdvances v) = [] /\
    Vector.items (mGlyphs v) = [] /\
    Vector.items (mLogClusters v) = [] /\
    mTotalAdvance v = jfloat_zero /\
    (0 < contextCount -> Vector.size (mAdvances v) <> contextCount) /\
    (0 < contextCount < 2 ^ 32 ->
     getTotalAdvance v 0 contextCount = Err OutOfBounds).
Proof.
  intros Hl Hr Hopen Hfail.
  assert (Hroute : route_of chars contextCount dirFlags = Route_none).
  { unfold route_of. apply Z.eqb_neq in Hl, Hr.
    rewrite Hl, Hr, Hopen, Hfail. reflexivity. }
  eexists. split.
  { unfold computeValues. rewrite computeValuesWithHarfbuzz_route, Hroute.
    reflexivity. }
  cbn [mAdvances mGlyphs mLogClusters mTotalAdvance new].
  rewrite !items_setCapacity. cbn [Vector.items Vector.empty].
  split; [exact Hroute|]. repeat (split; [reflexivity|]).
  split.
  { intros Hpos. unfold Vector.size. rewrite items_setCapacity. simpl. lia. }
  intros Hc. unfold getTotalAdvance. cbn [mAdvances].
  rewrite items_setCapacity. cbn [Vector.items Vector.empty].
  rewrite u32_small by lia.
  destruct (Z.to_nat (0 + contextCount - 0)) as [|n] eqn:En; [lia|].
  reflexivity.
Qed.

End WithBidi.
End WithShaper.

End DriverFacts.

(** * Facts about the cache *)

Module CacheFacts.
Import TextLayoutCache BufferFacts.

Section WithSizes.
Context {sizes : ObjectSizes}.

Lemma entry_bytes_range (e : TextLayoutCacheKey.t * sp TextLayoutCacheValue.t) :
  0 <= entry_bytes e < 2 ^ 32.
Proof.
  unfold entry_bytes. destruct (snd e); [apply u32_range|lia].
Qed.

Lemma accounted_bytes_nonneg store : 0 <= accounted_bytes store.
Proof.
  induction store as [|e store IH]; simpl; [lia|].
  pose proof (entry_bytes_range e). lia.
Qed.

Lemma accounted_bytes_app store1 store2 :
  accounted_bytes (store1 ++ store2)
  = accounted_bytes store1 + accounted_bytes store2.
Proof.
  induction store1 as [|e store1 IH]; simpl; [reflexivity|]. rewrite IH. lia.
Qed.

Lemma entry_removed_accounts key value (size : Z) :
  0 <= size - entry_bytes (key, value) -> size < 2 ^ 32 ->
  entry_removed key value size = size - entry_bytes (key, value).
Proof.
  intros Hlo Hhi. pose proof (entry_bytes_range (key, value)) as He.
  unfold entry_removed, entry_bytes in *. cbn [fst snd] in *.
  destruct value as [d|]; [|lia].
  apply u32_small. lia.
Qed.

(** One eviction takes the oldest entry and its bytes. *)
Lemma removeOldest_accounts (c : t) :
  mSize c = accounted_bytes (mCache c) -> mSize c < 2 ^ 32 ->
  mCache (removeOldest c) = tl (mCache c) /\
  mSize (removeOldest c) = accounted_bytes (tl (mCache c)) /\
  mMaxSize (removeOldest c) = mMaxSize c.
Proof.
  intros Hacc Hhi. unfold removeOldest, GenerationCache.removeOldest.
  destruct (mCache c) as [|[key value] rest] eqn:Hstore; cbn [tl].
  - simpl. auto.
  - cbn [mCache mSize mMaxSize]. split; [reflexivity|]. split; [|reflexivity].
    simpl in Hacc. pose proof (accounted_bytes_nonneg rest).
    rewrite entry_removed_accounts; lia.
Qed.

Lemma removeOldests_settles :
  forall (fuel : nat) (c : t),
    mSize c = accounted_bytes (mCache c) -> mSize c < 2 ^ 32 ->
    0 <= mMaxSize c ->
    (length (mCache c) < fuel)%nat ->
    exists c' evicted,
      removeOldests fuel c = Ok c' /\
      mCache c = evicted ++ mCache c' /\
      mSize c' = accounted_bytes (mCache c') /\
      mSize c' <= mMaxSize c' /\
      mMaxSize c' = mMaxSize c /\
      mDebugEnabled c' = mDebugEnabled c /\
      mCacheHitCount c' = mCacheHitCount c.
Proof.
  induction fuel as [|fuel IH]; intros c Hacc Hhi Hmax Hfuel; [lia|].
  cbn [removeOldests].
  destruct (mMaxSize c <? mSize c) eqn:E.
  - apply Z.ltb_lt in E.
    destruct (removeOldest_accounts c Hacc Hhi) as (Hst & Hsz & Hmx).
    destruct (mCache c) as [|e rest] eqn:Hstore.
    { simpl in Hacc. lia. }
    cbn [tl] in Hst, Hsz.
    destruct (IH (removeOldest c))
      as (c' & evicted & Hr & Hev & Hacc' & Hle & Hmx' & Hd & Hh).
    + rewrite Hst. exact Hsz.
    + rewrite Hsz. simpl in Hacc. pose proof (entry_bytes_range e). lia.
    + rewrite Hmx. exact Hmax.
    + rewrite Hst. simpl in Hfuel. lia.
    + exists c', (e :: evicted). split; [exact Hr|].
      split; [rewrite Hst in Hev; rewrite Hev; reflexivity|].
      split; [exact Hacc'|]. split; [exact Hle|].
      split; [congruence|]. split; [rewrite Hd|rewrite Hh];
        unfold removeOldest, GenerationCache.removeOldest; rewrite Hstore;
        destruct e; reflexivity.
  - apply Z.ltb_ge in E. exists c, []. repeat split; auto.
Qed.

Lemma make_room_settles (size : Z) :
  0 <= size ->
  forall (fuel : nat) (c : t),
    mSize c = accounted_bytes (mCache c) ->
    mSize c + size < 2 ^ 32 -> size <= mMaxSize c ->
    (length (mCache c) < fuel)%nat ->
    exists c',
      make_room fuel size c = Ok c' /\
      mSize c' = accounted_bytes (mCache c') /\
      mSize c' + size <= mMaxSize c' /\
      mMaxSize c' = mMaxSize c.
Proof.
  intros Hsize.
  induction fuel as [|fuel IH]; intros c Hacc Hhi Hmax Hfuel; [lia|].
  pose proof (accounted_bytes_nonneg (mCache c)) as Hnn.
  cbn [make_room]. rewrite (u32_small (mSize c + size)) by lia.
  destruct (mMaxSize c <? mSize c + size) eqn:E.
  - apply Z.ltb_lt in E.
    destruct (removeOldest_accounts c Hacc ltac:(lia)) as (Hst & Hsz & Hmx).
    destruct (mCache c) as [|e rest] eqn:Hstore.
    { simpl in Hacc. lia. }
    cbn [tl] in Hst, Hsz. simpl in Hacc.
    pose proof (entry_bytes_range e).
    pose proof (accounted_bytes_nonneg rest).
    destruct (IH (removeOldest c)) as (c' & Hr & Hacc' & Hle & Hmx').
    + rewrite Hst. exact Hsz.
    + rewrite Hsz. lia.
    + rewrite Hmx. exact Hmax.
    + rewrite Hst. simpl in Hfuel. lia.
    + exists c'. split; [exact Hr|]. split; [exact Hacc'|].
      split; [exact Hle|congruence].
  - apply Z.ltb_ge in E. exists c. auto.
Qed.

Lemma clear_accounts :
  forall store (size : Z),
    size = accounted_bytes store -> size < 2 ^ 32 ->
    fold_left (fun s' e => entry_removed (fst e) (snd e) s') store size = 0.
Proof.
  induction store as [|[key value] store IH]; intros size Hacc Hhi; simpl;
    [exact Hacc|].
  simpl in Hacc. pose proof (accounted_bytes_nonneg store).
  pose proof (entry_bytes_range (key, value)).
  apply IH; rewrite entry_removed_accounts; lia.
Qed.

Lemma getSize_internalTextCopy (key : TextLayoutCacheKey.t) :
  TextLayoutCacheKey.getSize (TextLayoutCacheKey.internalTextCopy key)
  = TextLayoutCacheKey.getSize key.
Proof. reflexivity. Qed.


(** The cache as constructed is within its budget. *)
Lemma new_within_budget (debugEnabled : bool) :
  within_budget (new debugEnabled) /\ mMaxSize (new debugEnabled) < 2 ^ 31.
Proof.
  unfold within_budget, new, DEFAULT_MAX_SIZE. simpl. lia.
Qed.

Section WithEngines.
Context {growth : Vector.Growth} {shaper : Shaper} {allocator : Allocator}
        {bidi_engine : BidiEngine}.

(** What [getValue] does on a hit, on a miss that is admitted and on a miss
    that is not. *)
Lemma getValue_keeps_budget (fuel : nat) (paint : SkPaint) (text : list Z)
    (count dirFlags : Z) (c : t) :
  within_budget c -> mMaxSize c < 2 ^ 31 ->
  (length (mCache c) < fuel)%nat ->
  (forall r c', getValue fuel paint text count dirFlags c = Ok (r, c') ->
                within_budget c' /\ mMaxSize c' = mMaxSize c) /\
  ((exists value,
      TextLayoutCacheValue.computeValues fuel paint text (u32 count) dirFlags
        TextLayoutCacheValue.new = Ok value) ->
   exists r c', getValue fuel paint text count dirFlags c = Ok (r, c')).
Proof.
  intros [Hacc Hle] Hmax Hfuel. unfold getValue.
  destruct (GenerationCache.get TextLayoutCacheKey.equiv
              (TextLayoutCacheKey.make paint text (u32 count) dirFlags)
              (mCache c)) as [hit|].
  { split; [|intros _; eauto].
    intros r c' E. inversion E. subst.
    destruct (mDebugEnabled c); split; try reflexivity; split; assumption. }
  destruct (TextLayoutCacheValue.computeValues fuel paint text (u32 count)
              dirFlags TextLayoutCacheValue.new) as [value|err];
    [|split; [intros r c' E; discriminate|intros [v E]; discriminate]].
  cbn [bind].
  set (key := TextLayoutCacheKey.make paint text (u32 count) dirFlags).
  set (size := u32 (TextLayoutCacheKey.getSize key
                    + TextLayoutCacheValue.getSize value)).
  assert (Hsize : 0 <= size < 2 ^ 32) by apply u32_range.
  destruct (size <=? mMaxSize c) eqn:E.
  - apply Z.leb_le in E.
    destruct (make_room_settles size ltac:(lia) fuel c Hacc ltac:(lia) E Hfuel)
      as (c1 & Hr & Hacc1 & Hle1 & Hmx1).
    rewrite Hr. cbn [bind].
    pose proof (accounted_bytes_nonneg (mCache c1)) as Hnn.
    split; [|intros _; eauto].
    intros r c' Eq. inversion Eq. subst r c'.
    unfold within_budget. cbn [mCache mSize mMaxSize].
    rewrite u32_small by lia.
    unfold GenerationCache.put. rewrite accounted_bytes_app.
    cbn [accounted_bytes fold_right]. unfold entry_bytes. cbn [fst snd].
    rewrite getSize_internalTextCopy. fold key. fold size.
    split; [split; lia|exact Hmx1].
  - split; [|intros _; eauto].
    intros r c' Eq. inversion Eq. subst. split; [split; assumption|reflexivity].
Qed.

(** C4.  The budget invariant, [mSize] being the sum of the accounted sizes
    of the entries of the store and at most [mMaxSize], is kept by [clear],
    by [setMaxSize] and, for budgets below [2 ^ 31], by [getValue]; each of
    them returns when given fuel above the number of entries.  After
    [setMaxSize n] a front of the store, the oldest entries, has been
    evicted, [mSize] went down by their accounted sizes, and it is at most
    [n]. *)
Theorem budget_is_kept (c : t) :
  within_budget c -> mMaxSize c < 2 ^ 32 ->
  (within_budget (clear c) /\ mCache (clear c) = [] /\ mSize (clear c) = 0) /\
  (forall (fuel : nat) (maxSize : Z),
     0 <= maxSize < 2 ^ 32 -> (length (mCache c) < fuel)%nat ->
     exists c' evicted,
       setMaxSize fuel maxSize c = Ok c' /\
       within_budget c' /\ mMaxSize c' = maxSize /\ mSize c' <= maxSize /\
       mCache c = evicted ++ mCache c' /\
       mSize c' = mSize c - accounted_bytes evicted) /\
  (forall (fuel : nat) (paint : SkPaint) (text : list Z) (count dirFlags : Z),
     mMaxSize c < 2 ^ 31 -> (length (mCache c) < fuel)%nat ->
     (forall r c', getValue fuel paint text count dirFlags c = Ok (r, c') ->
                   within_budget c' /\ mMaxSize c' = mMaxSize c) /\
     ((exists value,
         TextLayoutCacheValue.computeValues fuel paint text (u32 count)
           dirFlags TextLayoutCacheValue.new = Ok value) ->
      exists r c', getValue fuel paint text count dirFlags c = Ok (r, c'))).
Proof.
  intros [Hacc Hle] Hmax.
  pose proof (accounted_bytes_nonneg (mCache c)) as Hnn.
  split; [|split].
  - unfold clear, GenerationCache.clear, within_budget.
    cbn [mCache mSize mMaxSize].
    rewrite (clear_accounts (mCache c) (mSize c) Hacc) by lia.
    simpl. repeat split; try reflexivity. lia.
  - intros fuel maxSize Hn Hfuel. unfold setMaxSize.
    match goal with
    | |- context [removeOldests fuel ?c0] =>
        destruct (removeOldests_settles fuel c0)
          as (c' & evicted & Hr & Hev & Hacc' & Hle' & Hmx & _ & _)
    end; cbn [mCache mSize mMaxSize] in *; try lia; try assumption.
    exists c', evicted. split; [exact Hr|].
    split; [split; assumption|]. split; [exact Hmx|].
    split; [lia|]. split; [exact Hev|].
    rewrite Hacc, Hev, accounted_bytes_app, Hacc'. lia.
  - intros fuel paint text count dirFlags Hmax31 Hfuel.
    apply getValue_keeps_budget; [split; assumption|assumption|assumption].
Qed.

(** C1, as amended.  On a miss whose computed entry is larger than the
    budget, [getValue] returns the null handle, the computed artifact being
    released, and leaves the cache as it was: the store, [mSize] and the
    counters are unchanged. *)
Theorem getValue_oversize_is_not_kept (fuel : nat) (paint : SkPaint)
    (text : list Z) (count dirFlags : Z) (c : t)
    (value : TextLayoutCacheValue.t) :
  GenerationCache.get TextLayoutCacheKey.equiv
    (TextLayoutCacheKey.make paint text (u32 count) dirFlags) (mCache c)
  = sp_NULL ->
  TextLayoutCacheValue.computeValues fuel paint text (u32 count) dirFlags
    TextLayoutCacheValue.new = Ok value ->
  mMaxSize c
  < u32 (TextLayoutCacheKey.getSize
           (TextLayoutCacheKey.make paint text (u32 count) dirFlags)
         + TextLayoutCacheValue.getSize value) ->
  getValue fuel paint text count dirFlags c = Ok (sp_NULL, c).
Proof.
  intros Hmiss Hvalue Hbig. unfold getValue, sp_NULL in *.
  rewrite Hmiss, Hvalue. cbn [bind].
  destruct (_ <=? mMaxSize c) eqn:E; [apply Z.leb_le in E; lia|reflexivity].
Qed.

End WithEngines.
End WithSizes.
End CacheFacts.

(** * The model at work on concrete collaborators *)

Module StubFacts.
Import TextLayoutCacheValue.

Lemma write_prefix_extent {A : Type} (new : list A) (p : option (list A)) :
  HB.buffer_length (Stub.write_prefix new p) = HB.buffer_length p.
Proof.
  destruct p as [b|]; simpl; [|reflexivity].
  rewrite length_firstn, length_app, length_skipn. lia.
Qed.

Lemma table_shaper_writes_in_place (table : Stub.shaping_table) :
  writes_in_place (shaper := Stub.table_shaper table).
Proof.
  intros it. simpl. unfold Stub.table_shape.
  destruct (table (HB.item_pos it) (HB.item_length it)) as [[gs adv] lcs].
  destruct (HB.num_glyphs it <? Z.of_nat (length gs)); simpl;
    [reflexivity|apply write_prefix_extent].
Qed.

Lemma table_shaper_succeeds_with_enough_room (table : Stub.shaping_table)
    (paint : SkPaint) (chars : list Z) (start count contextCount : Z)
    (isRTL : bool) :
  Z.of_nat (length (fst (fst (table start count)))) < 2 ^ 30 ->
  succeeds_with_enough_room (shaper := Stub.table_shaper table)
    (request_of paint chars start count contextCount isRTL).
Proof.
  intros Hsmall it it' Hrq Hfail.
  assert (Hpos : HB.item_pos it = start /\ HB.item_length it = count).
  { unfold HB.request, request_of in Hrq. inversion Hrq. auto. }
  destruct Hpos as [Hp Hl].
  simpl in Hfail. unfold Stub.table_shape in Hfail. rewrite Hp, Hl in Hfail.
  destruct (table start count) as [[gs adv] lcs] eqn:T. simpl in Hsmall.
  destruct (HB.num_glyphs it <? Z.of_nat (length gs)); [|discriminate].
  inversion Hfail. subst it'. clear Hfail.
  split; [rewrite <- Hrq, <- Hp, <- Hl; reflexivity|].
  split; [simpl; lia|].
  intros it2 m Hrq2 (Hm & _) Hle. simpl in Hle.
  assert (Hpos2 : HB.item_pos it2 = start /\ HB.item_length it2 = count).
  { unfold HB.request, request_of in Hrq2. inversion Hrq2. auto. }
  destruct Hpos2 as [Hp2 Hl2].
  simpl. unfold Stub.table_shape. rewrite Hp2, Hl2, T, Hm.
  destruct (m <? Z.of_nat (length gs)) eqn:E; [|reflexivity].
  apply Z.ltb_lt in E. lia.
Qed.

End StubFacts.

Module Scenarios.
Import TextLayoutCacheValue BufferFacts StubFacts.

(** The glyph range of code units 1 and 2 of [Stub.artifact]. *)
Lemma getGlyphsIndexAndCount_range_witness :
  exists outStartIndex endIndex,
    getGlyphsIndexAndCount Stub.artifact 1 2
      = Ok (outStartIndex, endIndex - outStartIndex + 1) /\
    (largest_index_le [0; 1; 3] 0 3 1 outStartIndex \/
     (outStartIndex = 0 /\ no_index_le [0; 1; 3] 0 3 1)) /\
    (largest_index_le [0; 1; 3] 0 3 (1 + 2) endIndex \/
     (endIndex = 0 /\ no_index_le [0; 1; 3] 0 3 (1 + 2))).
Proof.
  apply (proj2 (AccessorFacts.getGlyphsIndexAndCount_range Stub.artifact 1 2
                  ltac:(simpl; lia) ltac:(vm_compute; reflexivity)
                  ltac:(lia) ltac:(lia) ltac:(lia))).
  lia.
Defined.

(** An artifact without glyphs answers the range [(0, 1)]. *)
Lemma getGlyphsIndexAndCount_at_least_one_witness :
  exists outStartIndex outGlyphsCount,
    getGlyphsIndexAndCount new 0 1 = Ok (outStartIndex, outGlyphsCount) /\
    1 <= outGlyphsCount /\
    (no_index_le [] 0 0 (0 + 1) -> (outStartIndex, outGlyphsCount) = (0, 1)) /\
    (@nil Z = [] -> (outStartIndex, outGlyphsCount) = (0, 1)).
Proof.
  apply (AccessorFacts.getGlyphsIndexAndCount_at_least_one new 0 1
           ltac:(simpl; lia) ltac:(vm_compute; reflexivity)
           ltac:(lia) ltac:(lia) ltac:(lia)).
Defined.

Lemma shaped_item_reads_in_range :
  forall i c, 0 <= i < Z.max 1 3 -> load [0; 1; 1] i = Ok c ->
              0 <= c < Z.of_nat (length [640; 320; 0; 0]).
Proof.
  intros i c Hi Hl.
  assert (Hcases : i = 0 \/ i = 1 \/ i = 2) by lia.
  destruct Hcases as [E|[E|E]]; subst i; vm_compute in Hl; inversion Hl;
    simpl; lia.
Qed.

(** The advances of the three code units of [Stub.shaped_item]. *)
Lemma project_advances_by_cluster_witness :
  exists totalAdvance advs' emitted,
    project_advances (growth := Stub.growth) Stub.shaped_item 3 Vector.empty
      = Ok (totalAdvance, advs') /\
    Vector.items advs' = [] ++ emitted /\
    Z.of_nat (length emitted) = Z.max 1 3 /\
    (forall c0 a0, load [0; 1; 1] 0 = Ok c0 ->
                   load [640; 320; 0; 0] c0 = Ok a0 ->
                   load emitted 0 = Ok (HBFixedToFloat a0)) /\
    (forall i p c, 1 <= i < 3 ->
       load [0; 1; 1] (i - 1) = Ok p -> load [0; 1; 1] i = Ok c ->
       (c = p -> load emitted i = Ok jfloat_zero) /\
       (c <> p -> forall a, load [640; 320; 0; 0] c = Ok a ->
                  load emitted i = Ok (HBFixedToFloat a))) /\
    (forall c0, load [0; 1; 1] 0 = Ok c0 ->
       totalAdvance
       = add_new_clusters c0 (firstn (Z.to_nat (3 - 1)) (skipn 1 [0; 1; 1]))
                          (skipn 1 emitted) (hd jfloat_zero emitted)) /\
    (forall isRTL gls lcs r,
       shaped_nothing Stub.shaped_item = false ->
       project_run (growth := Stub.growth) Stub.shaped_item 3 isRTL
         Vector.empty gls lcs
       = Ok r ->
       outAdvances r = advs' /\ outTotalAdvance r = totalAdvance).
Proof.
  apply (ProjectionFacts.project_advances_by_cluster (growth := Stub.growth)
           Stub.shaped_item
           [0; 1; 1] [640; 320; 0; 0] eq_refl eq_refl 3 Vector.empty
           ltac:(simpl; lia) shaped_item_reads_in_range).
Defined.



(** Six code units with a shaper that makes eighteen glyphs of them: the
    first guess of sixteen slots is short and one retry follows. *)
Lemma shapeWithHarfbuzz_grows_until_shaped_witness :
  exists hs its it0 h_final it_final,
    setupShaperItem Stub.store Stub.paint [65; 66; 67; 68; 69; 70] 0 6 6
      false = Ok (hs, its) /\
    sized_glyph_arrays its (2 * (6 + 2)) /\
    FreeStore.live hs = FreeStore.live Stub.store + 5 /\
    resetGlyphArrays its = Ok it0 /\
    fresh_glyph_arrays it0 (2 * (6 + 2)) /\
    HB.buffer_length (HB.log_clusters it0) = 6 /\
    (forall h' it it',
       HB.request it
       = request_of Stub.paint [65; 66; 67; 68; 69; 70] 0 6 6 false ->
       HB_ShapeItem (Shaper := Stub.prolific_shaper) it = (false, it') ->
       FreeStore.live (fst (deleteGlyphArrays h' it'))
       = FreeStore.live h' - live_glyph_arrays it' /\
       live_glyph_arrays (snd (deleteGlyphArrays h' it')) = 0 /\
       exists h2 it1 it2,
         createGlyphArrays (fst (deleteGlyphArrays h' it'))
           (snd (deleteGlyphArrays h' it')) (2 * HB.num_glyphs it')
         = Ok (h2, it1) /\
         sized_glyph_arrays it1 (2 * HB.num_glyphs it') /\
         resetGlyphArrays it1 = Ok it2 /\
         regrow h' it' = Ok (h2, it2) /\
         fresh_glyph_arrays it2 (2 * HB.num_glyphs it') /\
         FreeStore.live h2
         = FreeStore.live h' - live_glyph_arrays it' + 4 /\
         HB.log_clusters it2 = HB.log_clusters it' /\
         HB.request it2 = HB.request it') /\
    shapeWithHarfbuzz (shaper := Stub.prolific_shaper) Stub.store 2
      Stub.paint [65; 66; 67; 68; 69; 70] 0 6 6 false
    = Ok (h_final, it_final) /\
    ((HB_ShapeItem (Shaper := Stub.prolific_shaper) it0 = (true, it_final) /\
      h_final = hs) \/
     exists it' it2,
       HB_ShapeItem (Shaper := Stub.prolific_shaper) it0 = (false, it') /\
       regrow hs it' = Ok (h_final, it2) /\
       HB.num_glyphs it' <= HB.num_glyphs it2 /\
       HB.log_clusters it2 = HB.log_clusters it' /\
       HB_ShapeItem (Shaper := Stub.prolific_shaper) it2 = (true, it_final)).
Proof.
  apply (ShaperFacts.shapeWithHarfbuzz_grows_until_shaped
           (shaper := Stub.prolific_shaper) Stub.store 2 Stub.paint
           [65; 66; 67; 68; 69; 70] 0 6 6 false
           ltac:(lia) ltac:(lia)).
  apply table_shaper_succeeds_with_enough_room. vm_compute. reflexivity.
Defined.

(** A direction mode of left to right and no bidi engine: the run is shaped
    right to left all the same, and the glyphs come out reversed.  This is
    the code at the input where C2 fails. *)
Theorem computeValues_without_bidi_is_always_RTL :
  route_of (bidi_engine := Stub.no_bidi) [72; 105] 2 kBidi_LTR
  = Route_single true /\
  computeValuesWithHarfbuzz (growth := Stub.growth)
    (shaper := Stub.plain_shaper)
      (allocator := Stub.allocator) (bidi_engine := Stub.no_bidi)
    4 Stub.paint [72; 105] 2 kBidi_LTR new
  = single_run (growth := Stub.growth) (shaper := Stub.plain_shaper)
    (allocator := Stub.allocator)
      4 Stub.paint [72; 105] 2 true new /\
  (exists v,
     computeValuesWithHarfbuzz (growth := Stub.growth)
       (shaper := Stub.plain_shaper)
         (allocator := Stub.allocator) (bidi_engine := Stub.no_bidi)
       4 Stub.paint [72; 105] 2 kBidi_LTR new = Ok v /\
     Vector.items (mGlyphs v) = [101; 100]) /\
  (exists v,
     single_run (growth := Stub.growth) (shaper := Stub.plain_shaper)
       (allocator := Stub.allocator)
       4 Stub.paint [72; 105] 2 false new = Ok v /\
     Vector.items (mGlyphs v) = [100; 101]).
Proof.
  split; [reflexivity|]. split; [reflexivity|].
  split; eexists; (split; [vm_compute; reflexivity|reflexivity]).
Qed.

(** Five code units in two visual runs. *)
Lemma computeValues_advances_and_total_witness :
  exists v,
    computeValues (growth := Stub.growth) (shaper := Stub.plain_shaper)
      (allocator := Stub.allocator)
      (bidi_engine := Stub.mixed_bidi) 4
      Stub.paint [65; 66; 67; 68; 69] 5 kBidi_RTL new = Ok v /\
    Vector.size (mAdvances v) = 5 /\
    mTotalAdvance v = HBFixedToFloat 3200.
Proof.
  eexists. split; [vm_compute; reflexivity|].
  split; [|vm_compute; reflexivity].
  apply (DriverFacts.computeValues_advances_and_total (growth := Stub.growth)
           (shaper := Stub.plain_shaper) (allocator := Stub.allocator)
           (bidi_engine := Stub.mixed_bidi) 4 Stub.paint
           [65; 66; 67; 68; 69] 5 kBidi_RTL).
  - lia.
  - intros _. apply table_shaper_writes_in_place.
  - intros E. vm_compute in E. discriminate.
  - intros bidi rc E. vm_compute in E. inversion E. subst bidi rc.
    split; [vm_compute; repeat constructor|vm_compute; reflexivity].
  - vm_compute. reflexivity.
Defined.

(** [ubidi_setPara] fails with a status of 7 on two code units, the direction
    mode being left to right. *)
Lemma computeValues_shapes_nothing_when_setPara_fails_witness :
  exists v,
    computeValues (growth := Stub.growth) (shaper := Stub.plain_shaper)
      (allocator := Stub.allocator) (bidi_engine := Stub.failing_bidi) 4
      Stub.paint [72; 105] 2 kBidi_LTR new = Ok v /\
    route_of (bidi_engine := Stub.failing_bidi) [72; 105] 2 kBidi_LTR
    = Route_none /\
    Vector.items (mAdvances v) = [] /\
    Vector.items (mGlyphs v) = [] /\
    Vector.items (mLogClusters v) = [] /\
    mTotalAdvance v = jfloat_zero /\
    (0 < 2 -> Vector.size (mAdvances v) <> 2) /\
    (0 < 2 < 2 ^ 32 -> getTotalAdvance v 0 2 = Err OutOfBounds).
Proof.
  apply (DriverFacts.computeValues_shapes_nothing_when_setPara_fails
           (growth := Stub.growth) (shaper := Stub.plain_shaper)
           (allocator := Stub.allocator) (bidi_engine := Stub.failing_bidi)
           4 Stub.paint [72; 105] 2 kBidi_LTR);
    [vm_compute; discriminate | vm_compute; discriminate
     | reflexivity | reflexivity].
Defined.

(** What the two other failures of the bidi engine do with the same input:
    a run over the two code units, with an advance for each. *)
Example other_bidi_failures_shape_a_single_run :
  (exists v,
     computeValues (growth := Stub.growth) (shaper := Stub.plain_shaper)
       (allocator := Stub.allocator) (bidi_engine := Stub.no_bidi) 4
       Stub.paint [72; 105] 2 kBidi_LTR new = Ok v /\
     Vector.size (mAdvances v) = 2) /\
  (exists v,
     computeValues (growth := Stub.growth) (shaper := Stub.plain_shaper)
       (allocator := Stub.allocator)
       (bidi_engine := Stub.failing_countRuns_bidi) 4
       Stub.paint [72; 105] 2 kBidi_LTR new = Ok v /\
     Vector.size (mAdvances v) = 2).
Proof.
  split; eexists; (split; [vm_compute; reflexivity|reflexivity]).
Qed.

(** Three code units forced right to left: the glyphs are appended in
    reverse, the advances stay in logical order, and the total is their sum. *)
Example forced_RTL_reverses_glyphs :
  exists v,
    computeValues (growth := Stub.growth)
      (shaper := Stub.plain_shaper) (allocator := Stub.allocator)
      (bidi_engine := Stub.ltr_bidi) 4 Stub.paint [1575; 1604; 1605] 3
      kBidi_Force_RTL new = Ok v /\
    Vector.items (mGlyphs v) = [102; 101; 100] /\
    Vector.items (mAdvances v)
    = [HBFixedToFloat 640; HBFixedToFloat 640; HBFixedToFloat 640] /\
    mTotalAdvance v = HBFixedToFloat 1920.
Proof.
  eexists. split; [vm_compute; reflexivity|].
  split; [reflexivity|]. split; vm_compute; reflexivity.
Qed.

(** Two code units shaped into one ligature glyph: the second advance is 0
    and the total is the width of the ligature. *)
Example ligature_shares_its_cluster :
  exists v,
    computeValues (growth := Stub.growth)
      (shaper := Stub.ligature_shaper) (allocator := Stub.allocator)
      (bidi_engine := Stub.ltr_bidi) 4 Stub.paint [65; 66] 2 kBidi_LTR new
    = Ok v /\
    Vector.items (mGlyphs v) = [500] /\
    Vector.items (mAdvances v) = [HBFixedToFloat 768; jfloat_zero] /\
    mTotalAdvance v = HBFixedToFloat 768.
Proof.
  eexists. split; [vm_compute; reflexivity|].
  split; [reflexivity|]. split; vm_compute; reflexivity.
Qed.

(** Eighteen glyphs for six code units: the shaping succeeds after one
    retry, and the projection then reads log clusters past the six entries
    of their buffer. *)
Example more_glyphs_than_code_units_leave_the_buffer :
  computeValues (growth := Stub.growth)
    (shaper := Stub.prolific_shaper) (allocator := Stub.allocator)
    (bidi_engine := Stub.ltr_bidi) 4 Stub.paint [65; 66; 67; 68; 69; 70] 6
    kBidi_LTR new = Err OutOfBounds.
Proof. vm_compute. reflexivity. Qed.

End Scenarios.

Module CacheScenarios.
Import TextLayoutCache.

(** A budget of 32 bytes and an entry of 140: the caller gets the null
    handle. *)
Lemma getValue_oversize_is_not_kept_witness :
  getValue (sizes := Stub.sizes) (growth := Stub.growth)
      (shaper := Stub.plain_shaper)
        (allocator := Stub.allocator) (bidi_engine := Stub.ltr_bidi) 4
    Stub.paint [72; 105] 2 kBidi_LTR (Stub.empty_cache 32)
  = Ok (sp_NULL, Stub.empty_cache 32).
Proof.
  eapply (CacheFacts.getValue_oversize_is_not_kept (sizes := Stub.sizes)
            (growth := Stub.growth) (shaper := Stub.plain_shaper)
              (allocator := Stub.allocator)
            (bidi_engine := Stub.ltr_bidi) 4 Stub.paint
            [72; 105] 2 kBidi_LTR (Stub.empty_cache 32)).
  - reflexivity.
  - vm_compute. reflexivity.
  - vm_compute. reflexivity.
Defined.

(** C1 as stated fails: the artifact is computed, its entry is larger than
    the budget, and what [getValue] returns is not the artifact. *)
Lemma getValue_oversize_returns_no_artifact :
  exists value,
    TextLayoutCacheValue.computeValues (growth := Stub.growth)
      (shaper := Stub.plain_shaper)
        (allocator := Stub.allocator) (bidi_engine := Stub.ltr_bidi)
      4 Stub.paint [72; 105] (u32 2) kBidi_LTR
      TextLayoutCacheValue.new = Ok value /\
    mMaxSize (Stub.empty_cache 32)
    < u32 (TextLayoutCacheKey.getSize (sizes := Stub.sizes)
             (TextLayoutCacheKey.make Stub.paint [72; 105] (u32 2) kBidi_LTR)
           + TextLayoutCacheValue.getSize (sizes := Stub.sizes) value) /\
    getValue (sizes := Stub.sizes) (growth := Stub.growth)
      (shaper := Stub.plain_shaper)
        (allocator := Stub.allocator) (bidi_engine := Stub.ltr_bidi) 4
      Stub.paint [72; 105] 2 kBidi_LTR (Stub.empty_cache 32)
    <> Ok (Some value, Stub.empty_cache 32).
Proof.
  eexists. split; [vm_compute; reflexivity|].
  split; [vm_compute; reflexivity|]. vm_compute. discriminate.
Qed.

(** Two entries of 140 bytes under a budget of 300: lowering the budget to
    200 evicts the older one. *)
Lemma budget_is_kept_witness :
  let c := Stub.after_getValue [74; 75]
             (Stub.after_getValue [72; 105] (Stub.empty_cache 300)) in
  within_budget (sizes := Stub.sizes) c /\
  exists c' evicted,
    setMaxSize (sizes := Stub.sizes) 3 200 c = Ok c' /\
    within_budget (sizes := Stub.sizes) c' /\
    mMaxSize c' = 200 /\ mSize c' <= 200 /\
    mCache c = evicted ++ mCache c' /\
    mSize c' = mSize c - accounted_bytes (sizes := Stub.sizes) evicted.
Proof.
  intros c.
  assert (Hb : within_budget (sizes := Stub.sizes) c).
  { split; [vm_compute; reflexivity|vm_compute; discriminate]. }
  split; [exact Hb|].
  apply (proj1 (proj2 (CacheFacts.budget_is_kept (sizes := Stub.sizes)
                         (growth := Stub.growth) (shaper := Stub.plain_shaper)
                           (allocator := Stub.allocator)
                         (bidi_engine := Stub.ltr_bidi) c
                         Hb ltac:(vm_compute; reflexivity)))).
  - lia.
  - vm_compute. lia.
Defined.

(** Three entries of 140 bytes under a budget of 300: admitting the third
    evicts the first, and 280 bytes are accounted. *)
Example third_entry_evicts_the_first :
  let c := Stub.after_getValue [76; 77]
             (Stub.after_getValue [74; 75]
                (Stub.after_getValue [72; 105] (Stub.empty_cache 300))) in
  map (fun e => TextLayoutCacheKey.textCopy (fst e)) (mCache c)
  = [[74; 75]; [76; 77]] /\
  mSize c = 280.
Proof. split; vm_compute; reflexivity. Qed.

(** [ubidi_setPara] fails while two code units are computed: the artifact
    without advances is admitted to the cache, and the same request is later
    answered with it although the bidi engine works by then. *)
Example setPara_failure_is_cached :
  exists v c,
    getValue (sizes := Stub.sizes) (growth := Stub.growth)
      (shaper := Stub.plain_shaper) (allocator := Stub.allocator)
      (bidi_engine := Stub.failing_bidi) 4
      Stub.paint [72; 105] 2 kBidi_LTR (Stub.empty_cache 300)
    = Ok (Some v, c) /\
    Vector.items (TextLayoutCacheValue.mAdvances v) = [] /\
    length (mCache c) = 1%nat /\
    fst (Stub.lookup [72; 105] c) = Some v.
Proof.
  do 2 eexists. split; [vm_compute; reflexivity|].
  split; [reflexivity|]. split; reflexivity.
Qed.

(** The same request twice: the second call is a hit on the key that was
    copied into the store, and nothing is added. *)
Example second_request_is_a_hit :
  let c := Stub.after_getValue [72; 105]
             (Stub.after_getValue [72; 105] (Stub.empty_cache 300)) in
  length (mCache c) = 1%nat /\ mSize c = 140 /\ mCacheHitCount c = 1.
Proof. repeat split; vm_compute; reflexivity. Qed.

End CacheScenarios.

(** * The text a key carries *)

Module KeyTextFacts.
Import TextLayoutCacheKey BufferFacts KeyFacts.

Lemma bytes_of_units_firstn (us : list Z) :
  forall k : nat,
    bytes_of_units (firstn k us) = firstn (2 * k) (bytes_of_units us).
Proof.
  induction us as [|u us IH]; intros [|k]; try reflexivity.
  replace (2 * S k)%nat with (S (S (2 * k))) by lia.
  cbn [firstn bytes_of_units flat_map app]. f_equal. f_equal.
  apply (IH k).
Qed.

(** [memcmp] looks at no more than the first [n] bytes of its buffers. *)
Lemma memcmp_firstn_l (n : nat) :
  forall (m : nat) (s1 s2 : list Z),
    (n <= m)%nat -> memcmp (firstn m s1) s2 n = memcmp s1 s2 n.
Proof.
  induction n as [|n IH]; intros m s1 s2 Hm; [reflexivity|].
  destruct m as [|m]; [lia|].
  destruct s1 as [|b1 r1], s2 as [|b2 r2]; try reflexivity.
  cbn [firstn memcmp]. rewrite IH by lia. reflexivity.
Qed.

Lemma memcmp_firstn_r (n : nat) :
  forall (m : nat) (s1 s2 : list Z),
    (n <= m)%nat -> memcmp s1 (firstn m s2) n = memcmp s1 s2 n.
Proof.
  intros m s1 s2 Hm.
  rewrite (memcmp_antisym n (firstn m s2) s1), memcmp_firstn_l by exact Hm.
  rewrite (memcmp_antisym n s1 s2). lia.
Qed.

Lemma getText_internalTextCopy (k : t) (p : list Z) :
  text k = Some p ->
  getText (internalTextCopy k) = firstn (Z.to_nat (count k)) p.
Proof.
  intros Hp. unfold getText, internalTextCopy. cbn [text textCopy].
  rewrite Hp. reflexivity.
Qed.

(** The bytes [operator<] compares are the same before and after the copy,
    for a right-hand side of the same length. *)
Lemma memcmp_text_internalTextCopy (k rhs : t) (p : list Z) :
  text k = Some p -> 0 <= count k < 2 ^ 31 ->
  memcmp_text (internalTextCopy k) rhs = memcmp_text k rhs /\
  (count rhs = count k ->
   memcmp_text rhs (internalTextCopy k) = memcmp_text rhs k).
Proof.
  intros Hp Hc. unfold memcmp_text.
  rewrite (getText_internalTextCopy k p Hp).
  assert (Hk : getText k = p) by (unfold getText; rewrite Hp; reflexivity).
  rewrite Hk. cbn [internalTextCopy count].
  assert (Hn : Z.to_nat (u32 (count k * sizeof_UChar))
               = (2 * Z.to_nat (count k))%nat).
  { unfold sizeof_UChar. rewrite u32_small by lia. lia. }
  rewrite bytes_of_units_firstn. split.
  - rewrite Hn. apply memcmp_firstn_l. lia.
  - intros Hr. rewrite Hr, Hn. apply memcmp_firstn_r. lia.
Qed.

(** The lexicographic product does not tell a key from its copy. *)
Lemma lt_internalTextCopy (k rhs : t) (p : list Z) :
  text k = Some p -> 0 <= count k < 2 ^ 31 ->
  lt (internalTextCopy k) rhs = lt k rhs /\
  lt rhs (internalTextCopy k) = lt rhs k.
Proof.
  intros Hp Hc.
  destruct (memcmp_text_internalTextCopy k rhs p Hp Hc) as [Hl Hr].
  rewrite !lt_unfold. unfold code_field_order.
  cbn [lex_lt field_lt field_eq]. rewrite Hl.
  cbn [internalTextCopy count typeface textSize textSkewX textScaleX
       flags hinting dirFlags].
  split; [reflexivity|].
  destruct (count rhs =? count k) eqn:E.
  - apply Z.eqb_eq in E. rewrite (Hr E). reflexivity.
  - rewrite !andb_false_l. reflexivity.
Qed.

Lemma equiv_internalTextCopy (k : t) (p : list Z) :
  text k = Some p -> 0 <= count k < 2 ^ 31 ->
  equiv k (internalTextCopy k) = true.
Proof.
  intros Hp Hc. unfold equiv.
  destruct (lt_internalTextCopy k k p Hp Hc) as [Hl Hr].
  rewrite Hr, Hl, lt_unfold, lex_lt_irrefl. reflexivity.
Qed.

(** X1.  [internalTextCopy] turns a key that borrows the caller's text into
    one that owns the first [count] code units of it, and the copy takes the
    place of the key in the order: it compares as the key does, on either
    side of [operator<], against every key, and is equivalent to it. *)
Theorem internalTextCopy_keeps_the_order (k rhs : t) (p : list Z) :
  text k = Some p -> 0 <= count k < 2 ^ 31 ->
  count k <= Z.of_nat (length p) ->
  text (internalTextCopy k) = None /\
  getText (internalTextCopy k) = firstn (Z.to_nat (count k)) p /\
  Z.of_nat (length (getText (internalTextCopy k))) = count k /\
  lt (internalTextCopy k) rhs = lt k rhs /\
  lt rhs (internalTextCopy k) = lt rhs k /\
  equiv k (internalTextCopy k) = true.
Proof.
  intros Hp Hc Hlen.
  split; [reflexivity|].
  split; [apply getText_internalTextCopy; exact Hp|].
  split.
  { rewrite (getText_internalTextCopy k p Hp), length_firstn. lia. }
  destruct (lt_internalTextCopy k rhs p Hp Hc) as [Hl Hr].
  split; [exact Hl|]. split; [exact Hr|].
  apply (equiv_internalTextCopy k p Hp Hc).
Qed.

(** The key [getValue] builds for two code units, against [Stub.key_a]. *)
Lemma internalTextCopy_keeps_the_order_witness :
  let k := make Stub.paint [72; 105; 33] 2 kBidi_LTR in
  text (internalTextCopy k) = None /\
  getText (internalTextCopy k) = firstn (Z.to_nat (count k)) [72; 105; 33] /\
  Z.of_nat (length (getText (internalTextCopy k))) = count k /\
  lt (internalTextCopy k) Stub.key_a = lt k Stub.key_a /\
  lt Stub.key_a (internalTextCopy k) = lt Stub.key_a k /\
  equiv k (internalTextCopy k) = true.
Proof.
  intros k.
  apply (internalTextCopy_keeps_the_order k Stub.key_a [72; 105; 33]);
    [reflexivity | simpl; lia | simpl; lia].
Defined.

End KeyTextFacts.

Module KeyMatchFacts.
Import TextLayoutCacheKey BufferFacts KeyFacts.

(** Two 16-bit units with the same two bytes are the same unit. *)
Lemma unit_of_bytes (u v : Z) :
  0 <= u < 2 ^ 16 -> 0 <= v < 2 ^ 16 ->
  u mod 256 = v mod 256 -> u / 256 = v / 256 -> u = v.
Proof.
  intros Hu Hv Hlo Hhi.
  rewrite (Z.div_mod u 256), (Z.div_mod v 256) by lia. lia.
Qed.

(** [memcmp] over the bytes of [n] units answers 0 exactly when the units are
    the same. *)
Lemma memcmp_units_zero :
  forall (n : nat) (us vs : list Z),
    (n <= length us)%nat -> (n <= length vs)%nat ->
    Forall (fun u => 0 <= u < 2 ^ 16) us ->
    Forall (fun u => 0 <= u < 2 ^ 16) vs ->
    (memcmp (bytes_of_units us) (bytes_of_units vs) (2 * n) = 0
     <-> firstn n us = firstn n vs).
Proof.
  induction n as [|n IH]; intros us vs Hus Hvs Fu Fv.
  - simpl. split; reflexivity.
  - destruct us as [|u us]; [simpl in Hus; lia|].
    destruct vs as [|v vs]; [simpl in Hvs; lia|].
    inversion Fu as [|? ? Hu Fu']. inversion Fv as [|? ? Hv Fv']. subst.
    simpl in Hus, Hvs.
    specialize (IH us vs ltac:(lia) ltac:(lia) Fu' Fv').
    replace (2 * S n)%nat with (S (S (2 * n))) by lia.
    cbn [bytes_of_units flat_map app memcmp firstn].
    change (flat_map (fun u0 => [u16 u0 mod 256; u16 u0 / 256]) us)
      with (bytes_of_units us).
    change (flat_map (fun u0 => [u16 u0 mod 256; u16 u0 / 256]) vs)
      with (bytes_of_units vs).
    assert (Eu : u16 u = u) by (unfold u16; apply Z.mod_small; lia).
    assert (Ev : u16 v = v) by (unfold u16; apply Z.mod_small; lia).
    rewrite Eu, Ev.
    destruct (u mod 256 <? v mod 256) eqn:L1.
    { apply Z.ltb_lt in L1. split; [lia|].
      intros E. inversion E. subst. lia. }
    destruct (v mod 256 <? u mod 256) eqn:L2.
    { apply Z.ltb_lt in L2. split; [lia|].
      intros E. inversion E. subst. lia. }
    apply Z.ltb_ge in L1, L2.
    destruct (u / 256 <? v / 256) eqn:H1.
    { apply Z.ltb_lt in H1. split; [lia|].
      intros E. inversion E. subst. lia. }
    destruct (v / 256 <? u / 256) eqn:H2.
    { apply Z.ltb_lt in H2. split; [lia|].
      intros E. inversion E. subst. lia. }
    apply Z.ltb_ge in H1, H2.
    assert (u = v) by (apply unit_of_bytes; lia). subst v.
    rewrite IH. split; intros E; [rewrite E; reflexivity|].
    inversion E. reflexivity.
Qed.

(** X2.  Which keys [operator<] does not tell apart.  Take keys whose floats
    are not NaN and whose texts hold [count] code units of 16 bits.  When
    neither is before the other they have the same length, typeface, flags,
    hinting and direction mode and the same code units: a key finds in the
    store only an entry made for the very text it describes.  And keys that
    agree in these and have floats that compare equal are not told apart. *)
Theorem equivalent_keys_have_the_same_text (a b : t) :
  no_nan a -> no_nan b ->
  0 <= count a < 2 ^ 31 ->
  count a <= Z.of_nat (length (getText a)) ->
  count b <= Z.of_nat (length (getText b)) ->
  Forall (fun u => 0 <= u < 2 ^ 16) (getText a) ->
  Forall (fun u => 0 <= u < 2 ^ 16) (getText b) ->
  (equiv a b = true ->
   count a = count b /\ typeface a = typeface b /\
   flags a = flags b /\ hinting a = hinting b /\ dirFlags a = dirFlags b /\
   firstn (Z.to_nat (count a)) (getText a)
   = firstn (Z.to_nat (count b)) (getText b)) /\
  (count a = count b -> typeface a = typeface b ->
   jfloat_eq (textSize a) (textSize b) = true ->
   jfloat_eq (textSkewX a) (textSkewX b) = true ->
   jfloat_eq (textScaleX a) (textScaleX b) = true ->
   flags a = flags b -> hinting a = hinting b -> dirFlags a = dirFlags b ->
   firstn (Z.to_nat (count a)) (getText a)
   = firstn (Z.to_nat (count b)) (getText b) ->
   equiv a b = true).
Proof.
  intros Na Nb Hc Hla Hlb Fa Fb.
  assert (Hmem : count a = count b ->
                 ((memcmp_text a b =? 0) = true
                  <-> firstn (Z.to_nat (count a)) (getText a)
                      = firstn (Z.to_nat (count b)) (getText b))).
  { intros E. rewrite <- E. unfold memcmp_text, sizeof_UChar.
    rewrite u32_small by lia.
    replace (Z.to_nat (count a * 2)) with (2 * Z.to_nat (count a))%nat
      by lia.
    rewrite Z.eqb_eq. apply memcmp_units_zero; try assumption; lia. }
  unfold equiv. rewrite !lt_unfold. split.
  - intros He. apply andb_true_iff in He as [H1 H2].
    apply negb_true_iff in H1, H2.
    assert (E : count a = count b).
    { cbn [code_field_order lex_lt field_lt] in H1, H2.
      apply orb_false_iff in H1 as [H1 _], H2 as [H2 _].
      apply Z.ltb_ge in H1, H2. lia. }
    pose proof (lex_lt_neither code_field_order a b E Na Nb H1 H2) as Hall.
    cbn [code_field_order forallb field_eq] in Hall.
    repeat (apply andb_true_iff in Hall as [?H Hall]).
    repeat match goal with
           | H : (_ =? _) = true |- _ =>
               first [apply Z.eqb_eq in H | fail 1]
           end.
    repeat split; try assumption.
    apply Hmem; [assumption|]. apply Z.eqb_eq. assumption.
  - intros E Ht Hs Hk Hx Hf Hh Hd Htext.
    assert (Hall : forallb (fun f => field_eq f a b) code_field_order = true).
    { cbn [code_field_order forallb field_eq].
      rewrite E, Ht, Hs, Hk, Hx, Hf, Hh, Hd, !Z.eqb_refl.
      cbn [andb]. rewrite andb_true_r. apply Hmem; [exact E|exact Htext]. }
    destruct (lex_lt_all_eq code_field_order a b E Hall) as [H1 H2].
    rewrite H1, H2. reflexivity.
Qed.

(** A key that borrows three code units, of which it counts two, and the key
    that owns those two. *)
Lemma equivalent_keys_have_the_same_text_witness :
  let a := make Stub.paint [72; 105; 33] 2 kBidi_LTR in
  let b := internalTextCopy (make Stub.paint [72; 105] 2 kBidi_LTR) in
  equiv a b = true /\
  firstn (Z.to_nat (count a)) (getText a)
  = firstn (Z.to_nat (count b)) (getText b).
Proof.
  intros a b.
  assert (Hab : equiv a b = true) by (vm_compute; reflexivity).
  split; [exact Hab|].
  apply (equivalent_keys_have_the_same_text a b);
    try (repeat split; reflexivity);
    try (simpl; lia);
    try exact Hab;
    repeat constructor; lia.
Defined.

End KeyMatchFacts.

(** * Glyphs of a run and of an artifact *)

Module GlyphFacts.
Import TextLayoutCacheValue BufferFacts ProjectionFacts.

Section OneItem.
Context {growth : Vector.Growth}.
Variable it : HB.ShaperItem.

(** Left to right the loop reads the glyphs upwards. *)
Lemma glyphs_loop_forward (g : list Z) (countGlyphs : Z) :
  HB.glyphs it = Some g ->
  forall (n i : nat) (out : Vector.t Z),
    (i + n <= length g)%nat ->
    exists out',
      glyphs_loop it false countGlyphs (Z.of_nat i) n out = Ok out' /\
      Vector.items out'
      = Vector.items out ++ map u16 (firstn n (skipn i g)).
Proof.
  intros Hg. induction n as [|n IH]; intros i out Hn.
  - exists out. simpl. rewrite app_nil_r. split; reflexivity.
  - destruct (nth_error g i) as [x|] eqn:Nx;
      [|apply nth_error_None in Nx; lia].
    cbn [glyphs_loop negb]. unfold HB.deref. rewrite Hg.
    rewrite (load_nth g i x Nx). cbn [bind].
    replace (Z.of_nat i + 1) with (Z.of_nat (S i)) by lia.
    destruct (IH (S i) (Vector.add (u16 x) out)) as (out' & Hr & Hit); [lia|].
    exists out'. split; [exact Hr|].
    rewrite Hit, items_add, <- app_assoc, (skipn_nth_error g i x Nx).
    reflexivity.
Qed.

Lemma firstn_snoc {A : Type} (l : list A) (n : nat) (x : A) :
  nth_error l n = Some x -> firstn (S n) l = firstn n l ++ [x].
Proof.
  revert l. induction n as [|n IH]; intros [|a l] N; simpl in *;
    try discriminate.
  - inversion N. reflexivity.
  - f_equal. apply IH. exact N.
Qed.

(** Right to left it reads them downwards from [countGlyphs - 1]. *)
Lemma glyphs_loop_backward (g : list Z) (countGlyphs : nat) :
  HB.glyphs it = Some g ->
  forall (n i : nat) (out : Vector.t Z),
    (i + n = countGlyphs)%nat -> (countGlyphs <= length g)%nat ->
    exists out',
      glyphs_loop it true (Z.of_nat countGlyphs) (Z.of_nat i) n out
      = Ok out' /\
      Vector.items out' = Vector.items out ++ map u16 (rev (firstn n g)).
Proof.
  intros Hg. induction n as [|n IH]; intros i out Hn Hlen.
  - exists out. simpl. rewrite app_nil_r. split; reflexivity.
  - destruct (nth_error g n) as [x|] eqn:Nx;
      [|apply nth_error_None in Nx; lia].
    cbn [glyphs_loop negb]. unfold HB.deref. rewrite Hg.
    replace (Z.of_nat countGlyphs - 1 - Z.of_nat i) with (Z.of_nat n) by lia.
    rewrite (load_nth g n x Nx). cbn [bind].
    replace (Z.of_nat i + 1) with (Z.of_nat (S i)) by lia.
    destruct (IH (S i) (Vector.add (u16 x) out)) as (out' & Hr & Hit);
      [lia|exact Hlen|].
    exists out'. split; [exact Hr|].
    rewrite Hit, items_add, <- app_assoc, (firstn_snoc g n x Nx).
    rewrite rev_app_distr. reflexivity.
Qed.

(** X3.  The glyphs a shaped run appends are the glyph numbers the shaper
    left, reduced to 16 bits: in the shaper's order for a left-to-right run,
    in the reverse order for a right-to-left run. *)
Theorem project_glyphs_reverses_RTL (isRTL : bool) (gls : Vector.t Z)
    (g : list Z) :
  HB.glyphs it = Some g ->
  0 <= HB.num_glyphs it <= Z.of_nat (length g) ->
  exists gls',
    project_glyphs it isRTL gls = Ok gls' /\
    Vector.items gls'
    = Vector.items gls
      ++ (if isRTL
          then rev (map u16 (firstn (Z.to_nat (HB.num_glyphs it)) g))
          else map u16 (firstn (Z.to_nat (HB.num_glyphs it)) g)) /\
    (forall count advs lcs r,
       shaped_nothing it = false ->
       project_run it count isRTL advs gls lcs = Ok r ->
       outGlyphs r = gls').
Proof.
  intros Hg Hn. unfold project_glyphs.
  assert (Hrun : exists gls',
             glyphs_loop it isRTL (HB.num_glyphs it) 0
                         (Z.to_nat (HB.num_glyphs it)) gls = Ok gls' /\
             Vector.items gls'
             = Vector.items gls
               ++ (if isRTL
                   then rev (map u16 (firstn (Z.to_nat (HB.num_glyphs it)) g))
                   else map u16 (firstn (Z.to_nat (HB.num_glyphs it)) g))).
  { destruct isRTL.
    - destruct (glyphs_loop_backward g (Z.to_nat (HB.num_glyphs it)) Hg
                  (Z.to_nat (HB.num_glyphs it)) 0 gls) as (gls' & Hr & Hit);
        [lia|lia|].
      rewrite Z2Nat.id in Hr by lia. change (Z.of_nat 0) with 0 in Hr.
      exists gls'. split; [exact Hr|]. rewrite Hit, map_rev. reflexivity.
    - destruct (glyphs_loop_forward g (HB.num_glyphs it) Hg
                  (Z.to_nat (HB.num_glyphs it)) 0 gls) as (gls' & Hr & Hit);
        [lia|].
      change (Z.of_nat 0) with 0 in Hr. simpl skipn in Hit.
      exists gls'. split; [exact Hr|exact Hit]. }
  destruct Hrun as (gls' & Hr & Hit).
  exists gls'. split; [exact Hr|]. split; [exact Hit|].
  intros count advs lcs r Hnot Hproj.
  unfold project_run in Hproj. rewrite Hnot in Hproj.
  destruct (project_advances it count advs) as [[tot advs']|]; [|discriminate].
  cbn [bind] in Hproj. unfold project_glyphs in Hproj. rewrite Hr in Hproj.
  cbn [bind] in Hproj.
  destruct (project_logClusters it lcs); [|discriminate].
  cbn [bind] in Hproj. inversion Hproj. reflexivity.
Qed.

(** The log clusters a run appends, whatever the shaper left. *)
Lemma logClusters_loop_length (countLogClusters : Z) :
  forall (n : nat) (i : Z) (out out' : Vector.t Z),
    logClusters_loop it countLogClusters i n out = Ok out' ->
    exists seg, Vector.items out' = Vector.items out ++ seg /\ length seg = n.
Proof.
  induction n as [|n IH]; intros i out out' Hr.
  - inversion Hr. exists []. rewrite app_nil_r. split; reflexivity.
  - cbn [logClusters_loop] in Hr.
    destruct (HB.deref (HB.log_clusters it) i) as [c|]; [|discriminate].
    cbn [bind] in Hr. destruct (IH _ _ _ Hr) as (seg & Hit & Hlen).
    exists (u16 (c + countLogClusters) :: seg). split; [|simpl; lia].
    rewrite Hit, items_add, <- app_assoc. reflexivity.
Qed.

(** A run appends as many log clusters as glyphs. *)
Lemma project_run_pairs (count : Z) (isRTL : bool) (advs : Vector.t jfloat)
    (gls lcs : Vector.t Z) (r : run_output) :
  project_run it count isRTL advs gls lcs = Ok r ->
  exists n : nat,
    length (Vector.items (outGlyphs r))
    = (length (Vector.items gls) + n)%nat /\
    length (Vector.items (outLogClusters r))
    = (length (Vector.items lcs) + n)%nat.
Proof.
  unfold project_run. destruct (shaped_nothing it).
  - intros E. inversion E. exists 0%nat. cbn [outGlyphs outLogClusters].
    split; lia.
  - destruct (project_advances it count advs) as [[tot advs']|];
      [|discriminate].
    cbn [bind].
    destruct (project_glyphs it isRTL gls) as [gls'|] eqn:Hg; [|discriminate].
    cbn [bind].
    destruct (project_logClusters it lcs) as [lcs'|] eqn:Hl; [|discriminate].
    cbn [bind]. intros E. inversion E. cbn [outGlyphs outLogClusters].
    destruct (glyphs_loop_length it _ _ _ _ _ _ Hg) as (sg & Hsg & Lg).
    destruct (logClusters_loop_length _ _ _ _ _ Hl) as (sl & Hsl & Ll).
    exists (Z.to_nat (HB.num_glyphs it)).
    rewrite Hsg, Hsl, !length_app. lia.
Qed.

End OneItem.
End GlyphFacts.

(** * The artifact as a whole *)

Module ArtifactFacts.
Import TextLayoutCacheValue BufferFacts ProjectionFacts FloatFacts
       DriverFacts AccessorFacts GlyphFacts.

Section WithShaper.
Context {growth : Vector.Growth} {shaper : Shaper} {allocator : Allocator}.

Lemma computeRun_pairs (fuel : nat) (paint : SkPaint) (chars : list Z)
    (start count contextCount : Z) (isRTL : bool)
    (advs : Vector.t jfloat) (gls lcs : Vector.t Z) (r : run_output) :
  computeRunValuesWithHarfbuzz fuel paint chars start count contextCount
    isRTL advs gls lcs = Ok r ->
  length (Vector.items gls) = length (Vector.items lcs) ->
  length (Vector.items (outGlyphs r))
  = length (Vector.items (outLogClusters r)).
Proof.
  unfold computeRunValuesWithHarfbuzz.
  destruct (shapeWithHarfbuzz free_store fuel paint chars start count
              contextCount isRTL) as [[h it]|]; [|discriminate].
  cbn [bind]. intros Hp Heq.
  destruct (project_run_pairs it _ _ _ _ _ _ Hp) as (n & Hg & Hl). lia.
Qed.

(** X4.  When the shaper leaves no glyph for a run, or no advances, the run
    appends a zero advance for each of its [count] code units and reports a
    total of zero; no glyph and no log cluster is appended. *)
Theorem run_without_glyphs_appends_zero_advances (fuel : nat)
    (paint : SkPaint) (chars : list Z) (start count contextCount : Z)
    (isRTL : bool) (advs : Vector.t jfloat) (gls lcs : Vector.t Z)
    (h : FreeStore.t) (it : HB.ShaperItem) :
  shapeWithHarfbuzz free_store fuel paint chars start count contextCount
    isRTL = Ok (h, it) ->
  HB.advances it = None \/ HB.num_glyphs it = 0 ->
  exists r,
    computeRunValuesWithHarfbuzz fuel paint chars start count contextCount
      isRTL advs gls lcs = Ok r /\
    Vector.items (outAdvances r)
    = Vector.items advs ++ repeat jfloat_zero (Z.to_nat count) /\
    outTotalAdvance r = jfloat_zero /\
    outGlyphs r = gls /\ outLogClusters r = lcs.
Proof.
  intros Hs Hnone. unfold computeRunValuesWithHarfbuzz. rewrite Hs.
  cbn [bind]. unfold project_run.
  assert (Hn : shaped_nothing it = true).
  { unfold shaped_nothing. destruct Hnone as [-> | Hz]; [reflexivity|].
    destruct (HB.advances it); [|reflexivity].
    rewrite Hz. reflexivity. }
  rewrite Hn. eexists. split; [reflexivity|].
  cbn [outAdvances outTotalAdvance outGlyphs outLogClusters].
  split; [apply items_insertAt_end|]. repeat split.
Qed.

Section WithBidi.
Context {bidi_engine : BidiEngine}.

Lemma single_run_pairs (fuel : nat) (paint : SkPaint) (chars : list Z)
    (contextCount : Z) (isRTL : bool) (v v' : t) :
  single_run fuel paint chars contextCount isRTL v = Ok v' ->
  paired v -> paired v'.
Proof.
  unfold single_run, paired.
  destruct (computeRunValuesWithHarfbuzz fuel paint chars 0 contextCount
              contextCount isRTL (mAdvances v) (mGlyphs v) (mLogClusters v))
    as [r|] eqn:Hr; [|discriminate].
  cbn [bind]. intros E Hp. inversion E. cbn [mGlyphs mLogClusters].
  apply (computeRun_pairs _ _ _ _ _ _ _ _ _ _ _ Hr Hp).
Qed.

Lemma runs_loop_pairs (fuel : nat) (paint : SkPaint) (chars : list Z)
    (contextCount : Z) (bidi : UBiDi) :
  forall (n : nat) (i : Z) (v v' : t),
    runs_loop fuel paint chars contextCount bidi i n v = Ok v' ->
    paired v -> paired v'.
Proof.
  induction n as [|n IH]; intros i v v' Hr Hp.
  - inversion Hr. subst. exact Hp.
  - cbn [runs_loop] in Hr.
    destruct (ubidi_getVisualRun bidi i) as [[runDir startRun] lengthRun].
    destruct (computeRunValuesWithHarfbuzz fuel paint chars (u32 startRun)
                (u32 lengthRun) contextCount (runDir =? UBIDI_RTL)
                (mAdvances v) (mGlyphs v) (mLogClusters v))
      as [r|] eqn:Hrun; [|discriminate].
    cbn [bind] in Hr. apply (IH _ _ _ Hr). unfold paired.
    cbn [mGlyphs mLogClusters].
    apply (computeRun_pairs _ _ _ _ _ _ _ _ _ _ _ Hrun Hp).
Qed.

Lemma computeValues_pairs (fuel : nat) (paint : SkPaint) (chars : list Z)
    (contextCount dirFlags : Z) (v0 v : t) :
  computeValues fuel paint chars contextCount dirFlags v0 = Ok v ->
  paired v0 -> paired v.
Proof.
  unfold computeValues. rewrite computeValuesWithHarfbuzz_route.
  intros Hr Hp.
  assert (Hp0 : paired
                  {| mAdvances :=
                       Vector.setCapacity contextCount (mAdvances v0);
                     mTotalAdvance := mTotalAdvance v0;
                     mGlyphs := Vector.setCapacity contextCount (mGlyphs v0);
                     mLogClusters :=
                       Vector.setCapacity contextCount (mLogClusters v0) |}).
  { unfold paired. cbn [mGlyphs mLogClusters].
    rewrite !items_setCapacity. exact Hp. }
  destruct (route_of chars contextCount dirFlags) as [isRTL|bidi rc|].
  - apply (single_run_pairs _ _ _ _ _ _ _ Hr Hp0).
  - apply (runs_loop_pairs _ _ _ _ _ _ _ _ _ Hr Hp0).
  - inversion Hr. subst. exact Hp0.
Qed.

(** X5.  Every artifact [computeValues] produces has exactly one log cluster
    for each glyph, on every route through the bidi driver and whatever the
    shaper does; so the glyph range of every sub-range of code units that is
    representable can be asked for without leaving the log clusters. *)
Theorem computeValues_pairs_glyphs_and_log_clusters (fuel : nat)
    (paint : SkPaint) (chars : list Z) (contextCount dirFlags : Z) (v : t) :
  computeValues fuel paint chars contextCount dirFlags new = Ok v ->
  Vector.size (mGlyphs v) = Vector.size (mLogClusters v) /\
  (forall start count,
     0 <= start -> 0 <= count -> start + count < 2 ^ 32 ->
     exists outStartIndex outGlyphsCount,
       getGlyphsIndexAndCount v start count
       = Ok (outStartIndex, outGlyphsCount)).
Proof.
  intros Hr.
  assert (Hp : paired v).
  { apply (computeValues_pairs _ _ _ _ _ _ _ Hr). reflexivity. }
  unfold paired in Hp. split; [unfold Vector.size; lia|].
  intros start count Hs Hc Hsum. unfold getGlyphsIndexAndCount.
  destruct (count =? 0); [eauto|].
  destruct (glyph_indexes_settle v start count ltac:(lia) Hs Hc Hsum)
    as (s & e & Hi & _).
  rewrite Hi. cbn [bind]. eauto.
Qed.

(** X6.  A direction mode that is none of the six is handled as [kBidi_LTR]:
    the [switch] has no default, the requested level stays 0 and no
    direction is forced. *)
Theorem computeValues_unknown_mode_is_LTR (fuel : nat) (paint : SkPaint)
    (chars : list Z) (contextCount dirFlags : Z) (v : t) :
  dirFlags < kBidi_LTR \/ kBidi_Force_RTL < dirFlags ->
  computeValues fuel paint chars contextCount dirFlags v
  = computeValues fuel paint chars contextCount kBidi_LTR v.
Proof.
  intros Hd. unfold computeValues, computeValuesWithHarfbuzz, bidiReq_of.
  unfold kBidi_LTR, kBidi_RTL, kBidi_Default_LTR, kBidi_Default_RTL,
    kBidi_Force_LTR, kBidi_Force_RTL in *.
  repeat match goal with
         | |- context [dirFlags =? ?k] =>
             replace (dirFlags =? k) with false
               by (symmetry; apply Z.eqb_neq; lia)
         end.
  reflexivity.
Qed.

End WithBidi.

End WithShaper.
End ArtifactFacts.

(** * Reading an artifact *)

Module ReadFacts.
Import TextLayoutCacheValue BufferFacts FloatFacts DriverFacts AccessorFacts.

(** The loop of [getTotalAdvance] leaves the advances as soon as its range
    does. *)
Lemma totalAdvance_loop_leaves (advs : list jfloat) :
  forall (n i : nat) (acc : jfloat),
    (0 < n)%nat -> (length advs < i + n)%nat ->
    totalAdvance_loop advs (Z.of_nat i) n acc = Err OutOfBounds.
Proof.
  induction n as [|n IH]; intros i acc Hn Hout; [lia|].
  cbn [totalAdvance_loop]. unfold load.
  destruct (Z.of_nat i <? 0) eqn:E; [reflexivity|].
  rewrite Nat2Z.id.
  destruct (nth_error advs i) as [a|] eqn:Na; [|reflexivity].
  cbn [bind].
  assert (i < length advs)%nat by (apply nth_error_Some; congruence).
  replace (Z.of_nat i + 1) with (Z.of_nat (S i)) by lia.
  apply IH; lia.
Qed.

Lemma load_slice {A : Type} (l : list A) (s n : nat) (i : Z) :
  0 <= i < Z.of_nat n -> (s + n <= length l)%nat ->
  load (firstn n (skipn s l)) i = load l (Z.of_nat s + i).
Proof.
  intros Hi Hn. unfold load.
  destruct (i <? 0) eqn:E; [apply Z.ltb_lt in E; lia|].
  destruct (Z.of_nat s + i <? 0) eqn:E'; [apply Z.ltb_lt in E'; lia|].
  rewrite nth_error_firstn.
  destruct (Z.to_nat i <? n)%nat eqn:L;
    [|apply Nat.ltb_ge in L; lia].
  rewrite nth_error_skipn.
  replace (Z.to_nat (Z.of_nat s + i)) with (s + Z.to_nat i)%nat by lia.
  reflexivity.
Qed.

Lemma getTotalAdvance_loop (v : t) (start count : Z) :
  0 <= start -> 0 <= count -> start + count < 2 ^ 32 ->
  getTotalAdvance v start count
  = totalAdvance_loop (Vector.items (mAdvances v))
      (Z.of_nat (Z.to_nat start)) (Z.to_nat count) jfloat_zero.
Proof.
  intros Hs Hc Hsum. unfold getTotalAdvance.
  rewrite u32_small by lia. rewrite Z2Nat.id by lia.
  replace (start + count - start) with count by lia. reflexivity.
Qed.

(** X7.  [getTotalAdvance] over a sub-range that lies inside the advances
    is the sum, added in order from zero in binary32, of the advances of the
    sub-range; an empty sub-range gives zero; a sub-range that is not empty
    and ends after the last advance makes the loop read past the advances. *)
Theorem getTotalAdvance_sums_the_sub_range (v : t) (start count : Z) :
  0 <= start -> 0 <= count -> start + count < 2 ^ 32 ->
  (start + count <= Vector.size (mAdvances v) ->
   getTotalAdvance v start count
   = Ok (in_order_sum (firstn (Z.to_nat count)
                         (skipn (Z.to_nat start)
                                (Vector.items (mAdvances v)))))) /\
  (count = 0 -> getTotalAdvance v start count = Ok jfloat_zero) /\
  (0 < count -> Vector.size (mAdvances v) < start + count ->
   getTotalAdvance v start count = Err OutOfBounds).
Proof.
  intros Hs Hc Hsum. rewrite (getTotalAdvance_loop v start count Hs Hc Hsum).
  unfold in_order_sum, Vector.size.
  split; [|split].
  - intros Hin. apply totalAdvance_loop_sum. lia.
  - intros ->. reflexivity.
  - intros Hpos Hout. apply totalAdvance_loop_leaves; lia.
Qed.

Lemma getTotalAdvance_sums_the_sub_range_witness :
  (1 + 3 <= Vector.size (mAdvances Stub.artifact) ->
   getTotalAdvance Stub.artifact 1 3
   = Ok (in_order_sum (firstn (Z.to_nat 3)
                         (skipn (Z.to_nat 1)
                                (Vector.items (mAdvances Stub.artifact)))))) /\
  (3 = 0 -> getTotalAdvance Stub.artifact 1 3 = Ok jfloat_zero) /\
  (0 < 3 -> Vector.size (mAdvances Stub.artifact) < 1 + 3 ->
   getTotalAdvance Stub.artifact 1 3 = Err OutOfBounds).
Proof.
  apply (getTotalAdvance_sums_the_sub_range Stub.artifact 1 3); lia.
Defined.

(** X8.  [getAdvances] copies the advances of a sub-range that lies inside
    the artifact, one for each code unit and in their order, and
    [getTotalAdvance] over the same sub-range is their sum added in order. *)
Theorem getAdvances_copies_the_sub_range (v : t) (start count : Z) :
  0 <= start -> 0 <= count < 2 ^ 30 ->
  start + count <= Vector.size (mAdvances v) ->
  exists outAdvances,
    getAdvances v start count = Ok outAdvances /\
    Z.of_nat (length outAdvances) = count /\
    (forall i, 0 <= i < count ->
               load outAdvances i
               = load (Vector.items (mAdvances v)) (start + i)) /\
    (start + count < 2 ^ 32 ->
     getTotalAdvance v start count = Ok (in_order_sum outAdvances)).
Proof.
  intros Hs Hc Hin. unfold getAdvances, sizeof_jfloat, Vector.size in *.
  rewrite u32_small by lia. rewrite Z.div_mul by lia.
  replace ((0 <=? start)
           && (start + count
               <=? Z.of_nat (length (Vector.items (mAdvances v)))))
    with true
    by (symmetry; apply andb_true_iff; split; apply Z.leb_le; lia).
  eexists. split; [reflexivity|].
  split; [rewrite length_firstn, length_skipn; lia|].
  split.
  - intros i Hi. rewrite load_slice by lia. f_equal. lia.
  - intros Hsum.
    rewrite (getTotalAdvance_loop v start count Hs ltac:(lia) Hsum).
    apply totalAdvance_loop_sum. lia.
Qed.

Lemma getAdvances_copies_the_sub_range_witness :
  exists outAdvances,
    getAdvances Stub.artifact 1 3 = Ok outAdvances /\
    Z.of_nat (length outAdvances) = 3 /\
    (forall i, 0 <= i < 3 ->
               load outAdvances i
               = load (Vector.items (mAdvances Stub.artifact)) (1 + i)) /\
    (1 + 3 < 2 ^ 32 ->
     getTotalAdvance Stub.artifact 1 3 = Ok (in_order_sum outAdvances)).
Proof.
  apply (getAdvances_copies_the_sub_range Stub.artifact 1 3);
    [lia | lia | unfold Vector.size; simpl; lia].
Defined.

(** X9.  On an artifact that has a glyph, and a log cluster for each glyph,
    the glyph range [getGlyphsIndexAndCount] reports for a sub-range that is
    not empty lies inside the glyphs, and [getGlyphs] at its start index
    gives a pointer from which that many glyphs can be read: the glyphs of
    the artifact from the start index on. *)
Theorem glyph_range_lies_inside_the_glyphs (v : t) (start count : Z) :
  (length (Vector.items (mGlyphs v))
   <= length (Vector.items (mLogClusters v)))%nat ->
  0 < Vector.size (mGlyphs v) < 2 ^ 32 ->
  0 <= start -> 0 < count -> start + count < 2 ^ 32 ->
  exists outStartIndex outGlyphsCount glyphs,
    getGlyphsIndexAndCount v start count
    = Ok (outStartIndex, outGlyphsCount) /\
    0 <= outStartIndex /\ 1 <= outGlyphsCount /\
    outStartIndex + outGlyphsCount <= Vector.size (mGlyphs v) /\
    getGlyphs v outStartIndex outGlyphsCount = Ok glyphs /\
    outGlyphsCount <= Z.of_nat (length glyphs) /\
    (forall i, 0 <= i < outGlyphsCount ->
               load glyphs i
               = load (Vector.items (mGlyphs v)) (outStartIndex + i)).
Proof.
  intros Hlen Hn Hs Hc Hsum.
  destruct (glyph_indexes_settle v start count Hlen Hs ltac:(lia) Hsum)
    as (s & e & Hi & _ & _ & Hord & Hmax).
  unfold Vector.size in *.
  exists s, (e - s + 1), (skipn (Z.to_nat s) (Vector.items (mGlyphs v))).
  unfold getGlyphsIndexAndCount.
  destruct (count =? 0) eqn:E; [apply Z.eqb_eq in E; lia|].
  rewrite Hi. cbn [bind]. rewrite u32_small by lia.
  split; [reflexivity|]. split; [lia|]. split; [lia|]. split; [lia|].
  split.
  { unfold getGlyphs.
    replace ((0 <=? s)
             && (s <=? Z.of_nat (length (Vector.items (mGlyphs v)))))
      with true
      by (symmetry; apply andb_true_iff; split; apply Z.leb_le; lia).
    reflexivity. }
  split; [rewrite length_skipn; lia|].
  intros i Hi'. unfold load.
  destruct (i <? 0) eqn:E1; [apply Z.ltb_lt in E1; lia|].
  destruct (s + i <? 0) eqn:E2; [apply Z.ltb_lt in E2; lia|].
  rewrite nth_error_skipn.
  replace (Z.to_nat (s + i)) with (Z.to_nat s + Z.to_nat i)%nat by lia.
  reflexivity.
Qed.

Lemma glyph_range_lies_inside_the_glyphs_witness :
  exists outStartIndex outGlyphsCount glyphs,
    getGlyphsIndexAndCount Stub.artifact 1 2
    = Ok (outStartIndex, outGlyphsCount) /\
    0 <= outStartIndex /\ 1 <= outGlyphsCount /\
    outStartIndex + outGlyphsCount <= Vector.size (mGlyphs Stub.artifact) /\
    getGlyphs Stub.artifact outStartIndex outGlyphsCount = Ok glyphs /\
    outGlyphsCount <= Z.of_nat (length glyphs) /\
    (forall i, 0 <= i < outGlyphsCount ->
               load glyphs i
               = load (Vector.items (mGlyphs Stub.artifact))
                      (outStartIndex + i)).
Proof.
  apply (glyph_range_lies_inside_the_glyphs Stub.artifact 1 2);
    try (simpl; lia); unfold Vector.size; simpl; lia.
Defined.

Section WithEngines.
Context {growth : Vector.Growth} {shaper : Shaper} {allocator : Allocator}
        {bidi_engine : BidiEngine}.

(** X10.  For an artifact made of a single run, [getTotalAdvance] over the
    whole input gives the total the artifact stores, up to the sign of a
    zero. *)
Theorem getTotalAdvance_of_a_single_run (fuel : nat) (paint : SkPaint)
    (chars : list Z) (contextCount dirFlags : Z) (isRTL : bool) (v : t) :
  0 <= contextCount < 2 ^ 32 ->
  (contextCount = 0 -> writes_in_place) ->
  route_of chars contextCount dirFlags = Route_single isRTL ->
  computeValues fuel paint chars contextCount dirFlags new = Ok v ->
  exists total,
    getTotalAdvance v 0 contextCount = Ok total /\
    same_float total (mTotalAdvance v).
Proof.
  intros Hc Hplace Hroute. unfold computeValues.
  rewrite computeValuesWithHarfbuzz_route, Hroute. intros Hr.
  destruct (single_run_advances _ _ _ _ _ _ _ (proj1 Hc) Hplace Hr)
    as (seg & Hit & Hlen & Hsum).
  cbn [mAdvances] in Hit. rewrite items_setCapacity in Hit. simpl in Hit.
  exists (in_order_sum (Vector.items (mAdvances v))). split.
  - rewrite <- Hlen, <- Hit.
    change (Z.of_nat (length (Vector.items (mAdvances v))))
      with (Vector.size (mAdvances v)).
    apply getTotalAdvance_in_order. unfold Vector.size. rewrite Hit. lia.
  - rewrite Hit. apply same_float_sym. exact Hsum.
Qed.

End WithEngines.
End ReadFacts.

(** * The bytes an artifact is accounted for *)

Module SizeFacts.
Import TextLayoutCacheValue BufferFacts ProjectionFacts DriverFacts
       GlyphFacts ArtifactFacts.

Lemma appended_refl {A : Type} (v : Vector.t A) : appended v v.
Proof.
  split; [exists []; rewrite app_nil_r; reflexivity|reflexivity].
Qed.

Lemma appended_trans {A : Type} (v1 v2 v3 : Vector.t A) :
  appended v1 v2 -> appended v2 v3 -> appended v1 v3.
Proof.
  intros [(s1 & H1) C1] [(s2 & H2) C2]. split.
  - exists (s1 ++ s2). rewrite H2, H1, app_assoc. reflexivity.
  - intros Hfit. unfold Vector.size in *.
    rewrite H2, length_app in Hfit.
    rewrite C2; [apply C1; lia|]. rewrite C1 by lia.
    rewrite H2, length_app. lia.
Qed.

Lemma appended_add {growth : Vector.Growth} {A : Type} (x : A)
    (v : Vector.t A) :
  appended v (Vector.add x v).
Proof.
  split; [exists [x]; reflexivity|].
  unfold Vector.add, Vector.reserve, Vector.size.
  cbn [Vector.items Vector.capacity]. intros Hfit.
  destruct (_ <=? Vector.capacity v) eqn:E; [reflexivity|].
  apply Z.leb_gt in E. lia.
Qed.

Lemma appended_insertAt_end {growth : Vector.Growth} {A : Type} (x : A)
    (n : Z) (v : Vector.t A) :
  appended v (Vector.insertAt x (Vector.size v) n v).
Proof.
  split; [exists (repeat x (Z.to_nat n)); apply items_insertAt_end|].
  intros Hfit. unfold Vector.insertAt, Vector.reserve, Vector.size in *.
  cbn [Vector.items Vector.capacity] in *.
  destruct (_ <=? Vector.capacity v) eqn:E; [reflexivity|].
  apply Z.leb_gt in E. lia.
Qed.

Lemma appended_setCapacity_empty {A : Type} (n : Z) :
  0 < n ->
  Vector.items (Vector.setCapacity n (@Vector.empty A)) = [] /\
  Vector.capacity (Vector.setCapacity n (@Vector.empty A)) = n.
Proof.
  intros Hn. unfold Vector.setCapacity, Vector.size, Vector.empty.
  cbn [Vector.items length].
  destruct (n <=? Z.of_nat 0) eqn:E; [apply Z.leb_le in E; lia|].
  split; reflexivity.
Qed.

Section WithShaper.
Context {growth : Vector.Growth} {shaper : Shaper} {allocator : Allocator}.

Lemma advances_loop_appended (it : HB.ShaperItem) :
  forall (n : nat) (i : Z) (tot tot' : jfloat) (out out' : Vector.t jfloat),
    advances_loop it i n tot out = Ok (tot', out') -> appended out out'.
Proof.
  induction n as [|n IH]; intros i tot tot' out out' Hr.
  - inversion Hr. subst. apply appended_refl.
  - cbn [advances_loop] in Hr.
    destruct (HB.deref (HB.log_clusters it) (i - 1)) as [p|]; [|discriminate].
    destruct (HB.deref (HB.log_clusters it) i) as [c|]; [|discriminate].
    cbn [bind] in Hr. destruct (c =? p).
    + apply (appended_trans _ _ _ (appended_add _ _) (IH _ _ _ _ _ Hr)).
    + destruct (HB.deref (HB.advances it) c) as [a|]; [|discriminate].
      cbn [bind] in Hr.
      apply (appended_trans _ _ _ (appended_add _ _) (IH _ _ _ _ _ Hr)).
Qed.

Lemma glyphs_loop_appended (it : HB.ShaperItem) (isRTL : bool)
    (countGlyphs : Z) :
  forall (n : nat) (i : Z) (out out' : Vector.t Z),
    glyphs_loop it isRTL countGlyphs i n out = Ok out' -> appended out out'.
Proof.
  induction n as [|n IH]; intros i out out' Hr.
  - inversion Hr. subst. apply appended_refl.
  - cbn [glyphs_loop] in Hr.
    destruct (HB.deref (HB.glyphs it) _) as [g|]; [|discriminate].
    cbn [bind] in Hr.
    apply (appended_trans _ _ _ (appended_add _ _) (IH _ _ _ Hr)).
Qed.

Lemma logClusters_loop_appended (it : HB.ShaperItem) (countLogClusters : Z) :
  forall (n : nat) (i : Z) (out out' : Vector.t Z),
    logClusters_loop it countLogClusters i n out = Ok out' ->
    appended out out'.
Proof.
  induction n as [|n IH]; intros i out out' Hr.
  - inversion Hr. subst. apply appended_refl.
  - cbn [logClusters_loop] in Hr.
    destruct (HB.deref (HB.log_clusters it) i) as [c|]; [|discriminate].
    cbn [bind] in Hr.
    apply (appended_trans _ _ _ (appended_add _ _) (IH _ _ _ Hr)).
Qed.

Lemma computeRun_appended (fuel : nat) (paint : SkPaint) (chars : list Z)
    (start count contextCount : Z) (isRTL : bool)
    (advs : Vector.t jfloat) (gls lcs : Vector.t Z) (r : run_output) :
  computeRunValuesWithHarfbuzz fuel paint chars start count contextCount
    isRTL advs gls lcs = Ok r ->
  appended advs (outAdvances r) /\ appended gls (outGlyphs r) /\
  appended lcs (outLogClusters r).
Proof.
  unfold computeRunValuesWithHarfbuzz.
  destruct (shapeWithHarfbuzz free_store fuel paint chars start count
              contextCount isRTL) as [[h it]|]; [|discriminate].
  cbn [bind]. unfold project_run. destruct (shaped_nothing it).
  - intros E. inversion E.
    cbn [outAdvances outGlyphs outLogClusters].
    split; [apply appended_insertAt_end|]. split; apply appended_refl.
  - unfold project_advances.
    destruct (HB.deref (HB.log_clusters it) 0) as [c0|]; [|discriminate].
    cbn [bind].
    destruct (HB.deref (HB.advances it) c0) as [a0|]; [|discriminate].
    cbn [bind].
    destruct (advances_loop it 1 _ _ _) as [[tot advs']|] eqn:Ha;
      [|discriminate].
    cbn [bind].
    destruct (project_glyphs it isRTL gls) as [gls'|] eqn:Hg; [|discriminate].
    cbn [bind].
    destruct (project_logClusters it lcs) as [lcs'|] eqn:Hl; [|discriminate].
    cbn [bind]. intros E. inversion E.
    cbn [outAdvances outGlyphs outLogClusters].
    split.
    { apply (appended_trans _ _ _ (appended_add _ _)
               (advances_loop_appended _ _ _ _ _ _ _ Ha)). }
    split.
    { apply (glyphs_loop_appended _ _ _ _ _ _ _ Hg). }
    apply (logClusters_loop_appended _ _ _ _ _ _ Hl).
Qed.

Section WithBidi.
Context {bidi_engine : BidiEngine}.

Lemma single_run_appended (fuel : nat) (paint : SkPaint) (chars : list Z)
    (contextCount : Z) (isRTL : bool) (v v' : t) :
  single_run fuel paint chars contextCount isRTL v = Ok v' ->
  appended (mAdvances v) (mAdvances v') /\
  appended (mGlyphs v) (mGlyphs v') /\
  appended (mLogClusters v) (mLogClusters v').
Proof.
  unfold single_run.
  destruct (computeRunValuesWithHarfbuzz _ _ _ _ _ _ _ _ _ _)
    as [r|] eqn:Hr; [|discriminate].
  cbn [bind]. intros E. inversion E. cbn [mAdvances mGlyphs mLogClusters].
  apply (computeRun_appended _ _ _ _ _ _ _ _ _ _ _ Hr).
Qed.

Lemma runs_loop_appended (fuel : nat) (paint : SkPaint) (chars : list Z)
    (contextCount : Z) (bidi : UBiDi) :
  forall (n : nat) (i : Z) (v v' : t),
    runs_loop fuel paint chars contextCount bidi i n v = Ok v' ->
    appended (mAdvances v) (mAdvances v') /\
    appended (mGlyphs v) (mGlyphs v') /\
    appended (mLogClusters v) (mLogClusters v').
Proof.
  induction n as [|n IH]; intros i v v' Hr.
  - inversion Hr. subst. repeat split; apply appended_refl.
  - cbn [runs_loop] in Hr.
    destruct (ubidi_getVisualRun bidi i) as [[runDir startRun] lengthRun].
    destruct (computeRunValuesWithHarfbuzz _ _ _ _ _ _ _ _ _ _)
      as [r|] eqn:Hrun; [|discriminate].
    cbn [bind] in Hr.
    destruct (computeRun_appended _ _ _ _ _ _ _ _ _ _ _ Hrun)
      as (A1 & G1 & L1).
    destruct (IH _ _ _ Hr) as (A2 & G2 & L2).
    cbn [mAdvances mGlyphs mLogClusters] in A2, G2, L2.
    split; [apply (appended_trans _ _ _ A1 A2)|].
    split; [apply (appended_trans _ _ _ G1 G2)|].
    apply (appended_trans _ _ _ L1 L2).
Qed.

Context {sizes : ObjectSizes}.

(** X11.  The capacity hint of [computeValues] is what the artifact is
    accounted for.  When no vector of the artifact outgrew the hint, that is
    when there are no more advances and no more glyphs than code units, each
    of the three vectors has a capacity of exactly [contextCount] elements,
    and [getSize] is the size of the object plus eight bytes for each code
    unit. *)
Theorem computeValues_keeps_the_capacity_hint (fuel : nat) (paint : SkPaint)
    (chars : list Z) (contextCount dirFlags : Z) (v : t) :
  0 < contextCount ->
  computeValues fuel paint chars contextCount dirFlags new = Ok v ->
  Vector.size (mAdvances v) <= contextCount ->
  Vector.size (mGlyphs v) <= contextCount ->
  Vector.capacity (mAdvances v) = contextCount /\
  Vector.capacity (mGlyphs v) = contextCount /\
  Vector.capacity (mLogClusters v) = contextCount /\
  getSize v = u32 (sizeof_TextLayoutCacheValue + 8 * contextCount).
Proof.
  intros Hc Hr Ha Hg.
  assert (Hl : Vector.size (mLogClusters v) <= contextCount).
  { pose proof (computeValues_pairs _ _ _ _ _ _ _ Hr eq_refl) as Hp.
    unfold paired in Hp. unfold Vector.size in *. lia. }
  unfold computeValues in Hr. rewrite computeValuesWithHarfbuzz_route in Hr.
  assert (Happ :
            appended (Vector.setCapacity contextCount (mAdvances new))
                     (mAdvances v) /\
            appended (Vector.setCapacity contextCount (mGlyphs new))
                     (mGlyphs v) /\
            appended (Vector.setCapacity contextCount (mLogClusters new))
                     (mLogClusters v)).
  { destruct (route_of chars contextCount dirFlags) as [isRTL|bidi rc|].
    - apply (single_run_appended _ _ _ _ _ _ _ Hr).
    - apply (runs_loop_appended _ _ _ _ _ _ _ _ _ Hr).
    - inversion Hr. cbn [mAdvances mGlyphs mLogClusters].
      repeat split; apply appended_refl. }
  cbn [new mAdvances mGlyphs mLogClusters] in Happ.
  destruct Happ as ((_ & CA) & (_ & CG) & (_ & CL)).
  destruct (appended_setCapacity_empty (A := jfloat) contextCount Hc)
    as [_ EA].
  destruct (appended_setCapacity_empty (A := Z) contextCount Hc) as [_ EZ].
  rewrite EA in CA. rewrite EZ in CG, CL.
  specialize (CA Ha). specialize (CG Hg). specialize (CL Hl).
  split; [exact CA|]. split; [exact CG|]. split; [exact CL|].
  unfold getSize, sizeof_jfloat, sizeof_jchar, sizeof_unsigned_short.
  rewrite CA, CG, CL. f_equal. lia.
Qed.

End WithBidi.
End WithShaper.
End SizeFacts.

(** * What the cache holds and what it evicts *)

Module StoreFacts.
Import TextLayoutCache BufferFacts CacheFacts KeyTextFacts.

Lemma find_app {A : Type} (f : A -> bool) (l1 l2 : list A) :
  find f (l1 ++ l2)
  = match find f l1 with
    | Some x => Some x
    | None => find f l2
    end.
Proof.
  induction l1 as [|a l1 IH]; simpl; [reflexivity|].
  destruct (f a); [reflexivity|exact IH].
Qed.

Lemma find_none_Forall {A : Type} (f : A -> bool) (l : list A) :
  find f l = None <-> Forall (fun x => f x = false) l.
Proof.
  induction l as [|a l IH]; simpl.
  - split; [constructor|reflexivity].
  - destruct (f a) eqn:E.
    + split; [discriminate|]. intros H. inversion H. congruence.
    + rewrite IH. split; [intros H; constructor; assumption|].
      intros H. inversion H. assumption.
Qed.

Lemma Forall_suffix {A : Type} (P : A -> Prop) (l1 l2 : list A) :
  Forall P (l1 ++ l2) -> Forall P l2.
Proof. intros H. apply Forall_app in H. apply H. Qed.

(** A lookup that comes back with the null handle found no entry, when no
    entry holds the null handle. *)
Lemma get_null_is_a_miss (key : TextLayoutCacheKey.t) (c : t) :
  holds_entries c ->
  GenerationCache.get TextLayoutCacheKey.equiv key (mCache c) = sp_NULL ->
  Forall (fun e => TextLayoutCacheKey.equiv key (fst e) = false) (mCache c).
Proof.
  unfold holds_entries, GenerationCache.get. intros Hh Hg.
  apply find_none_Forall.
  destruct (find _ (mCache c)) as [e|] eqn:F; [|reflexivity].
  apply find_some in F as [Hin _].
  rewrite Forall_forall in Hh. destruct (Hh e Hin) as [_ Hv].
  contradiction.
Qed.

Section WithSizes.
Context {sizes : ObjectSizes}.

Lemma removeOldest_store (c : t) :
  mCache (removeOldest c) = tl (mCache c) /\
  mMaxSize (removeOldest c) = mMaxSize c /\
  mDebugEnabled (removeOldest c) = mDebugEnabled c /\
  mCacheHitCount (removeOldest c) = mCacheHitCount c.
Proof.
  unfold removeOldest, GenerationCache.removeOldest.
  destruct (mCache c) as [|[key value] rest]; repeat split.
Qed.

Lemma removeOldest_holds (c : t) :
  holds_entries c -> holds_entries (removeOldest c).
Proof.
  unfold holds_entries. destruct (removeOldest_store c) as (-> & _).
  intros H. destruct (mCache c); [exact H|]. inversion H. assumption.
Qed.

Lemma removeOldests_holds :
  forall (fuel : nat) (c c' : t),
    removeOldests fuel c = Ok c' -> holds_entries c -> holds_entries c'.
Proof.
  induction fuel as [|fuel IH]; intros c c'; cbn [removeOldests];
    destruct (mMaxSize c <? mSize c); intros E H;
    try discriminate; try (inversion E; subst; exact H).
  apply (IH _ _ E). apply removeOldest_holds. exact H.
Qed.

(** What [make_room] leaves is a back part of the store. *)
Lemma make_room_store (size : Z) :
  forall (fuel : nat) (c c1 : t),
    make_room fuel size c = Ok c1 ->
    (exists evicted, mCache c = evicted ++ mCache c1) /\
    mMaxSize c1 = mMaxSize c.
Proof.
  induction fuel as [|fuel IH]; intros c c1; cbn [make_room];
    destruct (mMaxSize c <? u32 (mSize c + size)); intros E;
    try discriminate;
    try (inversion E; subst; split; [exists []; reflexivity|reflexivity]).
  destruct (IH _ _ E) as ((evicted & Hev) & Hmx).
  destruct (removeOldest_store c) as (Hst & Hm & _).
  rewrite Hst in Hev. rewrite Hm in Hmx. split; [|exact Hmx].
  destruct (mCache c) as [|e rest]; cbn [tl] in Hev.
  - exists evicted. exact Hev.
  - exists (e :: evicted). rewrite Hev. reflexivity.
Qed.

(** The loop of [setMaxSize] stops at the first store that fits. *)
Lemma removeOldests_stops_early :
  forall (fuel : nat) (c c' : t),
    mSize c = accounted_bytes (mCache c) -> mSize c < 2 ^ 32 ->
    removeOldests fuel c = Ok c' ->
    exists evicted,
      mCache c = evicted ++ mCache c' /\
      mSize c' = accounted_bytes (mCache c') /\
      mSize c' <= mMaxSize c /\
      mMaxSize c' = mMaxSize c /\
      forall front back,
        evicted = front ++ back -> back <> [] ->
        mMaxSize c < accounted_bytes (back ++ mCache c').
Proof.
  induction fuel as [|fuel IH]; intros c c' Hacc Hhi; cbn [removeOldests];
    destruct (mMaxSize c <? mSize c) eqn:E; intros Hr; try discriminate.
  - apply Z.ltb_ge in E. inversion Hr. subst c'. exists [].
    repeat split; try assumption.
    intros front back Hsplit Hne. symmetry in Hsplit.
    apply app_eq_nil in Hsplit. destruct Hsplit. contradiction.
  - apply Z.ltb_lt in E.
    destruct (removeOldest_accounts c Hacc Hhi) as (Hst & Hsz & Hmx).
    pose proof (accounted_bytes_nonneg (tl (mCache c))) as Hnn.
    assert (Htl : accounted_bytes (tl (mCache c)) <= mSize c).
    { rewrite Hacc. destruct (mCache c) as [|e rest]; cbn [tl]; [lia|].
      simpl. pose proof (entry_bytes_range e). lia. }
    destruct (IH (removeOldest c) c')
      as (evicted & Hev & Hacc' & Hle & Hmx' & Hmin);
      [rewrite Hst; exact Hsz | lia | exact Hr |].
    rewrite Hst in Hev. rewrite Hmx in Hle, Hmx', Hmin.
    destruct (mCache c) as [|e rest] eqn:Hstore; cbn [tl] in Hev.
    + exists evicted. repeat split; assumption.
    + exists (e :: evicted). split; [rewrite Hev; reflexivity|].
      split; [exact Hacc'|]. split; [exact Hle|]. split; [exact Hmx'|].
      intros [|x front] back Hsplit Hne; simpl in Hsplit.
      * subst back. cbn [app]. rewrite <- Hev, <- Hacc. exact E.
      * inversion Hsplit. subst. apply (Hmin front back eq_refl Hne).
  - apply Z.ltb_ge in E. inversion Hr. subst c'. exists [].
    repeat split; try assumption.
    intros front back Hsplit Hne. symmetry in Hsplit.
    apply app_eq_nil in Hsplit. destruct Hsplit. contradiction.
Qed.

(** The loop of [getValue] stops at the first store that leaves room. *)
Lemma make_room_stops_early (size : Z) :
  0 <= size ->
  forall (fuel : nat) (c c' : t),
    mSize c = accounted_bytes (mCache c) -> mSize c + size < 2 ^ 32 ->
    make_room fuel size c = Ok c' ->
    exists evicted,
      mCache c = evicted ++ mCache c' /\
      mSize c' = accounted_bytes (mCache c') /\
      mSize c' + size <= mMaxSize c /\
      mMaxSize c' = mMaxSize c /\
      mDebugEnabled c' = mDebugEnabled c /\
      mCacheHitCount c' = mCacheHitCount c /\
      forall front back,
        evicted = front ++ back -> back <> [] ->
        mMaxSize c < accounted_bytes (back ++ mCache c') + size.
Proof.
  intros Hsize.
  induction fuel as [|fuel IH]; intros c c' Hacc Hhi; cbn [make_room];
    pose proof (accounted_bytes_nonneg (mCache c)) as Hnn0;
    rewrite (u32_small (mSize c + size)) by lia;
    destruct (mMaxSize c <? mSize c + size) eqn:E; intros Hr;
    try discriminate.
  - apply Z.ltb_ge in E. inversion Hr. subst c'. exists [].
    repeat split; try assumption.
    intros front back Hsplit Hne. symmetry in Hsplit.
    apply app_eq_nil in Hsplit. destruct Hsplit. contradiction.
  - apply Z.ltb_lt in E.
    destruct (removeOldest_accounts c Hacc ltac:(lia)) as (Hst & Hsz & Hmx).
    destruct (removeOldest_store c) as (_ & _ & Hdb & Hhc).
    pose proof (accounted_bytes_nonneg (tl (mCache c))) as Hnn.
    assert (Htl : accounted_bytes (tl (mCache c)) <= mSize c).
    { rewrite Hacc. destruct (mCache c) as [|e rest]; cbn [tl]; [lia|].
      simpl. pose proof (entry_bytes_range e). lia. }
    destruct (IH (removeOldest c) c')
      as (evicted & Hev & Hacc' & Hle & Hmx' & Hd & Hh & Hmin);
      [rewrite Hst; exact Hsz | lia | exact Hr |].
    rewrite Hst in Hev. rewrite Hmx in Hle, Hmx', Hmin.
    rewrite Hdb in Hd. rewrite Hhc in Hh.
    destruct (mCache c) as [|e rest] eqn:Hstore; cbn [tl] in Hev.
    + exists evicted. repeat split; assumption.
    + exists (e :: evicted). split; [rewrite Hev; reflexivity|].
      split; [exact Hacc'|]. split; [exact Hle|]. split; [exact Hmx'|].
      split; [exact Hd|]. split; [exact Hh|].
      intros [|x front] back Hsplit Hne; simpl in Hsplit.
      * subst back. cbn [app]. rewrite <- Hev, <- Hacc. exact E.
      * inversion Hsplit. subst. apply (Hmin front back eq_refl Hne).
  - apply Z.ltb_ge in E. inversion Hr. subst c'. exists [].
    repeat split; try assumption.
    intros front back Hsplit Hne. symmetry in Hsplit.
    apply app_eq_nil in Hsplit. destruct Hsplit. contradiction.
Qed.

(** X12.  [setMaxSize] evicts from the oldest end and no more than it has
    to: had it stopped any earlier, the store would be over the new budget;
    when the cache is within the new budget already, nothing is evicted. *)
Theorem setMaxSize_evicts_no_more_than_needed (fuel : nat) (maxSize : Z)
    (c c' : t) :
  mSize c = accounted_bytes (mCache c) -> mSize c < 2 ^ 32 ->
  setMaxSize fuel maxSize c = Ok c' ->
  exists evicted,
    mCache c = evicted ++ mCache c' /\
    mSize c' = accounted_bytes (mCache c') /\
    mSize c' <= maxSize /\ mMaxSize c' = maxSize /\
    (forall front back,
       evicted = front ++ back -> back <> [] ->
       maxSize < accounted_bytes (back ++ mCache c')) /\
    (mSize c <= maxSize -> evicted = [] /\ mSize c' = mSize c).
Proof.
  intros Hacc Hhi Hr. unfold setMaxSize in Hr.
  apply removeOldests_stops_early in Hr; [|exact Hacc|exact Hhi].
  cbn [mCache mSize mMaxSize] in Hr.
  destruct Hr as (evicted & Hev & Hacc' & Hle & Hmx & Hmin).
  exists evicted. repeat split; try assumption.
  - destruct evicted as [|e evicted]; [reflexivity|].
    specialize (Hmin [] (e :: evicted) eq_refl ltac:(discriminate)).
    rewrite <- Hev, <- Hacc in Hmin. lia.
  - destruct evicted as [|e evicted].
    + rewrite Hacc, Hacc', Hev. reflexivity.
    + specialize (Hmin [] (e :: evicted) eq_refl ltac:(discriminate)).
      rewrite <- Hev, <- Hacc in Hmin. lia.
Qed.

Section WithEngines.
Context {growth : Vector.Growth} {shaper : Shaper} {allocator : Allocator}
        {bidi_engine : BidiEngine}.

(** X13.  Every entry of the store has a key that owns its text and a
    handle that is not null: when this holds of a cache, as it does of one
    that is empty, it holds after [clear], after [setMaxSize] and after
    [getValue]. *)
Theorem store_keeps_owned_keys_and_artifacts (c : t) :
  holds_entries c ->
  holds_entries (clear c) /\
  (forall fuel maxSize c',
     setMaxSize fuel maxSize c = Ok c' -> holds_entries c') /\
  (forall fuel paint text count dirFlags r c',
     getValue fuel paint text count dirFlags c = Ok (r, c') ->
     holds_entries c').
Proof.
  intros Hh. split; [constructor|]. split.
  - intros fuel maxSize c' Hr. unfold setMaxSize in Hr.
    apply (removeOldests_holds _ _ _ Hr). exact Hh.
  - intros fuel paint text count dirFlags r c'. unfold getValue.
    destruct (GenerationCache.get _ _ (mCache c)) as [hit|].
    { intros E. inversion E. destruct (mDebugEnabled c); exact Hh. }
    destruct (TextLayoutCacheValue.computeValues _ _ _ _ _ _) as [value|];
      [|discriminate].
    cbn [bind].
    destruct (_ <=? mMaxSize c); [|intros E; inversion E; subst; exact Hh].
    destruct (make_room _ _ c) as [c1|] eqn:Hm; [|discriminate].
    cbn [bind]. intros E. inversion E. unfold holds_entries.
    cbn [mCache]. unfold GenerationCache.put. apply Forall_app. split.
    + destruct (make_room_store _ _ _ _ Hm) as ((evicted & Hev) & _).
      unfold holds_entries in Hh. rewrite Hev in Hh.
      apply (Forall_suffix _ _ _ Hh).
    + constructor; [|constructor]. split; [reflexivity|discriminate].
Qed.

(** X14.  [getValue] returns the null handle only on a miss whose computed
    entry is larger than the budget: no stored key matches the request, the
    artifact was computed, and the cache is left as it was. *)
Theorem getValue_is_null_only_when_oversize (fuel : nat) (paint : SkPaint)
    (text : list Z) (count dirFlags : Z) (c c' : t) :
  holds_entries c ->
  getValue fuel paint text count dirFlags c = Ok (sp_NULL, c') ->
  c' = c /\
  Forall (fun e =>
            TextLayoutCacheKey.equiv
              (TextLayoutCacheKey.make paint text (u32 count) dirFlags)
              (fst e) = false) (mCache c) /\
  exists value,
    TextLayoutCacheValue.computeValues fuel paint text (u32 count) dirFlags
      TextLayoutCacheValue.new = Ok value /\
    mMaxSize c
    < u32 (TextLayoutCacheKey.getSize
             (TextLayoutCacheKey.make paint text (u32 count) dirFlags)
           + TextLayoutCacheValue.getSize value).
Proof.
  intros Hh. unfold getValue, sp_NULL.
  destruct (GenerationCache.get _ _ (mCache c)) as [hit|] eqn:Hg;
    [discriminate|].
  destruct (TextLayoutCacheValue.computeValues _ _ _ _ _ _) as [value|];
    [|discriminate].
  cbn [bind]. destruct (_ <=? mMaxSize c) eqn:E.
  - destruct (make_room _ _ c) as [c1|]; discriminate.
  - intros Eq. inversion Eq. subst c'. split; [reflexivity|].
    split; [apply get_null_is_a_miss; [exact Hh|exact Hg]|].
    exists value. split; [reflexivity|]. apply Z.leb_gt in E. exact E.
Qed.

(** X15.  Asking again is a hit.  When [getValue] has returned an artifact,
    the same request on the cache it left returns that artifact without
    computing or evicting anything: it succeeds whatever the fuel, and the
    byte count, the budget and the number of entries are as before. *)
Theorem getValue_again_is_a_hit (fuel fuel' : nat) (paint : SkPaint)
    (text : list Z) (count dirFlags : Z) (c c' : t)
    (value : TextLayoutCacheValue.t) :
  holds_entries c ->
  u32 count < 2 ^ 31 -> u32 count <= Z.of_nat (length text) ->
  getValue fuel paint text count dirFlags c = Ok (Some value, c') ->
  exists c'',
    getValue fuel' paint text count dirFlags c' = Ok (Some value, c'') /\
    mSize c'' = mSize c' /\ mMaxSize c'' = mMaxSize c' /\
    GenerationCache.size (mCache c'') = GenerationCache.size (mCache c').
Proof.
  intros Hh Hc Hlen Hr.
  assert (Hget : GenerationCache.get TextLayoutCacheKey.equiv
                   (TextLayoutCacheKey.make paint text (u32 count) dirFlags)
                   (mCache c') = Some value).
  { unfold getValue in Hr.
    destruct (GenerationCache.get _ _ (mCache c)) as [hit|] eqn:Hg.
    { inversion Hr. subst hit. destruct (mDebugEnabled c); exact Hg. }
    apply (get_null_is_a_miss _ c Hh) in Hg.
    destruct (TextLayoutCacheValue.computeValues _ _ _ _ _ _) as [v|];
      [|discriminate].
    cbn [bind] in Hr. destruct (_ <=? mMaxSize c); [|discriminate].
    destruct (make_room _ _ c) as [c1|] eqn:Hm; [|discriminate].
    cbn [bind] in Hr. inversion Hr. subst v. cbn [mCache].
    destruct (make_room_store _ _ _ _ Hm) as ((evicted & Hev) & _).
    rewrite Hev in Hg. apply Forall_suffix in Hg.
    apply find_none_Forall in Hg.
    unfold GenerationCache.get, GenerationCache.put.
    rewrite find_app, Hg. cbn [find fst snd].
    rewrite (equiv_internalTextCopy
               (TextLayoutCacheKey.make paint text (u32 count) dirFlags)
               text eq_refl).
    - reflexivity.
    - cbn [TextLayoutCacheKey.make TextLayoutCacheKey.count].
      pose proof (u32_range count). lia. }
  unfold getValue. rewrite Hget.
  eexists. split; [reflexivity|].
  destruct (mDebugEnabled c'); repeat split.
Qed.

(** X16.  A miss that fits is admitted as the newest entry, under a key
    that owns its text, after the oldest entries have been evicted, and no
    more of them than the new entry needs: had the eviction stopped any
    earlier, the entry would not fit; when there is room already, nothing is
    evicted. *)
Theorem getValue_admits_as_newest_evicting_oldest (fuel : nat)
    (paint : SkPaint) (text : list Z) (count dirFlags : Z) (c c' : t)
    (r : sp TextLayoutCacheValue.t) (value : TextLayoutCacheValue.t) :
  within_budget c -> mMaxSize c < 2 ^ 31 ->
  GenerationCache.get TextLayoutCacheKey.equiv
    (TextLayoutCacheKey.make paint text (u32 count) dirFlags) (mCache c)
  = sp_NULL ->
  TextLayoutCacheValue.computeValues fuel paint text (u32 count) dirFlags
    TextLayoutCacheValue.new = Ok value ->
  u32 (TextLayoutCacheKey.getSize
         (TextLayoutCacheKey.make paint text (u32 count) dirFlags)
       + TextLayoutCacheValue.getSize value) <= mMaxSize c ->
  getValue fuel paint text count dirFlags c = Ok (r, c') ->
  r = Some value /\
  exists evicted kept,
    mCache c = evicted ++ kept /\
    mCache c'
    = kept ++ [(TextLayoutCacheKey.internalTextCopy
                  (TextLayoutCacheKey.make paint text (u32 count) dirFlags),
                Some value)] /\
    mSize c'
    = accounted_bytes kept
      + u32 (TextLayoutCacheKey.getSize
               (TextLayoutCacheKey.make paint text (u32 count) dirFlags)
             + TextLayoutCacheValue.getSize value) /\
    (forall front back,
       evicted = front ++ back -> back <> [] ->
       mMaxSize c
       < accounted_bytes (back ++ kept)
         + u32 (TextLayoutCacheKey.getSize
                  (TextLayoutCacheKey.make paint text (u32 count) dirFlags)
                + TextLayoutCacheValue.getSize value)) /\
    (mSize c
     + u32 (TextLayoutCacheKey.getSize
              (TextLayoutCacheKey.make paint text (u32 count) dirFlags)
            + TextLayoutCacheValue.getSize value) <= mMaxSize c ->
     evicted = []).
Proof.
  intros [Hacc Hle] Hmax Hmiss Hvalue Hfits. unfold getValue, sp_NULL in *.
  rewrite Hmiss, Hvalue. cbn [bind].
  set (size := u32 (TextLayoutCacheKey.getSize
                      (TextLayoutCacheKey.make paint text (u32 count) dirFlags)
                    + TextLayoutCacheValue.getSize value)) in *.
  assert (Hsize : 0 <= size < 2 ^ 32) by apply u32_range.
  replace (size <=? mMaxSize c) with true
    by (symmetry; apply Z.leb_le; exact Hfits).
  destruct (make_room fuel size c) as [c1|] eqn:Hm; [|discriminate].
  cbn [bind]. intros E. inversion E. split; [reflexivity|].
  destruct (make_room_stops_early size ltac:(lia) fuel c c1 Hacc ltac:(lia) Hm)
    as (evicted & Hev & Hacc1 & Hle1 & Hmx1 & _ & _ & Hmin).
  exists evicted, (mCache c1). cbn [mCache mSize].
  split; [exact Hev|]. split; [reflexivity|].
  pose proof (accounted_bytes_nonneg (mCache c1)) as Hnn.
  split; [rewrite u32_small by lia; rewrite Hacc1; reflexivity|].
  split; [exact Hmin|].
  intros Hroom. destruct evicted as [|e evicted]; [reflexivity|].
  specialize (Hmin [] (e :: evicted) eq_refl ltac:(discriminate)).
  rewrite <- Hev, <- Hacc in Hmin. lia.
Qed.

End WithEngines.
End WithSizes.
End StoreFacts.

(** * The further facts at work on concrete collaborators *)

Module ArtifactScenarios.
Import TextLayoutCacheValue BufferFacts StubFacts.

(** The two glyphs of [Stub.shaped_item], right to left. *)
Lemma project_glyphs_reverses_RTL_witness :
  exists gls',
    project_glyphs (growth := Stub.growth) Stub.shaped_item true Vector.empty
    = Ok gls' /\
    Vector.items gls' = [72; 71].
Proof.
  destruct (GlyphFacts.project_glyphs_reverses_RTL (growth := Stub.growth)
              Stub.shaped_item true Vector.empty [71; 72; 0; 0]
              ltac:(reflexivity) ltac:(simpl; lia))
    as (gls' & Hr & Hit & _).
  exists gls'. split; [exact Hr|exact Hit].
Defined.

(** Two code units for which the shaper has no glyph. *)
Lemma run_without_glyphs_appends_zero_advances_witness :
  exists r,
    computeRunValuesWithHarfbuzz (growth := Stub.growth)
      (shaper := Stub.silent_shaper)
        (allocator := Stub.allocator) 2 Stub.paint [65; 66] 0 2 2 false
      Vector.empty Vector.empty Vector.empty = Ok r /\
    Vector.items (outAdvances r) = [jfloat_zero; jfloat_zero] /\
    outTotalAdvance r = jfloat_zero /\
    outGlyphs r = Vector.empty /\ outLogClusters r = Vector.empty.
Proof.
  destruct (shapeWithHarfbuzz (shaper := Stub.silent_shaper) Stub.store 2
              Stub.paint [65; 66] 0 2 2 false) as [[h it]|] eqn:Hs;
    [|vm_compute in Hs; discriminate].
  apply (ArtifactFacts.run_without_glyphs_appends_zero_advances
           (growth := Stub.growth) (shaper := Stub.silent_shaper)
           (allocator := Stub.allocator)
           2 Stub.paint [65; 66] 0 2 2 false
           Vector.empty Vector.empty Vector.empty h it Hs).
  right. vm_compute in Hs. inversion Hs. reflexivity.
Defined.

(** Five code units in two visual runs. *)
Lemma computeValues_pairs_glyphs_and_log_clusters_witness :
  exists v,
    computeValues (growth := Stub.growth) (shaper := Stub.plain_shaper)
      (allocator := Stub.allocator)
      (bidi_engine := Stub.mixed_bidi) 4
      Stub.paint [65; 66; 67; 68; 69] 5 kBidi_RTL new = Ok v /\
    Vector.size (mGlyphs v) = Vector.size (mLogClusters v) /\
    (forall start count,
       0 <= start -> 0 <= count -> start + count < 2 ^ 32 ->
       exists outStartIndex outGlyphsCount,
         getGlyphsIndexAndCount v start count
         = Ok (outStartIndex, outGlyphsCount)).
Proof.
  eexists. split; [vm_compute; reflexivity|].
  apply (ArtifactFacts.computeValues_pairs_glyphs_and_log_clusters
           (growth := Stub.growth) (shaper := Stub.plain_shaper)
             (allocator := Stub.allocator)
           (bidi_engine := Stub.mixed_bidi) 4 Stub.paint
           [65; 66; 67; 68; 69] 5 kBidi_RTL).
  vm_compute. reflexivity.
Defined.

(** A direction mode of 9. *)
Lemma computeValues_unknown_mode_is_LTR_witness :
  computeValues (growth := Stub.growth) (shaper := Stub.plain_shaper)
    (allocator := Stub.allocator)
    (bidi_engine := Stub.mixed_bidi) 4 Stub.paint [65; 66; 67; 68; 69] 5 9
    new
  = computeValues (growth := Stub.growth) (shaper := Stub.plain_shaper)
    (allocator := Stub.allocator)
      (bidi_engine := Stub.mixed_bidi) 4 Stub.paint [65; 66; 67; 68; 69] 5
      kBidi_LTR new.
Proof.
  apply (ArtifactFacts.computeValues_unknown_mode_is_LTR
           (growth := Stub.growth) (shaper := Stub.plain_shaper)
             (allocator := Stub.allocator)
           (bidi_engine := Stub.mixed_bidi)).
  right. unfold kBidi_Force_RTL. lia.
Defined.

(** Two code units in one left-to-right run. *)
Lemma getTotalAdvance_of_a_single_run_witness :
  exists v total,
    computeValues (growth := Stub.growth) (shaper := Stub.plain_shaper)
      (allocator := Stub.allocator)
      (bidi_engine := Stub.ltr_bidi) 4 Stub.paint [72; 105] 2 kBidi_LTR new
    = Ok v /\
    getTotalAdvance v 0 2 = Ok total /\
    same_float total (mTotalAdvance v).
Proof.
  eexists.
  match goal with
  | |- exists total, ?c = Ok ?v /\ _ =>
      assert (Hv : c = Ok v) by (vm_compute; reflexivity)
  end.
  destruct (ReadFacts.getTotalAdvance_of_a_single_run
              (growth := Stub.growth) (shaper := Stub.plain_shaper)
                (allocator := Stub.allocator)
              (bidi_engine := Stub.ltr_bidi) 4 Stub.paint [72; 105] 2
              kBidi_LTR false _ ltac:(lia)
              ltac:(intros _; apply table_shaper_writes_in_place)
              ltac:(reflexivity) Hv)
    as (total & Ht & Hsame).
  exists total. split; [exact Hv|]. split; [exact Ht|exact Hsame].
Defined.

(** The same artifact: two slots in each vector, 96 bytes in all. *)
Lemma computeValues_keeps_the_capacity_hint_witness :
  exists v,
    computeValues (growth := Stub.growth) (shaper := Stub.plain_shaper)
      (allocator := Stub.allocator)
      (bidi_engine := Stub.ltr_bidi) 4 Stub.paint [72; 105] 2 kBidi_LTR new
    = Ok v /\
    Vector.capacity (mAdvances v) = 2 /\
    Vector.capacity (mGlyphs v) = 2 /\
    Vector.capacity (mLogClusters v) = 2 /\
    getSize (sizes := Stub.sizes) v = 96.
Proof.
  eexists. split; [vm_compute; reflexivity|].
  apply (SizeFacts.computeValues_keeps_the_capacity_hint
           (growth := Stub.growth) (shaper := Stub.plain_shaper)
             (allocator := Stub.allocator)
           (bidi_engine := Stub.ltr_bidi) (sizes := Stub.sizes)
           4 Stub.paint [72; 105] 2 kBidi_LTR);
    [lia | vm_compute; reflexivity | vm_compute; discriminate
     | vm_compute; discriminate].
Defined.

End ArtifactScenarios.

Module StoreScenarios.
Import TextLayoutCache.

(** Two entries of 140 bytes under a budget of 300, lowered to 200. *)
Lemma setMaxSize_evicts_no_more_than_needed_witness :
  let c := Stub.after_getValue [74; 75]
             (Stub.after_getValue [72; 105] (Stub.empty_cache 300)) in
  exists c' evicted,
    setMaxSize (sizes := Stub.sizes) 3 200 c = Ok c' /\
    mCache c = evicted ++ mCache c' /\
    mSize c' = accounted_bytes (sizes := Stub.sizes) (mCache c') /\
    mSize c' <= 200 /\ mMaxSize c' = 200 /\
    (forall front back,
       evicted = front ++ back -> back <> [] ->
       200 < accounted_bytes (sizes := Stub.sizes) (back ++ mCache c')).
Proof.
  intros c.
  destruct (setMaxSize (sizes := Stub.sizes) 3 200 c) as [c'|] eqn:Hr;
    [|vm_compute in Hr; discriminate].
  destruct (StoreFacts.setMaxSize_evicts_no_more_than_needed
              (sizes := Stub.sizes) 3 200 c c'
              ltac:(vm_compute; reflexivity) ltac:(vm_compute; reflexivity)
              Hr)
    as (evicted & Hev & Hacc & Hle & Hmx & Hmin & _).
  exists c', evicted. split; [reflexivity|]. split; [exact Hev|].
  repeat split; assumption.
Defined.

(** The cache after one request. *)
Lemma store_keeps_owned_keys_and_artifacts_witness :
  let c := Stub.after_getValue [72; 105] (Stub.empty_cache 300) in
  holds_entries c /\
  holds_entries (clear (sizes := Stub.sizes) c) /\
  (forall fuel maxSize c',
     setMaxSize (sizes := Stub.sizes) fuel maxSize c = Ok c' ->
     holds_entries c') /\
  (forall fuel paint text count dirFlags r c',
     getValue (sizes := Stub.sizes) (growth := Stub.growth)
       (shaper := Stub.plain_shaper)
         (allocator := Stub.allocator) (bidi_engine := Stub.ltr_bidi)
       fuel paint text count dirFlags c = Ok (r, c') ->
     holds_entries c').
Proof.
  intros c.
  assert (Hh : holds_entries c).
  { repeat constructor. discriminate. }
  split; [exact Hh|].
  apply (StoreFacts.store_keeps_owned_keys_and_artifacts
           (sizes := Stub.sizes) (growth := Stub.growth)
           (shaper := Stub.plain_shaper)
             (allocator := Stub.allocator) (bidi_engine := Stub.ltr_bidi)
           c Hh).
Defined.

(** A budget of 32 bytes and an entry of 140. *)
Lemma getValue_is_null_only_when_oversize_witness :
  exists value,
    TextLayoutCacheValue.computeValues (growth := Stub.growth)
      (shaper := Stub.plain_shaper)
        (allocator := Stub.allocator) (bidi_engine := Stub.ltr_bidi)
      4 Stub.paint [72; 105] (u32 2) kBidi_LTR
      TextLayoutCacheValue.new = Ok value /\
    mMaxSize (Stub.empty_cache 32)
    < u32 (TextLayoutCacheKey.getSize (sizes := Stub.sizes)
             (TextLayoutCacheKey.make Stub.paint [72; 105] (u32 2) kBidi_LTR)
           + TextLayoutCacheValue.getSize (sizes := Stub.sizes) value).
Proof.
  apply (StoreFacts.getValue_is_null_only_when_oversize
           (sizes := Stub.sizes) (growth := Stub.growth)
           (shaper := Stub.plain_shaper)
             (allocator := Stub.allocator) (bidi_engine := Stub.ltr_bidi)
           4 Stub.paint [72; 105] 2 kBidi_LTR
           (Stub.empty_cache 32) (Stub.empty_cache 32));
    [constructor | vm_compute; reflexivity].
Defined.

(** The same request twice on an empty cache of 300 bytes; the second call
    is given no fuel. *)
Lemma getValue_again_is_a_hit_witness :
  exists value c' c'',
    getValue (sizes := Stub.sizes) (growth := Stub.growth)
      (shaper := Stub.plain_shaper)
        (allocator := Stub.allocator) (bidi_engine := Stub.ltr_bidi)
      4 Stub.paint [72; 105] 2 kBidi_LTR (Stub.empty_cache 300)
    = Ok (Some value, c') /\
    getValue (sizes := Stub.sizes) (growth := Stub.growth)
      (shaper := Stub.plain_shaper)
        (allocator := Stub.allocator) (bidi_engine := Stub.ltr_bidi)
      0 Stub.paint [72; 105] 2 kBidi_LTR c'
    = Ok (Some value, c'') /\
    mSize c'' = mSize c' /\ mMaxSize c'' = mMaxSize c' /\
    GenerationCache.size (mCache c'') = GenerationCache.size (mCache c').
Proof.
  eexists. eexists.
  match goal with
  | |- exists c'', ?g = Ok (Some ?v, ?c') /\ _ =>
      assert (Hv : g = Ok (Some v, c')) by (vm_compute; reflexivity)
  end.
  destruct (StoreFacts.getValue_again_is_a_hit
              (sizes := Stub.sizes) (growth := Stub.growth)
              (shaper := Stub.plain_shaper)
                (allocator := Stub.allocator) (bidi_engine := Stub.ltr_bidi)
              4 0 Stub.paint [72; 105] 2 kBidi_LTR (Stub.empty_cache 300)
              _ _ ltac:(constructor) ltac:(vm_compute; reflexivity)
              ltac:(vm_compute; discriminate) Hv)
    as (c'' & Hr & Hs & Hm & Hn).
  exists c''. split; [exact Hv|]. repeat split; assumption.
Defined.

(** Two entries of 140 bytes under a budget of 300: the third request
    evicts the older one and is put behind the other. *)
Lemma getValue_admits_as_newest_evicting_oldest_witness :
  let c := Stub.after_getValue [74; 75]
             (Stub.after_getValue [72; 105] (Stub.empty_cache 300)) in
  exists value c' evicted kept,
    getValue (sizes := Stub.sizes) (growth := Stub.growth)
      (shaper := Stub.plain_shaper)
        (allocator := Stub.allocator) (bidi_engine := Stub.ltr_bidi)
      4 Stub.paint [76; 77] 2 kBidi_LTR c = Ok (Some value, c') /\
    mCache c = evicted ++ kept /\
    mCache c'
    = kept ++ [(TextLayoutCacheKey.internalTextCopy
                  (TextLayoutCacheKey.make Stub.paint [76; 77] (u32 2)
                                           kBidi_LTR),
                Some value)] /\
    mSize c' = accounted_bytes (sizes := Stub.sizes) kept + 140.
Proof.
  intros c.
  destruct (TextLayoutCacheValue.computeValues (growth := Stub.growth)
              (shaper := Stub.plain_shaper)
                (allocator := Stub.allocator) (bidi_engine := Stub.ltr_bidi)
              4 Stub.paint [76; 77] (u32 2) kBidi_LTR
              TextLayoutCacheValue.new) as [value|] eqn:Hv;
    [|vm_compute in Hv; discriminate].
  destruct (getValue (sizes := Stub.sizes) (growth := Stub.growth)
              (shaper := Stub.plain_shaper)
                (allocator := Stub.allocator) (bidi_engine := Stub.ltr_bidi)
              4 Stub.paint [76; 77] 2 kBidi_LTR c) as [[r c']|] eqn:Hg;
    [|vm_compute in Hg; discriminate].
  assert (Hsize : u32 (TextLayoutCacheKey.getSize (sizes := Stub.sizes)
                         (TextLayoutCacheKey.make Stub.paint [76; 77] (u32 2)
                                                  kBidi_LTR)
                       + TextLayoutCacheValue.getSize (sizes := Stub.sizes)
                           value) = 140).
  { vm_compute in Hv. inversion Hv. vm_compute. reflexivity. }
  destruct (StoreFacts.getValue_admits_as_newest_evicting_oldest
              (sizes := Stub.sizes) (growth := Stub.growth)
              (shaper := Stub.plain_shaper)
                (allocator := Stub.allocator) (bidi_engine := Stub.ltr_bidi)
              4 Stub.paint [76; 77] 2 kBidi_LTR c c' r value)
    as (Hr & evicted & kept & Hev & Hput & Hsz & Hmin & _).
  - split; [vm_compute; reflexivity|vm_compute; discriminate].
  - vm_compute. reflexivity.
  - vm_compute. reflexivity.
  - exact Hv.
  - rewrite Hsize. vm_compute. discriminate.
  - exact Hg.
  - subst r. exists value, c', evicted, kept.
    split; [reflexivity|]. split; [exact Hev|]. split; [exact Hput|].
    rewrite Hsz, Hsize. reflexivity.
Defined.

End StoreScenarios.
